(** * bluepam: a Bluetooth-proximity PAM module

    Shallow embedding of [src/main.c].  The record parser
    ([parse_next_kv]) is embedded as a state-passing function over the
    caller's cursor and scratch arrays, instrumented with the list of
    memory accesses it performs.  The functions that talk to the outside
    world (files, the HCI radio layer, PAM) are embedded in a state and
    writer monad over an abstract host: the state is the world, the output
    is the trace of external calls.

    Layout: definitions first (C helpers, libc and BlueZ models, parser,
    host interface, the module's functions, a scripted host used for
    concrete runs), then the lemmas. *)

From Stdlib Require Import ZArith Ascii String List Lia Bool.
From stdpp Require Import base list.
Import ListNotations.
Open Scope Z_scope.

(* ===================================================================== *)
(** ** C integer types and characters *)
(* ===================================================================== *)

(** Conversion of an [int] to [int8_t] (modular, as gcc defines it). *)
Definition to_int8 (z : Z) : Z := (z + 128) mod 256 - 128.

(** Two's complement wrap-around of a 32-bit [int]. *)
Definition to_int32 (z : Z) : Z := (z + 2 ^ 31) mod 2 ^ 32 - 2 ^ 31.

(** [size_t] is 64 bits wide: incrementing the line counter wraps at [2^64]. *)
Definition size_incr (z : Z) : Z := (z + 1) mod 2 ^ 64.

Definition NUL : ascii := "000"%char.
Definition LF : ascii := "010"%char.
Definition SP : ascii := " "%char.
Definition EQUALS : ascii := "="%char.
Definition HASH : ascii := "#"%char.
Definition DQUOTE : ascii := "034"%char.

(** The value of a [char] read as [unsigned char]. *)
Definition uchar (c : ascii) : Z := Z.of_N (N_of_ascii c).

(** [a[i]] for an array or buffer held as a list.  A read outside the list
    yields [NUL] in the model; the parser records every offset it reads, so
    such reads stay visible. *)
Definition byte_at (a : list ascii) (i : Z) : ascii :=
  if i <? 0 then NUL else default NUL (a !! Z.to_nat i).

(** [a[i] = c].  A write outside the array changes nothing in the model
    (the access is recorded by the caller).  In the program such a store
    lands on whatever lies behind the array: with [key] and [value]
    adjacent on the caller's stack, [value[256] = 0] can be [key[0] = 0].
    What the callers compute from [key] and [value] is therefore stated
    for runs whose accesses stay in bounds ([stays_in_bounds]). *)
Definition store_at (a : list ascii) (i : Z) (c : ascii) : list ascii :=
  if i <? 0 then a else <[ Z.to_nat i := c ]> a.

(** The C string that starts at [a[0]]: the bytes before the first [NUL]. *)
Fixpoint cstr (a : list ascii) : list ascii :=
  match a with
  | [] => []
  | c :: t => if Ascii.eqb c NUL then [] else c :: cstr t
  end.

Definition lit (s : string) : list ascii := list_ascii_of_string s.

(* ===================================================================== *)
(** ** libc functions used by the module (C standard semantics) *)
(* ===================================================================== *)

Module Libc.

(** [strncmp (s1, s2, n)]: compares at most [n] characters, stops after a
    [NUL]; the end of a list is read as the terminating [NUL]. *)
Fixpoint strncmp (s1 s2 : list ascii) (n : nat) : Z :=
  match n with
  | O => 0
  | S n' =>
      let c1 := hd NUL s1 in
      let c2 := hd NUL s2 in
      if Ascii.eqb c1 c2
      then if Ascii.eqb c1 NUL then 0 else strncmp (tl s1) (tl s2) n'
      else uchar c1 - uchar c2
  end.

(** [strcmp (s1, s2)]. *)
Fixpoint strcmp (s1 s2 : list ascii) : Z :=
  match s1, s2 with
  | [], [] => 0
  | [], c2 :: _ => uchar NUL - uchar c2
  | c1 :: _, [] => uchar c1 - uchar NUL
  | c1 :: t1, c2 :: t2 =>
      if Ascii.eqb c1 c2
      then if Ascii.eqb c1 NUL then 0 else strcmp t1 t2
      else uchar c1 - uchar c2
  end.

(** [strncpy (dest, src, n)]: the [n] bytes written to [dest]; once the
    source's [NUL] is reached the rest is padded with [NUL]. *)
Fixpoint strncpy (src : list ascii) (n : nat) : list ascii :=
  match n with
  | O => []
  | S n' =>
      match src with
      | [] => NUL :: strncpy [] n'
      | c :: t => if Ascii.eqb c NUL then NUL :: strncpy [] n' else c :: strncpy t n'
      end
  end.

Definition isspace (c : ascii) : bool :=
  let v := uchar c in (v =? 32) || ((9 <=? v) && (v <=? 13)).

Definition digit_val (c : ascii) : option Z :=
  let v := uchar c in
  if (48 <=? v) && (v <=? 57) then Some (v - 48) else None.

Fixpoint skip_space (s : list ascii) : list ascii :=
  match s with
  | c :: t => if isspace c then skip_space t else s
  | [] => []
  end.

Fixpoint digits (s : list ascii) (acc : Z) : Z :=
  match s with
  | c :: t => match digit_val c with
              | Some d => digits t (10 * acc + d)
              | None => acc
              end
  | [] => acc
  end.

(** [strtol (s, NULL, 10)]: saturates at the bounds of a 64-bit [long]. *)
Definition strtol10 (s : list ascii) : Z :=
  let clamp z := Z.max (- 2 ^ 63) (Z.min (2 ^ 63 - 1) z) in
  match skip_space s with
  | c :: t =>
      if Ascii.eqb c "-" then clamp (- digits t 0)
      else if Ascii.eqb c "+" then clamp (digits t 0)
      else clamp (digits (c :: t) 0)
  | [] => 0
  end.

(** [atoi (s)] is [(int) strtol (s, NULL, 10)]. *)
Definition atoi (s : list ascii) : Z := to_int32 (strtol10 s).

(** [abs (x)] on [int]; [abs (INT_MIN)] wraps back to [INT_MIN]. *)
Definition abs (x : Z) : Z := if x <? 0 then to_int32 (- x) else x.

End Libc.

(* ===================================================================== *)
(** ** BlueZ address helpers (lib/bluetooth.c of the BlueZ library) *)
(* ===================================================================== *)

Module BlueZ.

(** [bdaddr_t]: the six octets [b[0] .. b[5]]. *)
Definition bdaddr_t := list Z.

Definition octet (a : bdaddr_t) (i : nat) : Z := nth i a 0 mod 256.

Definition BDADDR_ANY : bdaddr_t := [0; 0; 0; 0; 0; 0].

(** [bacmp] is [memcmp] over the six octets. *)
Fixpoint memcmp6 (a b : bdaddr_t) (i n : nat) : Z :=
  match n with
  | O => 0
  | S n' =>
      if octet a i =? octet b i then memcmp6 a b (S i) n'
      else octet a i - octet b i
  end.

Definition bacmp (a b : bdaddr_t) : Z := memcmp6 a b 0 6.

Definition hexval (c : ascii) : option Z :=
  let v := uchar c in
  if (48 <=? v) && (v <=? 57) then Some (v - 48)
  else if (65 <=? v) && (v <=? 70) then Some (v - 55)
  else if (97 <=? v) && (v <=? 102) then Some (v - 87)
  else None.

(** The octets of [XX:XX:...:XX] in textual order, as [bachk] accepts
    them and [strtol (str, NULL, 16)] reads them. *)
Fixpoint hex_pairs (s : list ascii) : option (list Z) :=
  match s with
  | h :: l :: rest =>
      match hexval h, hexval l with
      | Some a, Some b =>
          match rest with
          | [] => Some [16 * a + b]
          | c :: rest' =>
              if Ascii.eqb c ":"
              then option_map (cons (16 * a + b)) (hex_pairs rest')
              else None
          end
      | _, _ => None
      end
  | _ => None
  end.

(** [str2ba (str, ba)]: status and the address written to [ba] (all
    zeroes when [bachk] rejects the string). *)
Definition str2ba (str : list ascii) : Z * bdaddr_t :=
  if (length str =? 17)%nat then
    match hex_pairs str with
    | Some octets => (0, rev octets)
    | None => (-1, BDADDR_ANY)
    end
  else (-1, BDADDR_ANY).

Definition hexdigit (v : Z) : ascii :=
  ascii_of_N (Z.to_N (if v <? 10 then 48 + v else 55 + v)).

Definition hex2 (v : Z) : list ascii := [hexdigit (v / 16); hexdigit (v mod 16)].

(** [ba2str (ba, str)]: the rendered string (always 17 characters). *)
Definition ba2str (ba : bdaddr_t) : list ascii :=
  hex2 (octet ba 5) ++ ":"%char :: hex2 (octet ba 4) ++ ":"%char ::
  hex2 (octet ba 3) ++ ":"%char :: hex2 (octet ba 2) ++ ":"%char ::
  hex2 (octet ba 1) ++ ":"%char :: hex2 (octet ba 0).

End BlueZ.

(* ===================================================================== *)
(** ** Constants of main.c and syslog records *)
(* ===================================================================== *)

Definition CONFIG_FILE : string := "/etc/pam_bluetooth.conf".
Definition SYSCALL_MAX_BYTES_READ : Z := 1024.
Definition MAX_ITEM_LEN : Z := 256.
Definition MAX_DEVICES_LOOKDUP : Z := 20.

Definition LOG_ERR : Z := 3.
Definition LOG_WARNING : Z := 4.
Definition LOG_INFO : Z := 6.
Definition LOG_DEBUG : Z := 7.

Definition PAM_SUCCESS : Z := 0.
Definition PAM_AUTH_ERR : Z := 7.

Inductive log_arg :=
| ArgInt (z : Z)
| ArgStr (s : list ascii).

(** One [pam_syslog] call: priority, format string, arguments. *)
Record log_entry := Log { log_prio : Z; log_fmt : string; log_args : list log_arg }.

(* ===================================================================== *)
(** ** Record parser: [parse_next_kv] (main.c, lines 48-130) *)
(* ===================================================================== *)

(** Memory accesses of the parser: reads of [fbuffer], writes to the
    [key] scratch array, reads and writes of the [value] scratch array. *)
Inductive access :=
| RdBuf (off : Z)
| WrKey (idx : Z)
| RdValue (idx : Z)
| WrValue (idx : Z).

(** What the caller passes by pointer: the cursor ([pos], [line]), the two
    scratch arrays with their lengths, and (instrumentation) the accesses
    performed so far, most recent first. *)
Record cursor := Cursor {
  pos : Z;
  line : Z;
  key : list ascii;
  key_len : Z;
  value : list ascii;
  value_len : Z;
  accesses : list access
}.

Definition touch (a : access) (c : cursor) : cursor :=
  Cursor (pos c) (line c) (key c) (key_len c) (value c) (value_len c) (a :: accesses c).

Definition touch_all (l : list access) (c : cursor) : cursor :=
  Cursor (pos c) (line c) (key c) (key_len c) (value c) (value_len c) (rev l ++ accesses c).

(** [( *pos)++] *)
Definition advance (c : cursor) : cursor :=
  Cursor (pos c + 1) (line c) (key c) (key_len c) (value c) (value_len c) (accesses c).

(** [( *line)++] *)
Definition next_line (c : cursor) : cursor :=
  Cursor (pos c) (size_incr (line c)) (key c) (key_len c) (value c) (value_len c) (accesses c).

(** [key[i] = ch] *)
Definition write_key (i : Z) (ch : ascii) (c : cursor) : cursor :=
  Cursor (pos c) (line c) (store_at (key c) i ch) (key_len c) (value c) (value_len c)
         (WrKey i :: accesses c).

(** [value[i] = ch] *)
Definition write_value (i : Z) (ch : ascii) (c : cursor) : cursor :=
  Cursor (pos c) (line c) (key c) (key_len c) (store_at (value c) i ch) (value_len c)
         (WrValue i :: accesses c).

(** [value[i]] *)
Definition read_value (i : Z) (c : cursor) : ascii * cursor :=
  (byte_at (value c) i, touch (RdValue i) c).

Definition set_key_len (n : Z) (c : cursor) : cursor :=
  Cursor (pos c) (line c) (key c) n (value c) (value_len c) (accesses c).

Definition set_value_len (n : Z) (c : cursor) : cursor :=
  Cursor (pos c) (line c) (key c) (key_len c) (value c) n (accesses c).

(** [memmove (value, value + 1, k)] *)
Definition memmove_value (k : Z) (c : cursor) : cursor :=
  let v := value c in
  let v' := firstn (Z.to_nat k) (skipn 1 v) ++ skipn (Z.to_nat k) v in
  touch_all (map RdValue (seqZ 1 k) ++ map WrValue (seqZ 0 k))
    (Cursor (pos c) (line c) (key c) (key_len c) v' (value_len c) (accesses c)).

Section Parser.

Variable fbuffer : list ascii.
Variable read_res : Z.

(** [fbuffer[*pos]] *)
Definition peek (c : cursor) : ascii * cursor :=
  (byte_at fbuffer (pos c), touch (RdBuf (pos c)) c).

(** Every loop of the parser advances [pos] towards [read_res], so
    [read_res - pos] iterations are enough; with no iterations left
    [pos >= read_res] and the loop condition is false. *)
Definition remaining (c : cursor) : nat := Z.to_nat (read_res - pos c).

(** [while ( *pos < read_res && fbuffer[*pos] == ' ') ( *pos)++;] *)
Fixpoint skip_spaces_from (fuel : nat) (c : cursor) : cursor :=
  match fuel with
  | O => c
  | S fuel' =>
      if pos c <? read_res then
        let (ch, c1) := peek c in
        if Ascii.eqb ch SP then skip_spaces_from fuel' (advance c1) else c1
      else c
  end.

Definition skip_spaces (c : cursor) : cursor := skip_spaces_from (remaining c) c.

(** [while ( *pos < read_res && fbuffer[*pos] == '\n') { ( *pos)++; ( *line)++; }] *)
Fixpoint skip_newlines_from (fuel : nat) (c : cursor) : cursor :=
  match fuel with
  | O => c
  | S fuel' =>
      if pos c <? read_res then
        let (ch, c1) := peek c in
        if Ascii.eqb ch LF then skip_newlines_from fuel' (next_line (advance c1)) else c1
      else c
  end.

Definition skip_newlines (c : cursor) : cursor := skip_newlines_from (remaining c) c.

(** [while ( *pos < read_res && fbuffer[*pos] != '\n') ( *pos)++;] *)
Fixpoint skip_comment_from (fuel : nat) (c : cursor) : cursor :=
  match fuel with
  | O => c
  | S fuel' =>
      if pos c <? read_res then
        let (ch, c1) := peek c in
        if Ascii.eqb ch LF then c1 else skip_comment_from fuel' (advance c1)
      else c
  end.

Definition skip_comment (c : cursor) : cursor := skip_comment_from (remaining c) c.

(** The key loop (lines 86-89); [n] is the local index. *)
Fixpoint scan_key_from (fuel : nat) (n : Z) (c : cursor) : Z * cursor :=
  match fuel with
  | O => (n, c)
  | S fuel' =>
      if (pos c <? read_res) && (n <? MAX_ITEM_LEN) then
        let (ch1, c1) := peek c in
        if Ascii.eqb ch1 EQUALS then (n, c1) else
        let (ch2, c2) := peek c1 in
        if Ascii.eqb ch2 LF then (n, c2) else
        let (ch3, c3) := peek c2 in
        if Ascii.eqb ch3 SP then (n, c3) else
        let (ch4, c4) := peek c3 in
        scan_key_from fuel' (n + 1) (advance (write_key n ch4 c4))
      else (n, c)
  end.

Definition scan_key (n : Z) (c : cursor) : Z * cursor := scan_key_from (remaining c) n c.

(** The value loop (lines 107-109). *)
Fixpoint scan_value_from (fuel : nat) (n : Z) (c : cursor) : Z * cursor :=
  match fuel with
  | O => (n, c)
  | S fuel' =>
      if (pos c <? read_res) && (n <? MAX_ITEM_LEN) then
        let (ch1, c1) := peek c in
        if Ascii.eqb ch1 LF then (n, c1) else
        let (ch2, c2) := peek c1 in
        scan_value_from fuel' (n + 1) (advance (write_value n ch2 c2))
      else (n, c)
  end.

Definition scan_value (n : Z) (c : cursor) : Z * cursor := scan_value_from (remaining c) n c.

(** [while (n > 0 && value[n - 1] == ' ') value[--n] = '\0';] *)
Fixpoint trim_value_from (fuel : nat) (n : Z) (c : cursor) : Z * cursor :=
  match fuel with
  | O => (n, c)
  | S fuel' =>
      if 0 <? n then
        let (ch, c1) := read_value (n - 1) c in
        if Ascii.eqb ch SP then trim_value_from fuel' (n - 1) (write_value (n - 1) NUL c1)
        else (n, c1)
      else (n, c)
  end.

Definition trim_value (n : Z) (c : cursor) : Z * cursor := trim_value_from (Z.to_nat n) n c.

(** Lines 118-122: surrounding double quotes. *)
Definition strip_quotes (n : Z) (c : cursor) : Z * cursor :=
  if 2 <=? n then
    let (ch1, c1) := read_value 0 c in
    if Ascii.eqb ch1 DQUOTE then
      let (ch2, c2) := read_value (n - 1) c1 in
      if Ascii.eqb ch2 DQUOTE then
        (n - 2, write_value (n - 2) NUL (memmove_value (n - 2) c2))
      else (n, c2)
    else (n, c1)
  else (n, c).

(** Lines 84-126: a key, [=], a value.  The third component is what the
    call hands to [pam_syslog]. *)
Definition parse_record (c : cursor) : Z * cursor * list log_entry :=
  let (n, c) := scan_key 0 c in
  let c := set_key_len n (write_key n NUL c) in
  let c := skip_spaces c in
  let (ch, c) := peek c in
  if negb (Ascii.eqb ch EQUALS) then
    (-1, c, [Log LOG_ERR "Expected '=' after key: %s:%zu"
                 [ArgStr (lit CONFIG_FILE); ArgInt (line c)]])
  else
    let c := skip_spaces (advance c) in
    let (n, c) := scan_value 0 c in
    let c := write_value n NUL c in
    let (n, c) := trim_value n c in
    let (n, c) := strip_quotes n c in
    (1, advance (set_value_len n c), []).

(** The outer [while ( *pos < read_res)] loop. *)
Fixpoint parse_from (fuel : nat) (c : cursor) : Z * cursor * list log_entry :=
  match fuel with
  | O => (0, c, [])
  | S fuel' =>
      if pos c <? read_res then
        let (ch1, c1) := peek c in
        if Ascii.eqb ch1 SP then parse_from fuel' (skip_spaces (advance c1)) else
        let (ch2, c2) := peek c1 in
        if Ascii.eqb ch2 LF then parse_from fuel' (skip_newlines (advance c2)) else
        let (ch3, c3) := peek c2 in
        if Ascii.eqb ch3 HASH then
          let c4 := skip_comment (advance c3) in
          let c5 := if pos c4 <? read_res then advance c4 else c4 in
          parse_from fuel' (next_line c5)
        else parse_record c3
      else (0, c, [])
  end.

(** Returns 1 if a key-value pair was found, 0 at the end of the buffer,
    -1 on error. *)
Definition parse_next_kv (c : cursor) : Z * cursor * list log_entry :=
  parse_from (remaining c) c.

End Parser.

(** The caller's locals before the first call: [pos = 0], [line] as the
    caller initialises it, and two [MAX_ITEM_LEN]-byte scratch arrays
    (uninitialised in C; the parser writes every byte before reading it). *)
Definition fresh_cursor (line0 : Z) : cursor :=
  Cursor 0 line0 (repeat NUL 256) 0 (repeat NUL 256) 0 [].

(* ===================================================================== *)
(** ** The host: files, process, HCI radio layer, PAM *)
(* ===================================================================== *)

Import BlueZ.

(** [bt_config_t] *)
Record bt_config_t := Config {
  device_addr : bdaddr_t;
  request_update : Z;
  check_trusted : Z;
  min_strength : Z
}.

(** [struct hci_conn_info], the fields the module reads. *)
Record hci_conn_info := ConnInfo { handle : Z; bdaddr : bdaddr_t }.

(** [read_rssi_rp], the reply of the READ_RSSI command. *)
Record read_rssi_rp := RssiReply { status : Z; rssi : Z }.

Definition OGF_STATUS_PARAM : Z := 5.
Definition OCF_READ_RSSI : Z := 5.

(** Every call that leaves the module, in the order it happens. *)
Inductive event :=
| Syslog (e : log_entry)
| SysOpen (path : list ascii)
| SysRead (fd count : Z)
| SysMalloc (size : Z)
| SysGetuid
| PamGetAuthtok
| HciGetRoute
| HciDevba (dev_id : Z)
| HciOpenDev (dev_id : Z)
| HciGetConnList (sock dev_id conn_num : Z)
| HciReadRssi (sock hnd timeout : Z)
| HciSendReq (sock ogf ocf hnd timeout : Z)
| HciReadRemoteName (sock : Z) (addr : bdaddr_t) (timeout : Z).

(** Calls that reach the Bluetooth adapter. *)
Definition is_radio (e : event) : bool :=
  match e with
  | HciGetRoute | HciDevba _ | HciOpenDev _ | HciGetConnList _ _ _
  | HciReadRssi _ _ _ | HciSendReq _ _ _ _ _ | HciReadRemoteName _ _ _ => true
  | _ => false
  end.

(** The first thing [check_paired_device_proximity] does. *)
Definition is_probe (e : event) : bool :=
  match e with
  | HciReadRemoteName _ _ _ => true
  | _ => false
  end.

Definition is_file_access (e : event) : bool :=
  match e with
  | SysOpen _ | SysRead _ _ => true
  | _ => false
  end.

(** The external collaborators, as functions of an abstract world [W].
    - [host_open path]: the descriptor, or -1;
    - [host_read fd count]: the result of [read] and the contents of the
      buffer afterwards;
    - [host_malloc size]: whether the allocation succeeded;
    - [host_hci_read_rssi sock hnd timeout]: status and the [int8_t] stored;
    - [host_hci_send_req sock hnd timeout]: status and the reply;
    - [host_conn_list sock dev_id conn_num]: status of the HCIGETCONNLIST
      ioctl and the entries it filled in ([conn_num] is their count);
    - [host_pam_get_authtok]: status and the password pointer ([None] is
      [NULL]). *)
Record Host (W : Type) := {
  host_open : list ascii -> W -> Z * W;
  host_read : Z -> Z -> W -> (Z * list ascii) * W;
  host_malloc : Z -> W -> bool * W;
  host_getuid : W -> Z * W;
  host_pam_get_authtok : W -> (Z * option (list ascii)) * W;
  host_hci_get_route : W -> Z * W;
  host_hci_devba : Z -> W -> (Z * bdaddr_t) * W;
  host_hci_open_dev : Z -> W -> Z * W;
  host_conn_list : Z -> Z -> Z -> W -> (Z * list hci_conn_info) * W;
  host_hci_read_rssi : Z -> Z -> Z -> W -> (Z * Z) * W;
  host_hci_send_req : Z -> Z -> Z -> W -> (Z * read_rssi_rp) * W;
  host_hci_read_remote_name : Z -> bdaddr_t -> Z -> W -> Z * W
}.

Arguments host_open {W}.
Arguments host_read {W}.
Arguments host_malloc {W}.
Arguments host_getuid {W}.
Arguments host_pam_get_authtok {W}.
Arguments host_hci_get_route {W}.
Arguments host_hci_devba {W}.
Arguments host_hci_open_dev {W}.
Arguments host_conn_list {W}.
Arguments host_hci_read_rssi {W}.
Arguments host_hci_send_req {W}.
Arguments host_hci_read_remote_name {W}.

(** A computation of the module: from the world before to a result, the
    world after, and the external calls made, in order.  The trace is
    output only: nothing in the module reads it back. *)
Definition M (W A : Type) : Type := W -> A * W * list event.

Definition ret {W A} (a : A) : M W A := fun w => (a, w, []).

Definition bind {W A B} (m : M W A) (k : A -> M W B) : M W B :=
  fun w =>
    let '(a, w1, t1) := m w in
    let '(b, w2, t2) := k a w1 in
    (b, w2, t1 ++ t2).

Notation "'let*' x ':=' m 'in' k" := (bind m (fun x => k))
  (at level 10, x pattern, m at level 100, k at level 200).

(** Perform an external call: ask the host, record the call. *)
Definition call {W A} (e : event) (f : W -> A * W) : M W A :=
  fun w => let (a, w') := f w in (a, w', [e]).

Definition pam_syslog {W} (prio : Z) (fmt : string) (args : list log_arg) : M W unit :=
  fun w => (tt, w, [Syslog (Log prio fmt args)]).

Definition emit {W} (l : list log_entry) : M W unit :=
  fun w => (tt, w, map Syslog l).

(** Modelled from the spec: [z3_str], [z3_pushl] and [z3_pushc] of
    lib/z3_string.h, which is not part of the sources at hand.  The path is
    built "by joining a fixed root, the adapter address, the device address,
    and a fixed filename"; [z3_pushl] appends [len] bytes, [z3_pushc] one. *)
Definition z3_pushl (s p : list ascii) (len : nat) : list ascii := s ++ firstn len p.
Definition z3_pushc (s : list ascii) (ch : ascii) : list ascii := s ++ [ch].

Section Bluepam.

Context {W : Type} (host : Host W).

Definition sys_open (path : list ascii) : M W Z :=
  call (SysOpen path) (host_open host path).
Definition sys_read (fd count : Z) : M W (Z * list ascii) :=
  call (SysRead fd count) (host_read host fd count).
Definition malloc (size : Z) : M W bool :=
  call (SysMalloc size) (host_malloc host size).
Definition getuid : M W Z :=
  call SysGetuid (host_getuid host).
Definition pam_get_authtok : M W (Z * option (list ascii)) :=
  call PamGetAuthtok (host_pam_get_authtok host).
Definition hci_get_route : M W Z :=
  call HciGetRoute (host_hci_get_route host).
Definition hci_devba (dev_id : Z) : M W (Z * bdaddr_t) :=
  call (HciDevba dev_id) (host_hci_devba host dev_id).
Definition hci_open_dev (dev_id : Z) : M W Z :=
  call (HciOpenDev dev_id) (host_hci_open_dev host dev_id).
Definition ioctl_HCIGETCONNLIST (sock dev_id conn_num : Z) : M W (Z * list hci_conn_info) :=
  call (HciGetConnList sock dev_id conn_num) (host_conn_list host sock dev_id conn_num).
Definition hci_read_rssi (sock hnd timeout : Z) : M W (Z * Z) :=
  call (HciReadRssi sock hnd timeout) (host_hci_read_rssi host sock hnd timeout).
Definition hci_send_req (sock ogf ocf hnd timeout : Z) : M W (Z * read_rssi_rp) :=
  call (HciSendReq sock ogf ocf hnd timeout) (host_hci_send_req host sock hnd timeout).
Definition hci_read_remote_name_with_clock_offset
    (sock : Z) (addr : bdaddr_t) (timeout : Z) : M W Z :=
  call (HciReadRemoteName sock addr timeout) (host_hci_read_remote_name host sock addr timeout).

(** [parse_next_kv] as the callers see it: the result, the updated
    locals, and its message (if any) in the log. *)
Definition parse_next_kv_m (fbuffer : list ascii) (read_res : Z) (c : cursor)
    : M W (Z * cursor) :=
  let '(r, c', msgs) := parse_next_kv fbuffer read_res c in
  let* _ := emit msgs in
  ret (r, c').

(* ------------------------------------------------------------------- *)
(** *** [read_config] (lines 132-217) *)

(** The locals the loop of [read_config] updates. *)
Record load_state := LoadState {
  ls_config : bt_config_t;
  ls_found_device : Z;
  ls_found_strength : Z
}.

(** The body of the [while] loop for one record (lines 174-201). *)
Definition config_record (c : cursor) (st : load_state) : M W load_state :=
  let cfg := ls_config st in
  if Libc.strncmp (key c) (lit "device") 6 =? 0 then
    let device_str := Libc.strncpy (value c) 17 ++ [NUL] in
    let (rc, ba) := str2ba (cstr device_str) in
    let cfg' := Config ba (request_update cfg) (check_trusted cfg) (min_strength cfg) in
    if negb (rc =? 0) then
      let* _ := pam_syslog LOG_ERR "Invalid MAC address line %zu: %s"
                  [ArgInt (line c); ArgStr (cstr (value c))] in
      ret (LoadState cfg' (ls_found_device st) (ls_found_strength st))
    else ret (LoadState cfg' 1 (ls_found_strength st))
  else if Libc.strncmp (key c) (lit "request_update") 14 =? 0 then
    ret (LoadState (Config (device_addr cfg) (Libc.abs (Libc.atoi (value c)))
                           (check_trusted cfg) (min_strength cfg))
                   (ls_found_device st) (ls_found_strength st))
  else if Libc.strncmp (key c) (lit "check_trusted") 13 =? 0 then
    ret (LoadState (Config (device_addr cfg) (request_update cfg)
                           (Libc.abs (Libc.atoi (value c))) (min_strength cfg))
                   (ls_found_device st) (ls_found_strength st))
  else if Libc.strncmp (key c) (lit "min_strength") 12 =? 0 then
    let strength := to_int8 (to_int32 (- Libc.abs (Libc.atoi (value c)))) in
    if strength =? 0 then
      let* _ := pam_syslog LOG_ERR "Signal strength must be negative, on line %zu: %s"
                  [ArgInt (line c); ArgStr (cstr (key c))] in
      ret st
    else
      ret (LoadState (Config (device_addr cfg) (request_update cfg)
                             (check_trusted cfg) strength)
                     (ls_found_device st) 1)
  else
    let* _ := pam_syslog LOG_WARNING "Unknown config key on line %zu: %s"
                [ArgInt (line c); ArgStr (cstr (key c))] in
    ret st.

(** [while ((parse_result = parse_next_kv (...)) > 0) { ... }] *)
Fixpoint config_loop_from (fuel : nat) (fbuffer : list ascii) (read_res : Z)
    (c : cursor) (st : load_state) : M W load_state :=
  match fuel with
  | O => ret st
  | S fuel' =>
      let* (parse_result, c') := parse_next_kv_m fbuffer read_res c in
      if 0 <? parse_result then
        let* st' := config_record c' st in
        config_loop_from fuel' fbuffer read_res c' st'
      else ret st
  end.

(** One more iteration than bytes left: the last call is the one that
    returns 0 or -1. *)
Definition config_loop (fbuffer : list ascii) (read_res : Z)
    (c : cursor) (st : load_state) : M W load_state :=
  config_loop_from (S (remaining read_res c)) fbuffer read_res c st.

Definition read_config (config : bt_config_t) : M W (Z * bt_config_t) :=
  let* file := sys_open (lit CONFIG_FILE) in
  if file =? -1 then
    let* _ := pam_syslog LOG_ERR "Cannot open config file: %s" [ArgStr (lit CONFIG_FILE)] in
    ret (-1, config)
  else
  let* fbuffer_ok := malloc SYSCALL_MAX_BYTES_READ in
  if negb fbuffer_ok then
    let* _ := pam_syslog LOG_ERR "Memory allocation failed" [] in
    ret (-1, config)
  else
  let* (read_res, fbuffer) := sys_read file SYSCALL_MAX_BYTES_READ in
  if read_res =? -1 then
    let* _ := pam_syslog LOG_ERR "Could not read config file: %s" [ArgStr (lit CONFIG_FILE)] in
    ret (-1, config)
  else if read_res =? 0 then
    let* _ := pam_syslog LOG_ERR "Config file empty, required `device` field: %s"
                [ArgStr (lit CONFIG_FILE)] in
    ret (-1, config)
  else
  let config := Config (device_addr config) 0 0 (min_strength config) in
  let* st := config_loop fbuffer read_res (fresh_cursor 0) (LoadState config 0 0) in
  if ls_found_device st =? 0 then
    let* _ := pam_syslog LOG_ERR "No valid device MAC address found in config" [] in
    ret (-1, ls_config st)
  else if ls_found_strength st =? 0 then
    let* _ := pam_syslog LOG_ERR "No valid strength level found in config" [] in
    ret (-1, ls_config st)
  else
    let* _ := pam_syslog LOG_DEBUG "Config loaded successfully!" [] in
    ret (0, ls_config st).

(* ------------------------------------------------------------------- *)
(** *** [is_device_trusted] (lines 219-277) *)

(** The loop of lines 259-269 followed by lines 271-276.  Returns 1 if
    the device is trusted, 0 if not, -1 on error. *)
Fixpoint trust_loop_from (fuel : nat) (fbuffer : list ascii) (read_res : Z)
    (infof_path : list ascii) (c : cursor) : M W Z :=
  match fuel with
  | O => ret 0
  | S fuel' =>
      let* (parse_result, c') := parse_next_kv_m fbuffer read_res c in
      if 0 <? parse_result then
        if Libc.strncmp (key c') (lit "Trusted") 7 =? 0 then
          if Libc.strncmp (value c') (lit "true") 4 =? 0 then ret 1 else ret 0
        else trust_loop_from fuel' fbuffer read_res infof_path c'
      else if parse_result <? 0 then
        let* _ := pam_syslog LOG_ERR "Parse error in bluetooth info file: %s"
                    [ArgStr infof_path] in
        ret (-1)
      else ret 0
  end.

Definition trust_loop (fbuffer : list ascii) (read_res : Z)
    (infof_path : list ascii) (c : cursor) : M W Z :=
  trust_loop_from (S (remaining read_res c)) fbuffer read_res infof_path c.

Definition is_device_trusted (device_mac gadget_mac : list ascii) : M W Z :=
  let* uid := getuid in
  if negb (uid =? 1) then
    let* _ := pam_syslog LOG_WARNING
                "Cannot open Bluetooth info file without root, assuming untrusted" [] in
    ret 0
  else
  let infof_path := z3_pushl [] (lit "/var/lib/bluetooth/") 19 in
  let infof_path := z3_pushl infof_path device_mac 17 in
  let infof_path := z3_pushc infof_path "/" in
  let infof_path := z3_pushl infof_path gadget_mac 17 in
  let infof_path := z3_pushl infof_path (lit "/info") 5 in
  let* file := sys_open infof_path in
  if file =? -1 then
    let* _ := pam_syslog LOG_ERR "Cannot open bluetooth info file: %s" [ArgStr infof_path] in
    ret 0
  else
  let* fbuffer_ok := malloc SYSCALL_MAX_BYTES_READ in
  if negb fbuffer_ok then
    let* _ := pam_syslog LOG_ERR "Memory allocation failed" [] in
    ret (-1)
  else
  let* (read_res, fbuffer) := sys_read file SYSCALL_MAX_BYTES_READ in
  if read_res <=? 0 then
    let* _ := pam_syslog LOG_DEBUG "Could not read bluetooth info file: %s"
                [ArgStr infof_path] in
    ret 0
  else trust_loop fbuffer read_res infof_path (fresh_cursor 0).

(* ------------------------------------------------------------------- *)
(** *** Signal acquisition (lines 279-347) *)

(** [int8_t dev_get_rssi (pamh, dev_id, handle)] *)
Definition dev_get_rssi (dev_id hnd : Z) : M W Z :=
  let* sock := hci_open_dev dev_id in
  if sock <? 0 then
    let* _ := pam_syslog LOG_ERR "Device (handle: %d) hci_open_dev failed" [ArgInt hnd] in
    ret (to_int8 (-1))
  else
  let* (err, rssi) := hci_read_rssi sock hnd 1000 in
  if err <? 0 then
    let* _ := pam_syslog LOG_ERR "Device (handle: %d) hci_read_rssi failed" [ArgInt hnd] in
    ret (to_int8 (-1))
  else ret (to_int8 rssi).

(** [int8_t get_fresh_rssi (pamh, hci_sock, handle)] *)
Definition get_fresh_rssi (hci_sock hnd : Z) : M W Z :=
  let* (res, rp) := hci_send_req hci_sock OGF_STATUS_PARAM OCF_READ_RSSI hnd 1000 in
  if res <? 0 then
    let* _ := pam_syslog LOG_ERR "Device (handle: %d) hci_send_req failed" [ArgInt hnd] in
    ret 0
  else if negb (status rp =? 0) then
    let* _ := pam_syslog LOG_ERR "Device (handle: %d) hci_send_req status failure"
                [ArgInt hnd] in
    ret 0
  else ret (to_int8 (rssi rp)).

(** [check_paired_device_proximity (pamh, hci_sock, target_addr, min_strength)];
    the threshold is passed as [int8_t]. *)
Definition check_paired_device_proximity
    (hci_sock : Z) (target_addr : bdaddr_t) (min_strength : Z) : M W bool :=
  let* res := hci_read_remote_name_with_clock_offset hci_sock target_addr 500 in
  if res <? 0 then
    let* _ := pam_syslog LOG_DEBUG "Device not reachable or powered off" [] in
    ret false
  else
  let* (err, rssi) := hci_read_rssi hci_sock 0 100 in
  if err =? 0 then
    let* _ := pam_syslog LOG_DEBUG "Paired device %s nearby with RSSI: %d dBm"
                [ArgStr (ba2str target_addr); ArgInt (to_int8 rssi)] in
    ret (min_strength <=? to_int8 rssi)
  else
    let* _ := pam_syslog LOG_DEBUG "Paired device nearby (no RSSI available)" [] in
    ret true.

(* ------------------------------------------------------------------- *)
(** *** Proximity decision engine (lines 349-493) *)

Definition check_paired_device
    (config : bt_config_t) (hci_sock : Z) (bt_adapter_addrs : list ascii) : M W bool :=
  let* _ := pam_syslog LOG_DEBUG "Checking for nearby paired Bluetooth device..." [] in
  let probe :=
    check_paired_device_proximity hci_sock (device_addr config)
      (to_int8 (min_strength config)) in
  if negb (check_trusted config =? 0) then
    let addr_str := ba2str (device_addr config) in
    let* trust_result := is_device_trusted bt_adapter_addrs addr_str in
    if trust_result <? 0 then
      let* _ := pam_syslog LOG_ERR "Error checking trust status" [] in
      ret false
    else if trust_result =? 0 then
      let* _ := pam_syslog LOG_WARNING "Device not trusted" [] in
      ret false
    else
      let* _ := pam_syslog LOG_DEBUG "Device is trusted, checking proximity..." [] in
      probe
  else probe.

(** Lines 419-424: the signal of the connection [hnd]. *)
Definition acquire_rssi (config : bt_config_t) (dev_id hci_sock hnd : Z) : M W Z :=
  let* rssi :=
    (if negb (request_update config =? 0)
     then get_fresh_rssi hci_sock hnd
     else dev_get_rssi dev_id hnd) in
  if negb (rssi =? 0) then ret rssi else dev_get_rssi dev_id hnd.

(** Lines 426-440: the outcome for the signal [rssi]. *)
Definition judge_rssi (config : bt_config_t) (addr_str : list ascii) (rssi : Z) : M W Z :=
  let* _ := pam_syslog LOG_DEBUG "Device %s found with RSSI: %d dBm (need: %d dBm)"
              [ArgStr addr_str; ArgInt rssi; ArgInt (min_strength config)] in
  if rssi =? 0 then
    let* _ := pam_syslog LOG_WARNING "Device signal strength is not valid, ignored" [] in
    ret 0
  else if min_strength config <=? rssi then
    let* _ := pam_syslog LOG_INFO "Device signal strength sufficient for authentication" [] in
    ret 1
  else
    let* _ := pam_syslog LOG_WARNING "Device found but signal too weak" [] in
    ret (-1).

(** The [for] loop of lines 415-442 over the entries the ioctl filled in,
    and the [return 0] after it. *)
Fixpoint scan_connections (config : bt_config_t) (dev_id hci_sock : Z)
    (conn_info : list hci_conn_info) : M W Z :=
  match conn_info with
  | [] => ret 0
  | ci :: rest =>
      let addr_str := ba2str (bdaddr ci) in
      if bacmp (bdaddr ci) (device_addr config) =? 0 then
        let* rssi := acquire_rssi config dev_id hci_sock (handle ci) in
        judge_rssi config addr_str rssi
      else scan_connections config dev_id hci_sock rest
  end.

Definition check_connected_device (config : bt_config_t) (dev_id hci_sock : Z) : M W Z :=
  let* _ := pam_syslog LOG_DEBUG "Checking for connected Bluetooth devices..." [] in
  let* conn_list_ok := malloc (4 + MAX_DEVICES_LOOKDUP * 16) in
  if negb conn_list_ok then
    let* _ := pam_syslog LOG_ERR "Memory allocation failed" [] in
    ret (-1)
  else
  let* (get_con_res, conn_info) :=
    ioctl_HCIGETCONNLIST hci_sock dev_id MAX_DEVICES_LOOKDUP in
  if get_con_res <? 0 then
    let* _ := pam_syslog LOG_ERR "Failed to get connection list" [] in
    ret 0
  else
  let conn_num := Z.of_nat (length conn_info) in
  let* _ := pam_syslog LOG_DEBUG "Found %d connected devices" [ArgInt conn_num] in
  if conn_num =? 0 then ret 0
  else scan_connections config dev_id hci_sock conn_info.

Definition check_bluetooth_device (config : bt_config_t) : M W bool :=
  let* dev_id := hci_get_route in
  if dev_id <? 0 then
    let* _ := pam_syslog LOG_ERR "No Bluetooth adapter found" [] in
    ret false
  else
  let* (res, local_addr) := hci_devba dev_id in
  if res <? 0 then
    let* _ := pam_syslog LOG_ERR "Could not get local adapter address" [] in
    ret false
  else
  let bt_adapter_addrs := ba2str local_addr in
  let did := Z.of_nat (length bt_adapter_addrs) in
  if did <? 0 then
    let* _ := pam_syslog LOG_ERR "Failed to get MAC string" [] in
    ret false
  else
  let* _ := pam_syslog LOG_DEBUG "Current listener device %s" [ArgStr bt_adapter_addrs] in
  let* hci_sock := hci_open_dev dev_id in
  if hci_sock <? 0 then
    let* _ := pam_syslog LOG_ERR "Cannot open HCI socket" [] in
    ret false
  else
  let* conn_is := check_connected_device config dev_id hci_sock in
  if conn_is =? 0 then check_paired_device config hci_sock bt_adapter_addrs
  else ret (conn_is =? 1).

(* ------------------------------------------------------------------- *)
(** *** Authentication verdict: [pam_sm_authenticate] (lines 495-535) *)

(** Lines 501-505. *)
Fixpoint scan_args (argv : list (list ascii)) (allow_with_password : Z) : Z :=
  match argv with
  | [] => allow_with_password
  | a :: rest =>
      scan_args rest
        (if Libc.strcmp a (lit "allow_with_password") =? 0 then 1 else allow_with_password)
  end.

(** [password && password[0] != '\0'] *)
Definition has_password (password : option (list ascii)) : bool :=
  match password with
  | None => false
  | Some p => negb (Ascii.eqb (hd NUL p) NUL)
  end.

(** [stack_config] is what the uninitialised local [config] holds. *)
Definition pam_sm_authenticate (stack_config : bt_config_t) (argv : list (list ascii))
    : M W Z :=
  let allow_with_password := scan_args argv 0 in
  let* (res, config) := read_config stack_config in
  if negb (res =? 0) then ret PAM_AUTH_ERR
  else
  let* (retval, password) := pam_get_authtok in
  if negb (retval =? PAM_SUCCESS) then
    let* _ := pam_syslog LOG_ERR "Failed to get password" [] in
    ret retval
  else
  if has_password password && (allow_with_password =? 0) then
    let* _ := pam_syslog LOG_DEBUG "Non-empty password provided, rejecting" [] in
    ret PAM_AUTH_ERR
  else
  let* _ := pam_syslog LOG_DEBUG "Initiating Bluetooth authentication" [] in
  let* ok := check_bluetooth_device config in
  if ok then
    let* _ := pam_syslog LOG_DEBUG "Bluetooth authentication successful" [] in
    ret PAM_SUCCESS
  else
    let* _ := pam_syslog LOG_DEBUG "Bluetooth authentication failed" [] in
    ret PAM_AUTH_ERR.

End Bluepam.

(* ===================================================================== *)
(** ** A scripted host, for running the module on concrete inputs *)
(* ===================================================================== *)

(** A world whose answers are fixed in advance and never change. *)
Record script := Script {
  sc_uid : Z;
  sc_files : list (list ascii * list ascii);
  sc_malloc : bool;
  sc_authtok : Z * option (list ascii);
  sc_route : Z;
  sc_local : Z * bdaddr_t;
  sc_sock : Z;
  sc_conns : Z * list hci_conn_info;
  sc_read_rssi : Z -> Z * Z;
  sc_send_req : Z -> Z * read_rssi_rp;
  sc_remote_name : Z
}.

Definition same_text (p q : list ascii) : bool :=
  String.eqb (string_of_list_ascii p) (string_of_list_ascii q).

(** Descriptor [3 + i] stands for the [i]-th file of the script. *)
Fixpoint script_open (files : list (list ascii * list ascii)) (path : list ascii) (fd : Z) : Z :=
  match files with
  | [] => -1
  | (p, _) :: rest => if same_text p path then fd else script_open rest path (fd + 1)
  end.

Definition script_read (files : list (list ascii * list ascii)) (fd count : Z)
    : Z * list ascii :=
  match files !! Z.to_nat (fd - 3) with
  | Some (_, contents) =>
      let got := firstn (Z.to_nat count) contents in
      (Z.of_nat (length got), got)
  | None => (-1, [])
  end.

Definition scripted : Host script := {|
  host_open := fun path w => (script_open (sc_files w) path 3, w);
  host_read := fun fd count w => (script_read (sc_files w) fd count, w);
  host_malloc := fun _ w => (sc_malloc w, w);
  host_getuid := fun w => (sc_uid w, w);
  host_pam_get_authtok := fun w => (sc_authtok w, w);
  host_hci_get_route := fun w => (sc_route w, w);
  host_hci_devba := fun _ w => (sc_local w, w);
  host_hci_open_dev := fun _ w => (sc_sock w, w);
  host_conn_list := fun _ _ _ w => (sc_conns w, w);
  host_hci_read_rssi := fun _ hnd _ w => (sc_read_rssi w hnd, w);
  host_hci_send_req := fun _ hnd _ w => (sc_send_req w hnd, w);
  host_hci_read_remote_name := fun _ _ _ w => (sc_remote_name w, w)
|}.

(** Run a computation: its result and the calls made. *)
Definition run {W A} (m : M W A) (w : W) : A * list event :=
  let '(a, _, t) := m w in (a, t).

(* ===================================================================== *)
(** ** Vocabulary of the statements *)
(* ===================================================================== *)

(** Projections of a run. *)
Definition result {W A} (m : M W A) (w : W) : A := fst (fst (m w)).
Definition world_after {W A} (m : M W A) (w : W) : W := snd (fst (m w)).
Definition calls {W A} (m : M W A) (w : W) : list event := snd (m w).

(** [m] never makes a call of the kind [P], whatever the world. *)
Definition silent {W A} (P : event -> bool) (m : M W A) : Prop :=
  forall w, Forall (fun e => P e = false) (calls m w).

(** The first thing [check_paired_device] does is to log this line; no
    other function logs it. *)
Definition enters_fallback (e : event) : bool :=
  match e with
  | Syslog (Log _ fmt _) => String.eqb fmt "Checking for nearby paired Bluetooth device..."
  | _ => false
  end.

(** A [pam_syslog] call with the given format is among the calls. *)
Definition logged (fmt : string) (t : list event) : bool :=
  existsb (fun e => match e with
                    | Syslog (Log _ f _) => String.eqb f fmt
                    | _ => false
                    end) t.

(** The entry of the connection list the loop of [check_connected_device]
    stops at: the first one with the configured address. *)
Definition first_conn (config : bt_config_t) (l : list hci_conn_info)
    : option hci_conn_info :=
  find (fun ci => bacmp (bdaddr ci) (device_addr config) =? 0) l.

(** An access inside the object it touches: [fbuffer[0 .. read_res-1]],
    [key[0 .. 255]], [value[0 .. 255]]. *)
Definition in_bounds (read_res : Z) (a : access) : bool :=
  match a with
  | RdBuf off => (0 <=? off) && (off <? read_res)
  | WrKey i | RdValue i | WrValue i => (0 <=? i) && (i <? MAX_ITEM_LEN)
  end.

(** The records a caller obtains by calling the parser until it stops
    returning 1: the locals after each successful call. *)
Fixpoint records_from (fuel : nat) (fbuffer : list ascii) (read_res : Z) (c : cursor)
    : list cursor :=
  match fuel with
  | O => []
  | S fuel' =>
      let '(r, c', _) := parse_next_kv fbuffer read_res c in
      if 0 <? r then c' :: records_from fuel' fbuffer read_res c' else []
  end.

Definition records (fbuffer : list ascii) (read_res : Z) (c : cursor) : list cursor :=
  records_from (S (remaining read_res c)) fbuffer read_res c.

(** The tests of [is_device_trusted] on a record: [strncmp] over the
    length of the literal, that is, a prefix test. *)
Definition key_starts_Trusted (c : cursor) : bool :=
  Libc.strncmp (key c) (lit "Trusted") 7 =? 0.
Definition value_starts_true (c : cursor) : bool :=
  Libc.strncmp (value c) (lit "true") 4 =? 0.

(** The tests as the specification words them: the key is exactly
    [Trusted], the value is exactly [true]. *)
Definition key_is_Trusted (c : cursor) : bool := same_text (cstr (key c)) (lit "Trusted").
Definition value_is_true (c : cursor) : bool := same_text (cstr (value c)) (lit "true").

(** Trusted according to the specification's wording, for the contents of
    a pairing-status file. *)
Definition trusted_as_specified (fbuffer : list ascii) : bool :=
  match find key_is_Trusted (records fbuffer (Z.of_nat (length fbuffer)) (fresh_cursor 0)) with
  | Some rec => value_is_true rec
  | None => false
  end.

(** The path [is_device_trusted] builds. *)
Definition info_path (device_mac gadget_mac : list ascii) : list ascii :=
  lit "/var/lib/bluetooth/" ++ firstn 17 device_mac ++ "/"%char :: firstn 17 gadget_mac
  ++ lit "/info".

(** Text lines, each ended by a line feed. *)
Definition lines (l : list string) : list ascii :=
  concat (map (fun s => lit s ++ [LF]) l).

(** Parse the first record of a buffer, with the line counter at [line0]. *)
Definition first_record (fbuffer : list ascii) (line0 : Z) : Z * cursor :=
  let '(r, c, _) := parse_next_kv fbuffer (Z.of_nat (length fbuffer)) (fresh_cursor line0) in
  (r, c).

(** The line numbers attached to the records of a buffer. *)
Definition record_lines (fbuffer : list ascii) (line0 : Z) : list Z :=
  map line (records fbuffer (Z.of_nat (length fbuffer)) (fresh_cursor line0)).

(** *** Concrete worlds *)

Definition target : bdaddr_t := [255; 238; 221; 204; 187; 170].
Definition adapter : bdaddr_t := [1; 2; 3; 4; 5; 6].
Definition zero_config : bt_config_t := Config BDADDR_ANY 0 0 0.

(** A host with the given user id, configuration file, pairing-status
    file, answer of the cached RSSI read and password; the target device
    is the second of two connections. *)
Definition world_of (uid : Z) (conf info : list ascii) (read_rssi : Z * Z)
    (password : list ascii) : script := {|
  sc_uid := uid;
  sc_files := [(lit CONFIG_FILE, conf); (info_path (ba2str adapter) (ba2str target), info)];
  sc_malloc := true;
  sc_authtok := (PAM_SUCCESS, Some password);
  sc_route := 0;
  sc_local := (0, adapter);
  sc_sock := 5;
  sc_conns := (0, [ConnInfo 11 [9; 9; 9; 9; 9; 9]; ConnInfo 12 target]);
  sc_read_rssi := fun _ => read_rssi;
  sc_send_req := fun _ => (0, RssiReply 0 (snd read_rssi));
  sc_remote_name := 0
|}.

Definition good_conf : list ascii :=
  lines ["device = AA:BB:CC:DD:EE:FF"%string; "min_strength = -70"%string].

Definition good_config : bt_config_t := Config target 0 0 (-70).

(** The target is connected and its cached RSSI reads -80. *)
Definition weak_world : script := world_of 0 good_conf [] (0, -80) [].

(** The target is connected and the cached RSSI read fails. *)
Definition rssi_fails : script := world_of 0 good_conf [] (-1, 0) [].

(** Configurations: a threshold of 200; a third line without [=]. *)
Definition conf_200 : list ascii :=
  lines ["device = AA:BB:CC:DD:EE:FF"%string; "min_strength = 200"%string].
Definition conf_broken : list ascii :=
  lines ["device = AA:BB:CC:DD:EE:FF"%string; "min_strength = -70"%string;
         "broken line"%string].

(** The value 5 written plainly, negated, and in double quotes. *)
Definition conf_strength (v : list ascii) : list ascii :=
  lines ["device = AA:BB:CC:DD:EE:FF"%string] ++ lit "min_strength = " ++ v ++ [LF].
Definition quoted_5 : list ascii := [DQUOTE; "5"%char; DQUOTE].

(** A buffer that ends inside a key; a key of exactly 256 bytes; a value
    of exactly 256 bytes. *)
Definition bare_key : list ascii := lit "abc".
Definition key_256 : list ascii := repeat "k"%char 256 ++ lit "=v" ++ [LF].
Definition value_256 : list ascii := lit "k=" ++ repeat "v"%char 256 ++ [LF].

(** The accesses of the first call of the parser on a buffer. *)
Definition first_accesses (fbuffer : list ascii) : list access :=
  accesses (snd (first_record fbuffer 0)).

(** Same kind of access at the same index. *)
Definition access_eqb (a b : access) : bool :=
  match a, b with
  | RdBuf i, RdBuf j | WrKey i, WrKey j | RdValue i, RdValue j | WrValue i, WrValue j =>
      i =? j
  | _, _ => false
  end.

(** The access [a] is among [l]. *)
Definition touches (a : access) (l : list access) : bool := existsb (access_eqb a) l.

(** Three records on lines 1, 2, 3; one record on line 4 after three
    empty lines. *)
Definition three_lines : list ascii := lines ["a=1"%string; "b=2"%string; "c=3"%string].
Definition after_blank_lines : list ascii := [LF; LF; LF] ++ lit "k=v".

(** A pairing-status file that marks the device as trusted. *)
Definition info_true : list ascii := lines ["Trusted=true"%string].

(** Pairing-status files whose [Trusted] line is not exactly [Trusted=true]. *)
Definition info_trueish : list ascii := lines ["Trusted=trueish"%string].
Definition info_other_key : list ascii := lines ["TrustedDevices=true"%string].

(** A byte the key loop copies: anything but [=], a line feed or a space. *)
Definition key_byte (ch : ascii) : bool :=
  negb (Ascii.eqb ch EQUALS) && negb (Ascii.eqb ch LF) && negb (Ascii.eqb ch SP).

(** The 257 bytes from offset [p] on are key bytes: a key longer than
    [MAX_ITEM_LEN] starts at [p]. *)
Definition long_key_at (fbuffer : list ascii) (p : Z) : bool :=
  forallb (fun i => key_byte (byte_at fbuffer (p + i))) (seqZ 0 257).

(** A buffer whose first line has a 257-byte key, then [=v]. *)
Definition long_key_line : list ascii := repeat "k"%char 257 ++ lit "=v" ++ [LF].

(** *** Vocabulary of the further properties *)

(** The one message [parse_next_kv] logs; it names [CONFIG_FILE] whichever
    file is being parsed. *)
Definition expected_equals (line : Z) : log_entry :=
  Log LOG_ERR "Expected '=' after key: %s:%zu" [ArgStr (lit CONFIG_FILE); ArgInt line].

(** An access at most one element past its object: [fbuffer[lo .. read_res]],
    [key[0 .. 256]], [value[0 .. 256]]. *)
Definition near_bounds (lo read_res : Z) (a : access) : bool :=
  match a with
  | RdBuf off => (lo <=? off) && (off <=? read_res)
  | WrKey i | RdValue i | WrValue i => (0 <=? i) && (i <=? MAX_ITEM_LEN)
  end.

(** [c'] has the accesses of [c] and, before them, new ones that all
    satisfy [P]. *)
Definition extends (P : access -> bool) (c c' : cursor) : Prop :=
  exists new, accesses c' = new ++ accesses c /\ Forall (fun a => P a = true) new.

(** What a cursor [c'] shares with [c]: the outputs a step does not write. *)
Definition same_key (c c' : cursor) : Prop := key c' = key c /\ key_len c' = key_len c.
Definition same_value (c c' : cursor) : Prop :=
  value c' = value c /\ value_len c' = value_len c.

(** A record as it is written in a file: the key, spaces, [=], spaces,
    the value, spaces, a line feed. *)
Definition record_line (k : list ascii) (a1 a2 : nat) (v : list ascii) (a3 : nat)
    : list ascii :=
  k ++ repeat SP a1 ++ [EQUALS] ++ repeat SP a2 ++ v ++ repeat SP a3 ++ [LF].

(** The bytes of [fbuffer] from offset [p] on spell [l]. *)
Definition spelled_at (fbuffer : list ascii) (p : Z) (l : list ascii) : Prop :=
  0 <= p /\ firstn (length l) (skipn (Z.to_nat p) fbuffer) = l.

(** A key the parser takes whole: not empty, at most 255 bytes, no [=],
    line feed or space, and no [#] in front. *)
Definition plain_key (k : list ascii) : bool :=
  negb (Nat.eqb (length k) 0) && (length k <=? 255)%nat && forallb key_byte k &&
  negb (Ascii.eqb (hd NUL k) HASH).

(** A value the parser copies whole: at most 255 bytes with the [a3]
    spaces after it (none after an empty value), no line feed, no space in
    front or at the end. *)
Definition raw_value (v : list ascii) (a3 : nat) : bool :=
  (length v + a3 <=? 255)%nat && (negb (Nat.eqb (length v) 0) || Nat.eqb a3 0) &&
  forallb (fun ch => negb (Ascii.eqb ch LF)) v &&
  negb (Ascii.eqb (hd NUL v) SP) && negb (Ascii.eqb (List.last v NUL) SP).

(** A value the parser returns as written: one it copies whole and that is
    not enclosed in double quotes. *)
Definition plain_value (v : list ascii) (a3 : nat) : bool :=
  raw_value v a3 &&
  negb ((2 <=? length v)%nat && Ascii.eqb (hd NUL v) DQUOTE &&
        Ascii.eqb (List.last v NUL) DQUOTE).

(** [m] between double quotes. *)
Definition quoted (m : list ascii) : list ascii := DQUOTE :: m ++ [DQUOTE].

(** A buffer with a comment, then the records [device = AA:BB:CC:DD:EE:FF]
    (two spaces after it) and [name="my  phone "]; the cursors after the
    comment and after the first record. *)
Definition sample_buffer : list ascii :=
  lit "# c" ++ [LF] ++ record_line (lit "device") 1 1 (lit "AA:BB:CC:DD:EE:FF") 2
  ++ record_line (lit "name") 0 0 (quoted (lit "my  phone ")) 1.

Definition cursor_at (p l : Z) : cursor := Cursor p l (repeat NUL 256) 0 (repeat NUL 256) 0 [].

(** The calls [read_config] may make: open [CONFIG_FILE], allocate and read
    [SYSCALL_MAX_BYTES_READ] bytes, log. *)
Definition config_call (e : event) : bool :=
  match e with
  | SysOpen p => same_text p (lit CONFIG_FILE)
  | SysMalloc n => n =? SYSCALL_MAX_BYTES_READ
  | SysRead _ n => n =? SYSCALL_MAX_BYTES_READ
  | Syslog _ => true
  | _ => false
  end.

(** The calls [is_device_trusted] may make for the pairing file [path]. *)
Definition trust_call (path : list ascii) (e : event) : bool :=
  match e with
  | SysGetuid => true
  | SysOpen p => same_text p path
  | SysMalloc n => n =? SYSCALL_MAX_BYTES_READ
  | SysRead _ n => n =? SYSCALL_MAX_BYTES_READ
  | Syslog _ => true
  | _ => false
  end.

(** Calls that only trust resolution makes: the user id and file access. *)
Definition is_trust_access (e : event) : bool :=
  match e with
  | SysGetuid | SysOpen _ | SysRead _ _ => true
  | _ => false
  end.

(** A record that sets the device address: its key starts with [device]
    and [str2ba] accepts the first 17 bytes of its value. *)
Definition sets_device (c : cursor) : bool :=
  (Libc.strncmp (key c) (lit "device") 6 =? 0) &&
  (fst (str2ba (cstr (Libc.strncpy (value c) 17 ++ [NUL]))) =? 0).

(** The threshold [read_config] computes from a value (line 187). *)
Definition strength_of (v : list ascii) : Z :=
  to_int8 (to_int32 (- Libc.abs (Libc.atoi v))).

(** A record that sets the threshold: it reaches the [min_strength] branch
    of the dispatch and its threshold is not 0. *)
Definition sets_strength (c : cursor) : bool :=
  negb (Libc.strncmp (key c) (lit "device") 6 =? 0) &&
  negb (Libc.strncmp (key c) (lit "request_update") 14 =? 0) &&
  negb (Libc.strncmp (key c) (lit "check_trusted") 13 =? 0) &&
  (Libc.strncmp (key c) (lit "min_strength") 12 =? 0) &&
  negb (strength_of (value c) =? 0).

(** A record that reaches the [request_update] branch, and one that reaches
    the [check_trusted] branch. *)
Definition sets_request_update (c : cursor) : bool :=
  negb (Libc.strncmp (key c) (lit "device") 6 =? 0) &&
  (Libc.strncmp (key c) (lit "request_update") 14 =? 0).
Definition sets_check_trusted (c : cursor) : bool :=
  negb (Libc.strncmp (key c) (lit "device") 6 =? 0) &&
  negb (Libc.strncmp (key c) (lit "request_update") 14 =? 0) &&
  (Libc.strncmp (key c) (lit "check_trusted") 13 =? 0).

(** The state of the loop of [read_config] after one record; the log
    aside, the body of the loop does not depend on the world. *)
Definition config_step (c : cursor) (st : load_state) : load_state :=
  result (config_record (W := unit) c st) tt.

(** The records of a configuration buffer, as [read_config] drains them. *)
Definition config_records (fbuffer : list ascii) (read_res : Z) : list cursor :=
  records fbuffer read_res (fresh_cursor 0).

(** A record whose key starts with [device], valid address or not. *)
Definition names_device (c : cursor) : bool :=
  Libc.strncmp (key c) (lit "device") 6 =? 0.

(** What [str2ba] leaves in [config->device_addr] for a value (lines
    175-177), and what lines 183 and 185 store for a flag. *)
Definition address_of (v : list ascii) : bdaddr_t :=
  snd (str2ba (cstr (Libc.strncpy v 17 ++ [NUL]))).
Definition flag_of (v : list ascii) : Z := Libc.abs (Libc.atoi v).

(** The configuration a list of records describes when, field by field,
    the last record that sets the field wins; [initial] is what the
    caller's structure held before. *)
Definition loaded_config (initial : bt_config_t) (recs : list cursor) : bt_config_t :=
  Config
    (match find names_device (rev recs) with
     | Some r => address_of (value r)
     | None => device_addr initial
     end)
    (match find sets_request_update (rev recs) with
     | Some r => flag_of (value r)
     | None => 0
     end)
    (match find sets_check_trusted (rev recs) with
     | Some r => flag_of (value r)
     | None => 0
     end)
    (match find sets_strength (rev recs) with
     | Some r => strength_of (value r)
     | None => min_strength initial
     end).

(** The configuration file is there: [open], [malloc] and [read] succeed
    in the world [w] and [read] hands over [read_res] bytes, not zero. *)
Definition config_read {W} (host : Host W) (w : W) (fbuffer : list ascii) (read_res : Z)
    : Prop :=
  exists fd w1 w2 w3,
    host_open host (lit CONFIG_FILE) w = (fd, w1) /\ fd <> -1 /\
    host_malloc host SYSCALL_MAX_BYTES_READ w1 = (true, w2) /\
    host_read host fd SYSCALL_MAX_BYTES_READ w2 = (read_res, fbuffer, w3) /\
    read_res <> -1 /\ read_res <> 0.

(** The calls the connected-device check may make. *)
Definition connected_call (e : event) : bool :=
  match e with
  | Syslog _ | SysMalloc _ | HciGetConnList _ _ _ | HciOpenDev _
  | HciReadRssi _ _ _ | HciSendReq _ _ _ _ _ => true
  | _ => false
  end.

(** A request for a fresh RSSI measurement. *)
Definition is_send_req (e : event) : bool :=
  match e with
  | HciSendReq _ _ _ _ _ => true
  | _ => false
  end.

(** The option [allow_with_password] is among the module arguments. *)
Definition allows_password (argv : list (list ascii)) : bool :=
  existsb (fun a => Libc.strcmp a (lit "allow_with_password") =? 0) argv.

(** The good configuration with [check_trusted] set, and a world in which
    the target is connected with a cached RSSI of -60. *)
Definition trusting_config : bt_config_t := Config target 0 1 (-70).
Definition strong_world : script := world_of 0 good_conf [] (0, -60) [].

(** As [strong_world], but [pam_get_authtok] fails with [PAM_AUTHTOK_ERR]. *)
Definition no_token_world : script := {|
  sc_uid := sc_uid strong_world;
  sc_files := sc_files strong_world;
  sc_malloc := sc_malloc strong_world;
  sc_authtok := (20, None);
  sc_route := sc_route strong_world;
  sc_local := sc_local strong_world;
  sc_sock := sc_sock strong_world;
  sc_conns := sc_conns strong_world;
  sc_read_rssi := sc_read_rssi strong_world;
  sc_send_req := sc_send_req strong_world;
  sc_remote_name := sc_remote_name strong_world
|}.

(** The connection handle an RSSI measurement is made on. *)
Definition measures (e : event) : option Z :=
  match e with
  | HciReadRssi _ hnd _ => Some hnd
  | HciSendReq _ _ _ hnd _ => Some hnd
  | _ => None
  end.

(** A measurement on a connection other than [hnd]. *)
Definition measures_other (hnd : Z) (e : event) : bool :=
  match measures e with
  | Some h => negb (h =? hnd)
  | None => false
  end.

(** As [strong_world], but [malloc] fails; and a world in which the
    cached RSSI of the target reads 0. *)
Definition no_memory_world : script := {|
  sc_uid := sc_uid strong_world;
  sc_files := sc_files strong_world;
  sc_malloc := false;
  sc_authtok := sc_authtok strong_world;
  sc_route := sc_route strong_world;
  sc_local := sc_local strong_world;
  sc_sock := sc_sock strong_world;
  sc_conns := sc_conns strong_world;
  sc_read_rssi := sc_read_rssi strong_world;
  sc_send_req := sc_send_req strong_world;
  sc_remote_name := sc_remote_name strong_world
|}.
Definition zero_signal_world : script := world_of 0 good_conf [] (0, 0) [].

(** Text that holds no record: spaces, line feeds and comments ([#] up
    to the next line feed, or to the end).  [in_comment] tells whether the
    text starts inside a comment. *)
Fixpoint is_noise (in_comment : bool) (l : list ascii) : bool :=
  match l with
  | [] => true
  | ch :: t =>
      if in_comment then is_noise (negb (Ascii.eqb ch LF)) t
      else if Ascii.eqb ch SP || Ascii.eqb ch LF then is_noise false t
      else if Ascii.eqb ch HASH then is_noise true t
      else false
  end.

(** The bytes of the buffer from offset [p] to [read_res]. *)
Definition unread (fbuffer : list ascii) (read_res p : Z) : list ascii :=
  skipn (Z.to_nat p) (firstn (Z.to_nat read_res) fbuffer).

Definition noise_sample : list ascii :=
  lines ["# bluepam configuration"; ""; "   "; "  # device = AA:BB:CC:DD:EE:FF"]%string.

(** Every access recorded in the cursor is inside the object it touches:
    no read of [fbuffer[read_res]] (line 96), no [key[256] = 0] (line 90),
    no [value[256] = 0] (line 110). *)
Definition stays_in_bounds (read_res : Z) (c : cursor) : bool :=
  forallb (in_bounds read_res) (accesses c).

(** The caller's locals when its loop over [parse_next_kv] ends: after
    the call that returns 0 or -1, or after the first record at which the
    caller stops. *)
Fixpoint loop_end_from (stop : cursor -> bool) (fuel : nat) (fbuffer : list ascii)
    (read_res : Z) (c : cursor) : cursor :=
  match fuel with
  | O => c
  | S fuel' =>
      let '(r, c', _) := parse_next_kv fbuffer read_res c in
      if 0 <? r then
        if stop c' then c' else loop_end_from stop fuel' fbuffer read_res c'
      else c'
  end.

(** The loop of [read_config] runs to the end of the records; the loop of
    [is_device_trusted] stops at the first key that starts with
    [Trusted]. *)
Definition config_loop_end (fbuffer : list ascii) (read_res : Z) : cursor :=
  loop_end_from (fun _ => false) (S (remaining read_res (fresh_cursor 0)))
    fbuffer read_res (fresh_cursor 0).
Definition trust_loop_end (fbuffer : list ascii) (read_res : Z) : cursor :=
  loop_end_from key_starts_Trusted (S (remaining read_res (fresh_cursor 0)))
    fbuffer read_res (fresh_cursor 0).

(** The pairing-status file is there: the caller passes the user-id gate,
    [open], [malloc] and [read] succeed in the world [w], and [read] hands
    over [read_res > 0] bytes. *)
Definition info_read {W} (host : Host W) (w : W) (path : list ascii)
    (fbuffer : list ascii) (read_res : Z) : Prop :=
  exists w1 fd w2 w3 w4,
    host_getuid host w = (1, w1) /\
    host_open host path w1 = (fd, w2) /\ fd <> -1 /\
    host_malloc host SYSCALL_MAX_BYTES_READ w2 = (true, w3) /\
    host_read host fd SYSCALL_MAX_BYTES_READ w3 = (read_res, fbuffer, w4) /\
    0 < read_res.



(** Files in which a value, with its trailing spaces, fills the 256-byte
    array: [Trusted=true] and 252 spaces; [min_strength = -70] and 253
    spaces after a [device] line. *)
Definition info_full_value : list ascii :=
  lit "Trusted=true" ++ repeat SP 252 ++ [LF].
Definition conf_full_value : list ascii :=
  lines ["device = AA:BB:CC:DD:EE:FF"%string] ++
  lit "min_strength = -70" ++ repeat SP 253 ++ [LF].

(* ===================================================================== *)
(** * Facts about the parser *)
(* ===================================================================== *)

Lemma byte_at_store_same (a : list ascii) (i : Z) (ch : ascii) :
  0 <= i < Z.of_nat (length a) -> byte_at (store_at a i ch) i = ch.
Proof.
  intros Hi. unfold byte_at, store_at.
  destruct (i <? 0) eqn:E; [lia|].
  rewrite list_lookup_insert_eq by lia. reflexivity.
Qed.

Lemma byte_at_store_other (a : list ascii) (i j : Z) (ch : ascii) :
  0 <= i -> 0 <= j -> i <> j -> byte_at (store_at a i ch) j = byte_at a j.
Proof.
  intros Hi Hj Hne. unfold byte_at, store_at.
  destruct (i <? 0) eqn:E; [lia|]. destruct (j <? 0) eqn:E'; [lia|].
  rewrite list_lookup_insert_ne by lia. reflexivity.
Qed.

Lemma store_at_length (a : list ascii) (i : Z) (ch : ascii) :
  length (store_at a i ch) = length a.
Proof. unfold store_at. destruct (i <? 0); [reflexivity | apply length_insert]. Qed.

Lemma store_at_outside (a : list ascii) (i : Z) (ch : ascii) :
  Z.of_nat (length a) <= i -> store_at a i ch = a.
Proof.
  intros Hi. unfold store_at. destruct (i <? 0); [reflexivity|].
  apply list_insert_ge. lia.
Qed.

Section ParserFacts.

Variable fbuffer : list ascii.
Variable read_res : Z.

Ltac step_cursor :=
  unfold remaining, peek, advance, next_line, touch, write_key, write_value,
    read_value, set_key_len, set_value_len in *; simpl in *.

(** The loops on [pos] never need more than [read_res - pos] iterations:
    the bound used in the definitions loses nothing. *)
Ltac enough_fuel IH :=
  repeat match goal with
  | |- context [if ?b then _ else _] => destruct b eqn:?
  | |- _ => reflexivity
  | |- _ => step_cursor; lia
  | |- _ => rewrite !IH by (step_cursor; lia)
  | |- _ => f_equal; step_cursor; lia
  end.

Lemma skip_spaces_from_enough f c :
  (remaining read_res c <= f)%nat ->
  skip_spaces_from fbuffer read_res f c = skip_spaces fbuffer read_res c.
Proof.
  unfold skip_spaces. revert c. induction f as [|f IH]; intros c Hf.
  - replace (remaining read_res c) with 0%nat by lia. reflexivity.
  - destruct (remaining read_res c) as [|k] eqn:Ek; simpl; enough_fuel IH.
Qed.

Lemma skip_newlines_from_enough f c :
  (remaining read_res c <= f)%nat ->
  skip_newlines_from fbuffer read_res f c = skip_newlines fbuffer read_res c.
Proof.
  unfold skip_newlines. revert c. induction f as [|f IH]; intros c Hf.
  - replace (remaining read_res c) with 0%nat by lia. reflexivity.
  - destruct (remaining read_res c) as [|k] eqn:Ek; simpl; enough_fuel IH.
Qed.

Lemma skip_comment_from_enough f c :
  (remaining read_res c <= f)%nat ->
  skip_comment_from fbuffer read_res f c = skip_comment fbuffer read_res c.
Proof.
  unfold skip_comment. revert c. induction f as [|f IH]; intros c Hf.
  - replace (remaining read_res c) with 0%nat by lia. reflexivity.
  - destruct (remaining read_res c) as [|k] eqn:Ek; simpl; enough_fuel IH.
Qed.

Lemma scan_key_from_enough f n c :
  (remaining read_res c <= f)%nat ->
  scan_key_from fbuffer read_res f n c = scan_key fbuffer read_res n c.
Proof.
  unfold scan_key. revert n c. induction f as [|f IH]; intros n c Hf.
  - replace (remaining read_res c) with 0%nat by lia. reflexivity.
  - destruct (remaining read_res c) as [|k] eqn:Ek; simpl; enough_fuel IH.
Qed.

Lemma scan_value_from_enough f n c :
  (remaining read_res c <= f)%nat ->
  scan_value_from fbuffer read_res f n c = scan_value fbuffer read_res n c.
Proof.
  unfold scan_value. revert n c. induction f as [|f IH]; intros n c Hf.
  - replace (remaining read_res c) with 0%nat by lia. reflexivity.
  - destruct (remaining read_res c) as [|k] eqn:Ek; simpl; enough_fuel IH.
Qed.

(** The [while] equations of the two loops the key scan goes through. *)
Lemma skip_spaces_eq c :
  skip_spaces fbuffer read_res c =
  if pos c <? read_res then
    let (ch, c1) := peek fbuffer c in
    if Ascii.eqb ch SP then skip_spaces fbuffer read_res (advance c1) else c1
  else c.
Proof.
  unfold skip_spaces at 1.
  destruct (remaining read_res c) as [|k] eqn:Ek; simpl.
  - destruct (pos c <? read_res) eqn:E; [step_cursor; lia | reflexivity].
  - destruct (pos c <? read_res); [|reflexivity].
    destruct (Ascii.eqb _ SP); [|reflexivity].
    apply skip_spaces_from_enough. step_cursor; lia.
Qed.

Lemma scan_key_eq n c :
  scan_key fbuffer read_res n c =
  if (pos c <? read_res) && (n <? MAX_ITEM_LEN) then
    let ch := byte_at fbuffer (pos c) in
    let c3 := touch (RdBuf (pos c)) (touch (RdBuf (pos c)) (touch (RdBuf (pos c)) c)) in
    if Ascii.eqb ch EQUALS then (n, touch (RdBuf (pos c)) c)
    else if Ascii.eqb ch LF then (n, touch (RdBuf (pos c)) (touch (RdBuf (pos c)) c))
    else if Ascii.eqb ch SP then (n, c3)
    else scan_key fbuffer read_res (n + 1)
           (advance (write_key n ch (touch (RdBuf (pos c)) c3)))
  else (n, c).
Proof.
  unfold scan_key at 1.
  destruct (remaining read_res c) as [|k] eqn:Ek; simpl.
  - destruct (pos c <? read_res) eqn:E; [step_cursor; lia | reflexivity].
  - destruct ((pos c <? read_res) && (n <? MAX_ITEM_LEN)); [|reflexivity].
    repeat (match goal with |- context [if ?b then _ else _] => destruct b end;
            [reflexivity|]).
    apply scan_key_from_enough. step_cursor; lia.
Qed.

(** No loop moves the cursor backwards, and the loops over [fbuffer]
    leave the line counter and the scratch arrays alone as stated. *)
Lemma skip_spaces_from_frame f c :
  let c' := skip_spaces_from fbuffer read_res f c in
  pos c <= pos c' /\ line c' = line c /\ key c' = key c /\ key_len c' = key_len c /\
  value c' = value c.
Proof.
  revert c. induction f as [|f IH]; intros c; simpl; [repeat split; lia|].
  destruct (pos c <? read_res); [|repeat split; lia].
  destruct (Ascii.eqb _ SP); [|step_cursor; repeat split; lia].
  specialize (IH (advance (touch (RdBuf (pos c)) c))). simpl in IH.
  destruct IH as (H1 & H2 & H3 & H4 & H5). repeat split; try assumption.
  step_cursor; lia.
Qed.

Lemma skip_newlines_from_pos f c :
  pos c <= pos (skip_newlines_from fbuffer read_res f c).
Proof.
  revert c. induction f as [|f IH]; intros c; simpl; [lia|].
  destruct (pos c <? read_res); [|lia].
  destruct (Ascii.eqb _ LF); [|step_cursor; lia].
  etransitivity; [|apply IH]. step_cursor; lia.
Qed.

Lemma skip_comment_from_pos f c :
  pos c <= pos (skip_comment_from fbuffer read_res f c).
Proof.
  revert c. induction f as [|f IH]; intros c; simpl; [lia|].
  destruct (pos c <? read_res); [|lia].
  destruct (Ascii.eqb _ LF); [step_cursor; lia|].
  etransitivity; [|apply IH]. step_cursor; lia.
Qed.

Lemma scan_key_from_pos f n c :
  pos c <= pos (snd (scan_key_from fbuffer read_res f n c)).
Proof.
  revert n c. induction f as [|f IH]; intros n c; simpl; [lia|].
  destruct ((pos c <? read_res) && (n <? MAX_ITEM_LEN)); [|simpl; lia].
  repeat (match goal with |- context [if ?b then _ else _] => destruct b end;
          [step_cursor; lia|]).
  etransitivity; [|apply IH]. step_cursor; lia.
Qed.

Lemma scan_value_from_pos f n c :
  pos c <= pos (snd (scan_value_from fbuffer read_res f n c)).
Proof.
  revert n c. induction f as [|f IH]; intros n c; simpl; [lia|].
  destruct ((pos c <? read_res) && (n <? MAX_ITEM_LEN)); [|simpl; lia].
  destruct (Ascii.eqb _ LF); [step_cursor; lia|].
  etransitivity; [|apply IH]. step_cursor; lia.
Qed.

Lemma trim_value_from_pos f n c :
  pos (snd (trim_value_from f n c)) = pos c.
Proof.
  revert n c. induction f as [|f IH]; intros n c; simpl; [reflexivity|].
  destruct (0 <? n); [|reflexivity].
  destruct (Ascii.eqb _ SP); [|reflexivity].
  rewrite IH. reflexivity.
Qed.

Lemma strip_quotes_pos n c : pos (snd (strip_quotes n c)) = pos c.
Proof.
  unfold strip_quotes, memmove_value, touch_all, read_value, touch. simpl.
  repeat (match goal with |- context [if ?b then _ else _] => destruct b end;
          try reflexivity).
Qed.

(** A call that returns a record has consumed at least its [=]. *)
Lemma parse_record_advances c r c' msgs :
  parse_record fbuffer read_res c = (r, c', msgs) -> 0 < r -> pos c < pos c'.
Proof.
  unfold parse_record, scan_key, scan_value, trim_value, skip_spaces.
  pose proof (scan_key_from_pos (remaining read_res c) 0 c) as Hk.
  destruct (scan_key_from _ _ _ 0 c) as [n ck]. simpl in Hk.
  set (c1 := set_key_len n (write_key n NUL ck)).
  pose proof (skip_spaces_from_frame (remaining read_res c1) c1) as (Hs & _).
  set (c2 := skip_spaces_from _ _ _ c1) in *.
  unfold peek. destruct (negb _); [intros [= <- _ _]; lia|].
  set (c3 := advance (touch (RdBuf (pos c2)) c2)).
  pose proof (skip_spaces_from_frame (remaining read_res c3) c3) as (Hs' & _).
  set (c4 := skip_spaces_from _ _ _ c3) in *.
  pose proof (scan_value_from_pos (remaining read_res c4) 0 c4) as Hv.
  destruct (scan_value_from _ _ _ 0 c4) as [m cv]. simpl in Hv.
  pose proof (trim_value_from_pos (Z.to_nat m) m (write_value m NUL cv)) as Ht.
  destruct (trim_value_from _ m _) as [m' ct]. simpl in Ht.
  pose proof (strip_quotes_pos m' ct) as Hq.
  destruct (strip_quotes m' ct) as [m'' cq]. simpl in Hq.
  intros [= _ <- _] _. subst c1 c3. step_cursor. lia.
Qed.

Lemma parse_from_advances f c r c' msgs :
  parse_from fbuffer read_res f c = (r, c', msgs) -> 0 < r -> pos c < pos c'.
Proof.
  revert c. induction f as [|f IH]; intros c; simpl; [intros [= <- _ _]; lia|].
  destruct (pos c <? read_res); [|intros [= <- _ _]; lia].
  destruct (Ascii.eqb _ SP).
  { intros H Hr. apply IH in H; [|assumption].
    pose proof (skip_spaces_from_frame
                  (remaining read_res (advance (touch (RdBuf (pos c)) c)))
                  (advance (touch (RdBuf (pos c)) c))) as (Hs & _).
    unfold skip_spaces in H. step_cursor. lia. }
  destruct (Ascii.eqb _ LF).
  { intros H Hr. apply IH in H; [|assumption].
    match type of H with context [skip_newlines _ _ ?x] =>
      pose proof (skip_newlines_from_pos (remaining read_res x) x) as Hs end.
    unfold skip_newlines in H. step_cursor. lia. }
  destruct (Ascii.eqb _ HASH).
  { intros H Hr. apply IH in H; [|assumption].
    match type of H with context [skip_comment _ _ ?x] =>
      pose proof (skip_comment_from_pos (remaining read_res x) x) as Hs end.
    unfold skip_comment in *.
    destruct (pos (skip_comment_from _ _ _ _) <? read_res); step_cursor; lia. }
  intros H Hr. apply parse_record_advances in H; [|assumption]. step_cursor. lia.
Qed.

Lemma parse_next_kv_advances c r c' msgs :
  parse_next_kv fbuffer read_res c = (r, c', msgs) -> 0 < r -> pos c < pos c'.
Proof. apply parse_from_advances. Qed.

(** At the end of the buffer the parser returns 0 and touches nothing. *)
Lemma parse_next_kv_at_end c :
  read_res <= pos c -> parse_next_kv fbuffer read_res c = (0, c, []).
Proof.
  intros H. unfold parse_next_kv.
  destruct (remaining read_res c); simpl; [reflexivity|].
  destruct (pos c <? read_res) eqn:E; [lia | reflexivity].
Qed.

(** The outer loop, too, never needs more than [read_res - pos]
    iterations. *)
Lemma parse_from_enough f : forall g c,
  (remaining read_res c <= f)%nat -> (remaining read_res c <= g)%nat ->
  parse_from fbuffer read_res f c = parse_from fbuffer read_res g c.
Proof.
  induction f as [|f IH]; intros g c Hf Hg.
  - destruct g as [|g]; [reflexivity|]. simpl.
    destruct (pos c <? read_res) eqn:E; [step_cursor; lia | reflexivity].
  - destruct g as [|g].
    + simpl. destruct (pos c <? read_res) eqn:E; [step_cursor; lia | reflexivity].
    + simpl. destruct (pos c <? read_res) eqn:E; [|reflexivity].
      destruct (Ascii.eqb _ SP).
      { match goal with |- context [skip_spaces _ _ ?x] =>
          pose proof (skip_spaces_from_frame (remaining read_res x) x) as (Hs & _) end.
        apply IH; unfold skip_spaces; step_cursor; lia. }
      destruct (Ascii.eqb _ LF).
      { match goal with |- context [skip_newlines _ _ ?x] =>
          pose proof (skip_newlines_from_pos (remaining read_res x) x) as Hs end.
        apply IH; unfold skip_newlines; step_cursor; lia. }
      destruct (Ascii.eqb _ HASH); [|reflexivity].
      match goal with |- context [skip_comment _ _ ?x] =>
        pose proof (skip_comment_from_pos (remaining read_res x) x) as Hs end.
      unfold skip_comment in *.
      apply IH; destruct (pos (skip_comment_from _ _ _ _) <? read_res);
        step_cursor; lia.
Qed.

Lemma key_byte_spec ch :
  key_byte ch = true ->
  Ascii.eqb ch EQUALS = false /\ Ascii.eqb ch LF = false /\ Ascii.eqb ch SP = false.
Proof.
  unfold key_byte. destruct (Ascii.eqb ch EQUALS), (Ascii.eqb ch LF), (Ascii.eqb ch SP);
    simpl; intros H; try discriminate; auto.
Qed.

(** [k] iterations of the key loop over [k] key bytes: they land in
    [key[n .. n+k-1]], nothing below [n] changes. *)
Lemma scan_key_run k : forall n c,
  0 <= n -> n + Z.of_nat k <= MAX_ITEM_LEN ->
  0 <= pos c -> pos c + Z.of_nat k <= read_res ->
  length (key c) = 256%nat ->
  (forall i, 0 <= i < Z.of_nat k -> key_byte (byte_at fbuffer (pos c + i)) = true) ->
  exists ck,
    scan_key fbuffer read_res n c = scan_key fbuffer read_res (n + Z.of_nat k) ck /\
    pos ck = pos c + Z.of_nat k /\ line ck = line c /\
    length (key ck) = 256%nat /\
    (forall j, 0 <= j < n -> byte_at (key ck) j = byte_at (key c) j) /\
    (forall j, n <= j < n + Z.of_nat k ->
               byte_at (key ck) j = byte_at fbuffer (pos c + (j - n))).
Proof.
  unfold MAX_ITEM_LEN.
  induction k as [|k IH]; intros n c Hn Hk Hp Hr Hlen Hbytes.
  - exists c. rewrite Z.add_0_r. repeat split; auto; try lia.
  - rewrite scan_key_eq. unfold MAX_ITEM_LEN.
    replace (pos c <? read_res) with true by lia.
    replace (n <? 256) with true by lia. cbv zeta. simpl andb.
    destruct (key_byte_spec (byte_at fbuffer (pos c))) as (E1 & E2 & E3).
    { rewrite <- (Z.add_0_r (pos c)). apply Hbytes. lia. }
    rewrite E1, E2, E3.
    set (c' := advance (write_key n _ _)).
    destruct (IH (n + 1) c') as (ck & Hrun & Hpos & Hline & Hl & Hlow & Hhigh).
    + lia.
    + lia.
    + subst c'. step_cursor. lia.
    + subst c'. step_cursor. lia.
    + subst c'. step_cursor. rewrite store_at_length. assumption.
    + intros i Hi. subst c'. step_cursor.
      replace (pos c + 1 + i) with (pos c + (i + 1)) by lia. apply Hbytes. lia.
    + exists ck. rewrite Hrun, Hpos, Hline.
      replace (n + 1 + Z.of_nat k) with (n + Z.of_nat (S k)) by lia.
      subst c'. step_cursor. repeat split; auto; try lia.
      * intros j Hj. rewrite Hlow by lia. apply byte_at_store_other; lia.
      * intros j Hj. destruct (Z.eq_dec j n) as [->|Hne].
        -- rewrite Hlow by lia. rewrite byte_at_store_same by lia.
           f_equal. lia.
        -- rewrite Hhigh by lia. f_equal. lia.
Qed.

End ParserFacts.

(* ===================================================================== *)
(** * Facts about runs and traces *)
(* ===================================================================== *)

Section RunFacts.

Context {W : Type}.

Lemma silent_ret {A} P (a : A) : silent P (ret (W := W) a).
Proof. intros w. constructor. Qed.

Lemma silent_bind {A B} P (m : M W A) (k : A -> M W B) :
  silent P m -> (forall a, silent P (k a)) -> silent P (bind m k).
Proof.
  intros Hm Hk w. specialize (Hm w). unfold calls, bind in *.
  destruct (m w) as [[a w1] t1]. specialize (Hk a w1). unfold calls in Hk.
  destruct (k a w1) as [[b w2] t2]. simpl in *. apply Forall_app. split; assumption.
Qed.

Lemma silent_call {A} P e (f : W -> A * W) : P e = false -> silent P (call e f).
Proof.
  intros He w. unfold calls, call. destruct (f w). simpl. repeat constructor. exact He.
Qed.

Lemma silent_syslog P prio fmt args :
  P (Syslog (Log prio fmt args)) = false -> silent P (pam_syslog (W := W) prio fmt args).
Proof. intros He w. unfold calls, pam_syslog. simpl. repeat constructor. exact He. Qed.

Lemma silent_emit P l :
  (forall e, P (Syslog e) = false) -> silent P (emit (W := W) l).
Proof.
  intros He w. unfold calls, emit. simpl.
  induction l as [|e l IH]; simpl; constructor; [apply He | exact IH].
Qed.

End RunFacts.

(** Break a computation into its calls; [known] closes the parts already
    proved silent. *)
Ltac silence_with known :=
  repeat first
    [ known
    | apply silent_ret
    | apply silent_syslog; reflexivity
    | apply silent_call; reflexivity
    | apply silent_emit; intros []; reflexivity
    | apply silent_bind; [| intros ?]
    | match goal with
      | |- silent _ (if ?b then _ else _) => destruct b
      | |- silent _ (match ?x with _ => _ end) => destruct x
      | |- silent _ (let (_, _) := ?x in _) => destruct x
      end ].

Ltac silence := silence_with fail.

Section EngineFacts.

Context {W : Type} (host : Host W).

Lemma parse_next_kv_m_silent P fbuffer read_res c :
  (forall e, P (Syslog e) = false) ->
  silent P (parse_next_kv_m (W := W) fbuffer read_res c).
Proof.
  intros HP. unfold parse_next_kv_m.
  destruct (parse_next_kv fbuffer read_res c) as [[r c'] msgs].
  apply silent_bind; [|intros; apply silent_ret].
  apply silent_emit. exact HP.
Qed.

Lemma config_record_silent P c st :
  (forall e, P (Syslog e) = false) -> silent P (config_record (W := W) c st).
Proof.
  intros HP. unfold config_record.
  repeat first
    [ apply silent_ret | apply silent_syslog; apply HP
    | apply silent_bind; [| intros ?]
    | match goal with
      | |- silent _ (if ?b then _ else _) => destruct b
      | |- silent _ (let (_, _) := ?x in _) => destruct x
      end ].
Qed.

Lemma config_loop_from_silent P fuel fbuffer read_res c st :
  (forall e, P (Syslog e) = false) ->
  silent P (config_loop_from (W := W) fuel fbuffer read_res c st).
Proof.
  intros HP. revert c st. induction fuel as [|fuel IH]; intros c st; simpl.
  - apply silent_ret.
  - apply silent_bind; [apply parse_next_kv_m_silent, HP|].
    intros [r c']. destruct (0 <? r); [|apply silent_ret].
    apply silent_bind; [apply config_record_silent, HP | intros; apply IH].
Qed.

(** Loading the configuration touches files and the log only. *)
Lemma read_config_no_radio config : silent is_radio (read_config host config).
Proof.
  unfold read_config, sys_open, malloc, sys_read.
  pose proof (fun fb rr c st =>
    config_loop_from_silent is_radio (S (remaining rr c)) fb rr c st
      (fun e => eq_refl)) as Hloop.
  unfold config_loop. silence_with ltac:(apply Hloop).
Qed.

Lemma scan_args_unset argv a :
  Forall (fun x => Libc.strcmp x (lit "allow_with_password") <> 0) argv ->
  scan_args argv a = a.
Proof.
  intros H. revert a.
  induction H as [|x argv Hx _ IH]; intros a; cbn [scan_args]; [reflexivity|].
  rewrite IH. destruct (Z.eqb_spec (Libc.strcmp x (lit "allow_with_password")) 0);
    [contradiction | reflexivity].
Qed.

(** The connected-device check never probes and never enters the
    paired-device path by itself. *)
Lemma acquire_rssi_silent P config dev_id hci_sock hnd :
  P = is_probe \/ P = enters_fallback ->
  silent P (acquire_rssi host config dev_id hci_sock hnd).
Proof.
  intros [-> | ->];
    unfold acquire_rssi, get_fresh_rssi, dev_get_rssi, hci_send_req, hci_open_dev,
      hci_read_rssi; silence.
Qed.

Lemma scan_connections_silent P config dev_id hci_sock l :
  P = is_probe \/ P = enters_fallback ->
  silent P (scan_connections host config dev_id hci_sock l).
Proof.
  intros HP. induction l as [|ci l IH]; simpl; [apply silent_ret|].
  destruct (bacmp _ _ =? 0); [|exact IH].
  apply silent_bind; [apply acquire_rssi_silent, HP|].
  intros rssi. destruct HP as [-> | ->]; unfold judge_rssi; silence.
Qed.

Lemma check_connected_device_silent P config dev_id hci_sock :
  P = is_probe \/ P = enters_fallback ->
  silent P (check_connected_device host config dev_id hci_sock).
Proof.
  intros HP. pose proof (scan_connections_silent P config dev_id hci_sock) as Hscan.
  unfold check_connected_device, malloc, ioctl_HCIGETCONNLIST.
  destruct HP as [-> | ->]; silence_with ltac:(apply Hscan; auto).
Qed.

(** The loop stops at the first entry with the configured address. *)
Lemma scan_connections_first config dev_id hci_sock l w :
  scan_connections host config dev_id hci_sock l w =
  match first_conn config l with
  | None => ret 0 w
  | Some ci =>
      bind (acquire_rssi host config dev_id hci_sock (handle ci))
           (judge_rssi config (ba2str (bdaddr ci))) w
  end.
Proof.
  unfold first_conn. induction l as [|ci l IH]; simpl; [reflexivity|].
  destruct (bacmp _ _ =? 0); [reflexivity | exact IH].
Qed.

Lemma judge_rssi_result config addr_str rssi (w : W) :
  result (judge_rssi config addr_str rssi) w =
  if rssi =? 0 then 0 else if min_strength config <=? rssi then 1 else -1.
Proof.
  unfold judge_rssi, result, bind, pam_syslog, ret. simpl.
  destruct (rssi =? 0); [reflexivity|].
  destruct (min_strength config <=? rssi); reflexivity.
Qed.

(** What [check_connected_device] returns once the connection list [l]
    has been obtained. *)
Lemma check_connected_device_result config dev_id hci_sock w w1 r l w2 :
  host_malloc host (4 + MAX_DEVICES_LOOKDUP * 16) w = (true, w1) ->
  host_conn_list host hci_sock dev_id MAX_DEVICES_LOOKDUP w1 = (r, l, w2) ->
  0 <= r ->
  result (check_connected_device host config dev_id hci_sock) w =
  match first_conn config l with
  | None => 0
  | Some ci =>
      let rssi := result (acquire_rssi host config dev_id hci_sock (handle ci)) w2 in
      if rssi =? 0 then 0 else if min_strength config <=? rssi then 1 else -1
  end.
Proof.
  intros Hm Hl Hr.
  unfold check_connected_device, result, bind, pam_syslog, malloc,
    ioctl_HCIGETCONNLIST, call.
  rewrite Hm. simpl. rewrite Hl. simpl.
  replace (r <? 0) with false by lia.
  destruct l as [|ci0 l0] eqn:El; [reflexivity|]. rewrite <- El.
  replace (Z.of_nat (length l) =? 0) with false by (subst l; simpl; lia).
  rewrite scan_connections_first.
  destruct (first_conn config l) as [ci|]; [|reflexivity].
  pose proof (judge_rssi_result config (ba2str (bdaddr ci))) as Hj.
  unfold result, bind in *.
  destruct (acquire_rssi host config dev_id hci_sock (handle ci) w2) as [[rssi w3] t3].
  specialize (Hj rssi w3). simpl.
  destruct (judge_rssi config (ba2str (bdaddr ci)) rssi w3) as [[v w4] t4].
  simpl in *. exact Hj.
Qed.

End EngineFacts.

(** C7, amended.  A key longer than 256 bytes is not accepted in truncated
    form: with the cursor on the first byte of such a key (not a [#]), the
    parser copies its first 256 bytes into [key], finds that the next
    byte is not [=], and returns -1 (parse error); no record is produced. *)
Theorem long_key_is_parse_error (fbuffer : list ascii) (read_res : Z) (c : cursor) :
  0 <= pos c -> pos c + 256 < read_res -> length (key c) = 256%nat ->
  Ascii.eqb (byte_at fbuffer (pos c)) HASH = false ->
  long_key_at fbuffer (pos c) = true ->
  exists c' msgs,
    parse_next_kv fbuffer read_res c = (-1, c', msgs) /\
    pos c' = pos c + 256 /\ key_len c' = 256 /\
    (forall j, 0 <= j < 256 -> byte_at (key c') j = byte_at fbuffer (pos c + j)).
Proof.
  intros Hp Hr Hlen Hhash Hlong.
  assert (Hbytes : forall i, 0 <= i <= 256 ->
                             key_byte (byte_at fbuffer (pos c + i)) = true).
  { unfold long_key_at in Hlong. rewrite forallb_forall in Hlong.
    intros i Hi. apply Hlong. apply list_elem_of_In, elem_of_seqZ. lia. }
  pose proof (Hbytes 0 ltac:(lia)) as H0. rewrite Z.add_0_r in H0.
  destruct (key_byte_spec _ H0) as (_ & E2 & E3).
  pose proof (Hbytes 256 ltac:(lia)) as H256.
  destruct (key_byte_spec _ H256) as (F1 & _ & F3).
  unfold parse_next_kv.
  destruct (remaining read_res c) as [|f] eqn:Ef; [unfold remaining in Ef; lia|].
  simpl. replace (pos c <? read_res) with true by lia.
  rewrite E3, E2, Hhash. unfold parse_record.
  set (c3 := touch _ (touch _ (touch _ c))).
  destruct (scan_key_run fbuffer read_res 256 0 c3)
    as (ck & Hrun & Hpos & Hline & Hl & _ & Hkey);
    try (unfold MAX_ITEM_LEN; simpl; lia); try assumption.
  { intros i Hi. apply Hbytes. lia. }
  rewrite Hrun, scan_key_eq. simpl in Hpos.
  change (0 + Z.of_nat 256 <? MAX_ITEM_LEN) with false. rewrite andb_false_r.
  set (c1 := set_key_len _ (write_key _ NUL ck)).
  assert (Hc1 : pos c1 = pos c + 256) by (subst c1; simpl; lia).
  assert (Hk1 : key c1 = key ck).
  { subst c1. simpl. apply store_at_outside. rewrite Hl. simpl. lia. }
  assert (Hn1 : key_len c1 = 256) by reflexivity.
  clearbody c1.
  rewrite skip_spaces_eq, Hc1. replace (pos c + 256 <? read_res) with true by lia.
  unfold peek, touch. simpl. rewrite Hc1, F3. simpl. rewrite F1. simpl.
  eexists _, _. split; [reflexivity|]. simpl. repeat split; try assumption.
  intros j Hj. rewrite Hk1, Hkey by (simpl; lia). simpl. f_equal. lia.
Qed.

(** C7 at a concrete buffer: a 257-byte key followed by [=v]. *)
Lemma long_key_is_parse_error_witness :
  exists c' msgs,
    parse_next_kv long_key_line 260 (fresh_cursor 0) = (-1, c', msgs) /\
    pos c' = pos (fresh_cursor 0) + 256 /\ key_len c' = 256 /\
    (forall j, 0 <= j < 256 ->
               byte_at (key c') j = byte_at long_key_line (pos (fresh_cursor 0) + j)).
Proof.
  apply (long_key_is_parse_error long_key_line 260 (fresh_cursor 0)).
  - simpl; lia.
  - simpl; lia.
  - reflexivity.
  - reflexivity.
  - vm_compute; reflexivity.
Defined.

(** C7 as stated fails: for a 257-byte key followed by [=v] the parser
    does not produce a record (it does not return 1). *)
Lemma long_key_yields_no_record :
  ~ (exists c' msgs, parse_next_kv long_key_line 260 (fresh_cursor 0) = (1, c', msgs)).
Proof.
  intros (c' & msgs & H).
  apply (f_equal (fun r => fst (fst r))) in H. vm_compute in H. discriminate H.
Qed.

(* ===================================================================== *)
(** * The callers' loops never run out of iterations *)
(* ===================================================================== *)

Section LoopBounds.

Context {W : Type}.
Variable fbuffer : list ascii.
Variable read_res : Z.

#[local] Arguments Libc.strncmp : simpl never.
#[local] Arguments lit : simpl never.

(** A successful call leaves strictly fewer bytes to parse. *)
Lemma remaining_decreases c r c' msgs :
  parse_next_kv fbuffer read_res c = (r, c', msgs) -> (0 <? r) = true ->
  (remaining read_res c' < remaining read_res c)%nat.
Proof.
  intros E Hr. apply Z.ltb_lt in Hr.
  pose proof (parse_next_kv_advances _ _ _ _ _ _ E Hr) as Hadv.
  destruct (Z.le_gt_cases read_res (pos c)) as [Hend|Hin].
  - rewrite (parse_next_kv_at_end _ _ _ Hend) in E. injection E as <- _ _. lia.
  - unfold remaining. lia.
Qed.

(** Any number of iterations above [read_res - pos] yields the same
    records, the same trust verdict and the same configuration. *)
Lemma records_from_enough f : forall g c,
  (remaining read_res c < f)%nat -> (remaining read_res c < g)%nat ->
  records_from f fbuffer read_res c = records_from g fbuffer read_res c.
Proof.
  induction f as [|f IH]; intros g c Hf Hg; [lia|]. destruct g as [|g]; [lia|].
  simpl. destruct (parse_next_kv fbuffer read_res c) as [[r c'] msgs] eqn:E.
  destruct (0 <? r) eqn:Er; [|reflexivity].
  pose proof (remaining_decreases _ _ _ _ E Er). f_equal. apply IH; lia.
Qed.

Lemma trust_loop_from_enough path f : forall g c (w : W),
  (remaining read_res c < f)%nat -> (remaining read_res c < g)%nat ->
  trust_loop_from f fbuffer read_res path c w = trust_loop_from g fbuffer read_res path c w.
Proof.
  induction f as [|f IH]; intros g c w Hf Hg; [lia|]. destruct g as [|g]; [lia|].
  cbn [trust_loop_from]. unfold bind, parse_next_kv_m.
  destruct (parse_next_kv fbuffer read_res c) as [[r c'] msgs] eqn:E.
  simpl. destruct (0 <? r) eqn:Er; [|reflexivity].
  pose proof (remaining_decreases _ _ _ _ E Er).
  destruct (Libc.strncmp (key c') (lit "Trusted") 7 =? 0); [reflexivity|].
  rewrite (IH g c' w) by lia. reflexivity.
Qed.

Lemma config_loop_from_enough f : forall g c st (w : W),
  (remaining read_res c < f)%nat -> (remaining read_res c < g)%nat ->
  config_loop_from f fbuffer read_res c st w = config_loop_from g fbuffer read_res c st w.
Proof.
  induction f as [|f IH]; intros g c st w Hf Hg; [lia|]. destruct g as [|g]; [lia|].
  cbn [config_loop_from]. unfold bind, parse_next_kv_m.
  destruct (parse_next_kv fbuffer read_res c) as [[r c'] msgs] eqn:E.
  simpl. destruct (0 <? r) eqn:Er; [|reflexivity].
  pose proof (remaining_decreases _ _ _ _ E Er).
  destruct (config_record c' st w) as [[st' w'] t'].
  rewrite (IH g c' st' w') by lia. reflexivity.
Qed.

End LoopBounds.

(* ===================================================================== *)
(** * The decision pipeline *)
(* ===================================================================== *)

Section Verdict.

Context {W : Type} (host : Host W).

(** C10.  When [allow_with_password] is not among the module arguments
    and the credential PAM hands over is non-empty, [pam_sm_authenticate]
    does not return [PAM_SUCCESS], and no call reaches the radio:
    [check_bluetooth_device] is never entered. *)
Theorem password_without_option_is_denied
    (stack_config : bt_config_t) (argv : list (list ascii)) (w : W) :
  Forall (fun a => Libc.strcmp a (lit "allow_with_password") <> 0) argv ->
  has_password
    (snd (result (pam_get_authtok host)
                 (world_after (read_config host stack_config) w))) = true ->
  result (pam_sm_authenticate host stack_config argv) w <> PAM_SUCCESS /\
  Forall (fun e => is_radio e = false)
         (calls (pam_sm_authenticate host stack_config argv) w).
Proof.
  intros Hargs Hpw.
  pose proof (read_config_no_radio host stack_config w) as Hquiet.
  unfold pam_sm_authenticate, result, calls, world_after, bind in *.
  rewrite (scan_args_unset argv 0 Hargs).
  destruct (read_config host stack_config w) as [[[res config] w1] t1].
  simpl in Hpw, Hquiet.
  destruct (res =? 0); simpl.
  - unfold pam_get_authtok, call in *.
    destruct (host_pam_get_authtok host w1) as [[retval password] w2].
    simpl in Hpw. rewrite Hpw.
    destruct (Z.eqb_spec retval PAM_SUCCESS) as [->|Hne]; simpl.
    + split; [discriminate|].
      apply Forall_app. split; [assumption | repeat constructor].
    + split; [assumption|].
      apply Forall_app. split; [assumption | repeat constructor].
  - split; [discriminate|]. rewrite app_nil_r. assumption.
Qed.


(** [check_bluetooth_device] once the adapter, its address and the HCI
    socket are there: the connected-device check, then lines 490-492. *)
Lemma check_bluetooth_device_run config w dev_id w1 res local w2 sock w3 :
  host_hci_get_route host w = (dev_id, w1) -> 0 <= dev_id ->
  host_hci_devba host dev_id w1 = (res, local, w2) -> 0 <= res ->
  host_hci_open_dev host dev_id w2 = (sock, w3) -> 0 <= sock ->
  check_bluetooth_device host config w =
  let '(conn_is, w4, t4) := check_connected_device host config dev_id sock w3 in
  let '(ok, w5, t5) :=
    (if conn_is =? 0 then check_paired_device host config sock (ba2str local)
     else ret (conn_is =? 1)) w4 in
  (ok, w5,
   HciGetRoute :: HciDevba dev_id ::
   Syslog (Log LOG_DEBUG "Current listener device %s" [ArgStr (ba2str local)]) ::
   HciOpenDev dev_id :: t4 ++ t5).
Proof.
  intros Hroute Hdev Hba Hres Hopen Hsock.
  unfold check_bluetooth_device, bind, hci_get_route, hci_devba, hci_open_dev,
    call, pam_syslog.
  rewrite Hroute. replace (dev_id <? 0) with false by lia.
  rewrite Hba. replace (res <? 0) with false by lia.
  rewrite (proj2 (Z.ltb_ge (Z.of_nat (length (ba2str local))) 0))
    by apply Nat2Z.is_nonneg.
  rewrite Hopen. replace (sock <? 0) with false by lia.
  destruct (check_connected_device host config dev_id sock w3) as [[conn_is w4] t4].
  destruct (conn_is =? 0); [|reflexivity].
  destruct (check_paired_device host config sock (ba2str local) w4) as [[ok w5] t5].
  reflexivity.
Qed.


End Verdict.

(** C10 on a concrete host: the configuration loads, the password is
    [secret], the module has no arguments. *)
Lemma password_without_option_is_denied_witness :
  result (pam_sm_authenticate scripted zero_config [])
         (world_of 0 good_conf [] (0, -60) (lit "secret")) <> PAM_SUCCESS /\
  Forall (fun e => is_radio e = false)
         (calls (pam_sm_authenticate scripted zero_config [])
                (world_of 0 good_conf [] (0, -60) (lit "secret"))).
Proof.
  apply (password_without_option_is_denied scripted zero_config []
           (world_of 0 good_conf [] (0, -60) (lit "secret"))).
  - constructor.
  - vm_compute. reflexivity.
Defined.



(* ===================================================================== *)
(** * Trust resolution *)
(* ===================================================================== *)

Section Trust.

Context {W : Type} (host : Host W).

#[local] Arguments Libc.strncmp : simpl never.
#[local] Arguments lit : simpl never.
#[local] Arguments trust_loop : simpl never.
#[local] Arguments records : simpl never.

Lemma info_path_built device_mac gadget_mac :
  z3_pushl (z3_pushl (z3_pushc (z3_pushl (z3_pushl [] (lit "/var/lib/bluetooth/") 19)
                                         device_mac 17) "/") gadget_mac 17)
           (lit "/info") 5
  = info_path device_mac gadget_mac.
Proof.
  unfold z3_pushl, z3_pushc, info_path. rewrite <- !app_assoc. reflexivity.
Qed.

(** The loop of [is_device_trusted] returns 1 exactly when the first
    record whose key starts with [Trusted] has a value starting with
    [true]; otherwise 0 or -1. *)
Lemma trust_loop_from_result fuel fbuffer read_res path c (w : W) :
  let r := result (trust_loop_from (W := W) fuel fbuffer read_res path c) w in
  (r = 1 <->
   exists rec, find key_starts_Trusted (records_from fuel fbuffer read_res c) = Some rec /\
               value_starts_true rec = true) /\
  (r = 1 \/ r = 0 \/ r = -1).
Proof.
  revert c w. induction fuel as [|fuel IH]; intros c w.
  - simpl. split; [|auto]. split; [discriminate | intros (rec & H & _); discriminate].
  - cbn [trust_loop_from records_from].
    unfold result, bind, parse_next_kv_m, emit, ret, pam_syslog in *.
    destruct (parse_next_kv fbuffer read_res c) as [[p c'] msgs].
    simpl. destruct (0 <? p); simpl.
    + fold (key_starts_Trusted c'). fold (value_starts_true c').
      destruct (key_starts_Trusted c'); simpl.
      * destruct (value_starts_true c') eqn:Ev; simpl.
        -- split; [|auto]. split; [intros _; exists c'; auto | reflexivity].
        -- split; [|auto]. split; [discriminate|].
           intros (rec & [= <-] & Hv). congruence.
      * specialize (IH c' w).
        destruct (trust_loop_from fuel fbuffer read_res path c' w) as [[r w'] t'].
        simpl in *. exact IH.
    + destruct (p <? 0); simpl; (split; [|auto]);
        (split; [discriminate | intros (rec & H & _); discriminate]).
Qed.

(** When the first record whose key starts with [Trusted] has a value
    that does not start with [true], the loop returns 0. *)
Lemma trust_loop_from_other fuel fbuffer read_res path c (w : W) rec :
  find key_starts_Trusted (records_from fuel fbuffer read_res c) = Some rec ->
  value_starts_true rec = false ->
  result (trust_loop_from (W := W) fuel fbuffer read_res path c) w = 0.
Proof.
  revert c w. induction fuel as [|fuel IH]; intros c w; [discriminate|].
  cbn [trust_loop_from records_from].
  unfold result, bind, parse_next_kv_m, emit, ret, pam_syslog in *.
  destruct (parse_next_kv fbuffer read_res c) as [[p c'] msgs].
  simpl. destruct (0 <? p); simpl; [|discriminate].
  fold (key_starts_Trusted c'). fold (value_starts_true c').
  destruct (key_starts_Trusted c'); simpl.
  - intros [= <-] Hv. rewrite Hv. reflexivity.
  - intros Hfind Hv. specialize (IH c' w Hfind Hv).
    destruct (trust_loop_from fuel fbuffer read_res path c' w) as [[r w'] t'].
    simpl in *. exact IH.
Qed.

Lemma info_read_unique w path fb rr fb' rr' :
  info_read host w path fb rr -> info_read host w path fb' rr' -> fb = fb' /\ rr = rr'.
Proof.
  intros (w1 & fd & w2 & w3 & w4 & Hu & Ho & _ & Hm & Hr & _)
         (w1' & fd' & w2' & w3' & w4' & Hu' & Ho' & _ & Hm' & Hr' & _).
  rewrite Hu in Hu'. injection Hu' as <-.
  rewrite Ho in Ho'. injection Ho' as <- <-.
  rewrite Hm in Hm'. injection Hm' as <-.
  rewrite Hr in Hr'. injection Hr' as <- <- _. split; reflexivity.
Qed.

(** What [is_device_trusted] returns: 0 or -1 when the file is not read;
    otherwise the verdict of the loop. *)
Lemma is_device_trusted_cases device_mac gadget_mac (w : W) :
  let r := result (is_device_trusted host device_mac gadget_mac) w in
  ((r = 0 \/ r = -1) /\
   forall fb rr, ~ info_read host w (info_path device_mac gadget_mac) fb rr) \/
  (exists fb rr (w4 : W),
     info_read host w (info_path device_mac gadget_mac) fb rr /\
     r = result (trust_loop fb rr (info_path device_mac gadget_mac) (fresh_cursor 0)) w4).
Proof.
  unfold is_device_trusted. cbv zeta. rewrite info_path_built.
  unfold result, bind, getuid, sys_open, malloc, sys_read, call, pam_syslog, ret.
  destruct (host_getuid host w) as [uid w1] eqn:E1. simpl.
  destruct (Z.eqb_spec uid 1) as [->|Hu]; simpl.
  2: { left. split; [auto|].
       intros fb rr (x1 & fd' & x2 & x3 & x4 & Hu' & _).
       rewrite E1 in Hu'. injection Hu' as Hu' _. contradiction. }
  destruct (host_open host (info_path device_mac gadget_mac) w1) as [fd w2] eqn:E2.
  simpl. destruct (Z.eqb_spec fd (-1)) as [->|Hfd]; simpl.
  { left. split; [auto|].
    intros fb rr (x1 & fd' & x2 & x3 & x4 & Hu' & Ho' & Hne & _).
    rewrite E1 in Hu'. injection Hu' as <-.
    rewrite E2 in Ho'. injection Ho' as <- _. contradiction. }
  destruct (host_malloc host SYSCALL_MAX_BYTES_READ w2) as [ok w3] eqn:E3.
  simpl. destruct ok; simpl.
  2: { left. split; [auto|].
       intros fb rr (x1 & fd' & x2 & x3 & x4 & Hu' & Ho' & _ & Hm' & _).
       rewrite E1 in Hu'. injection Hu' as <-.
       rewrite E2 in Ho'. injection Ho' as <- <-.
       rewrite E3 in Hm'. discriminate Hm'. }
  destruct (host_read host fd SYSCALL_MAX_BYTES_READ w3) as [[read_res fbuffer] w4] eqn:E4.
  simpl. destruct (Z.leb_spec read_res 0) as [Hle|Hpos]; simpl.
  { left. split; [auto|].
    intros fb rr (x1 & fd' & x2 & x3 & x4 & Hu' & Ho' & _ & Hm' & Hr' & Hp).
    rewrite E1 in Hu'. injection Hu' as <-.
    rewrite E2 in Ho'. injection Ho' as <- <-.
    rewrite E3 in Hm'. injection Hm' as <-.
    rewrite E4 in Hr'. injection Hr' as <- _ _. lia. }
  right. exists fbuffer, read_res, w4. split.
  - exists w1, fd, w2, w3, w4. repeat split; assumption.
  - destruct (trust_loop fbuffer read_res (info_path device_mac gadget_mac)
                (fresh_cursor 0) w4) as [[r w5] t5].
    reflexivity.
Qed.

(** C3, amended.  For runs in which every access of the parser is in
    bounds (until the loop ends, no key or value of the pairing-status
    file fills its 256-byte array and the file does not end inside a
    key): [is_device_trusted] returns
    1 (Trusted) exactly when the caller passes the user-id gate, the file
    is opened and read (a positive byte count), and the first record whose
    key starts with [Trusted] -- among the records parsed before any parse
    error -- has a value that starts with [true]; when that record has any
    other value it returns 0 (NotTrusted); in every remaining case it
    returns 0 or -1, both of which its caller treats as not trusted. *)
Theorem trusted_iff_prefix_match (device_mac gadget_mac : list ascii) (w : W) :
  (forall fbuffer read_res,
      info_read host w (info_path device_mac gadget_mac) fbuffer read_res ->
      stays_in_bounds read_res (trust_loop_end fbuffer read_res) = true) ->
  let r := result (is_device_trusted host device_mac gadget_mac) w in
  (r = 1 <->
   exists fbuffer read_res rec,
     info_read host w (info_path device_mac gadget_mac) fbuffer read_res /\
     find key_starts_Trusted (records fbuffer read_res (fresh_cursor 0)) = Some rec /\
     value_starts_true rec = true) /\
  (forall fbuffer read_res rec,
     info_read host w (info_path device_mac gadget_mac) fbuffer read_res ->
     find key_starts_Trusted (records fbuffer read_res (fresh_cursor 0)) = Some rec ->
     value_starts_true rec = false ->
     r = 0) /\
  (r = 1 \/ r = 0 \/ r = -1).
Proof.
  intros _. cbv zeta.
  destruct (is_device_trusted_cases device_mac gadget_mac w)
    as [[Hr Hno] | (fb & rr & w4 & Hread & Hr)]; cbv zeta in *.
  - split; [|split].
    + split; [intros H; destruct Hr as [Hr|Hr]; rewrite Hr in H; discriminate H|].
      intros (fb & rr & rec & Hread & _). destruct (Hno fb rr Hread).
    + intros fb rr rec Hread. destruct (Hno fb rr Hread).
    + tauto.
  - rewrite Hr. clear Hr.
    pose proof (trust_loop_from_result (S (remaining rr (fresh_cursor 0)))
                  fb rr (info_path device_mac gadget_mac) (fresh_cursor 0) w4)
      as [Hiff Hrange].
    pose proof (trust_loop_from_other (S (remaining rr (fresh_cursor 0)))
                  fb rr (info_path device_mac gadget_mac) (fresh_cursor 0) w4) as Hother.
    fold (trust_loop (W := W) fb rr (info_path device_mac gadget_mac)
            (fresh_cursor 0)) in Hiff, Hrange, Hother.
    fold (records fb rr (fresh_cursor 0)) in Hiff, Hother.
    split; [|split].
    + rewrite Hiff. split.
      * intros (rec & Hfind & Hval). exists fb, rr, rec. auto.
      * intros (fb' & rr' & rec & Hread' & Hfind & Hval).
        destruct (info_read_unique _ _ _ _ _ _ Hread Hread') as [-> ->].
        exists rec. auto.
    + intros fb' rr' rec Hread' Hfind Hval.
      destruct (info_read_unique _ _ _ _ _ _ Hread Hread') as [-> ->].
      exact (Hother rec Hfind Hval).
    + exact Hrange.
Qed.

End Trust.

(** What the hypothesis on the accesses excludes: a value that fills its
    array makes line 110 store [value[256] = 0], outside [value]. *)
Lemma full_value_leaves_the_array :
  stays_in_bounds (Z.of_nat (length info_full_value))
    (trust_loop_end info_full_value (Z.of_nat (length info_full_value))) = false /\
  touches (WrValue 256)
    (accesses (trust_loop_end info_full_value (Z.of_nat (length info_full_value))))
  = true /\
  stays_in_bounds (Z.of_nat (length conf_full_value))
    (config_loop_end conf_full_value (Z.of_nat (length conf_full_value))) = false /\
  touches (WrValue 256)
    (accesses (config_loop_end conf_full_value (Z.of_nat (length conf_full_value))))
  = true.
Proof. vm_compute. repeat split; reflexivity. Qed.

(** C3 on a concrete host: the caller has user id 1 and the pairing file
    holds [Trusted=true]. *)
Lemma trusted_iff_prefix_match_witness :
  let r := result (is_device_trusted scripted (ba2str adapter) (ba2str target))
             (world_of 1 good_conf info_true (0, -60) []) in
  (r = 1 <->
   exists fbuffer read_res rec,
     info_read scripted (world_of 1 good_conf info_true (0, -60) [])
       (info_path (ba2str adapter) (ba2str target)) fbuffer read_res /\
     find key_starts_Trusted (records fbuffer read_res (fresh_cursor 0)) = Some rec /\
     value_starts_true rec = true) /\
  (forall fbuffer read_res rec,
     info_read scripted (world_of 1 good_conf info_true (0, -60) [])
       (info_path (ba2str adapter) (ba2str target)) fbuffer read_res ->
     find key_starts_Trusted (records fbuffer read_res (fresh_cursor 0)) = Some rec ->
     value_starts_true rec = false ->
     r = 0) /\
  (r = 1 \/ r = 0 \/ r = -1).
Proof.
  apply (trusted_iff_prefix_match scripted (ba2str adapter) (ba2str target)
           (world_of 1 good_conf info_true (0, -60) [])).
  intros fbuffer read_res (w1 & fd & w2 & w3 & w4 & Hu & Ho & _ & Hm & Hr & _).
  vm_compute in Hu. injection Hu as <-.
  vm_compute in Ho. injection Ho as <- <-.
  vm_compute in Hm. injection Hm as <-.
  vm_compute in Hr. injection Hr as <- <- _.
  vm_compute. reflexivity.
Defined.

(** C3 as stated fails: with [Trusted=trueish], and with
    [TrustedDevices=true], [is_device_trusted] returns 1 although no record
    has the key [Trusted] with the value [true] exactly. *)
Lemma trusted_without_exact_match :
  ~ (result (is_device_trusted scripted (ba2str adapter) (ba2str target))
            (world_of 1 good_conf info_trueish (0, -60) []) = 1 <->
     trusted_as_specified info_trueish = true) /\
  ~ (result (is_device_trusted scripted (ba2str adapter) (ba2str target))
            (world_of 1 good_conf info_other_key (0, -60) []) = 1 <->
     trusted_as_specified info_other_key = true).
Proof.
  split; intros [H _]; vm_compute in H; specialize (H eq_refl); discriminate H.
Qed.

(* ===================================================================== *)
(** * Where the code departs from its own intent *)
(* ===================================================================== *)

Section Failures.

Context {W : Type} (host : Host W).

(** [dev_get_rssi] reports both of its failures as -1. *)
Lemma dev_get_rssi_failure dev_id hnd (w : W) :
  fst (host_hci_open_dev host dev_id w) < 0 \/
  fst (fst (host_hci_read_rssi host (fst (host_hci_open_dev host dev_id w)) hnd 1000
              (snd (host_hci_open_dev host dev_id w)))) < 0 ->
  result (dev_get_rssi host dev_id hnd) w = -1.
Proof.
  unfold dev_get_rssi, result, bind, hci_open_dev, hci_read_rssi, call, pam_syslog, ret.
  destruct (host_hci_open_dev host dev_id w) as [sock w1]. simpl.
  destruct (Z.ltb_spec sock 0) as [Hs|Hs]; [intros _; reflexivity|].
  destruct (host_hci_read_rssi host sock hnd 1000 w1) as [[err rssi] w2]. simpl.
  intros [H|H]; [lia|]. replace (err <? 0) with true by lia. reflexivity.
Qed.

(** The gate of [is_device_trusted] is [getuid () != 1]: every other
    user id, 0 included, is answered 0 with a warning and no file access. *)
Lemma uid_gate_closed device_mac gadget_mac (w : W) :
  fst (host_getuid host w) <> 1 ->
  run (is_device_trusted host device_mac gadget_mac) w
  = (0, [SysGetuid;
         Syslog (Log LOG_WARNING
                     "Cannot open Bluetooth info file without root, assuming untrusted"
                     [])]).
Proof.
  unfold is_device_trusted, run, bind, getuid, call, pam_syslog, ret.
  destruct (host_getuid host w) as [uid w1]. simpl. intros Hu.
  destruct (Z.eqb_spec uid 1) as [->|_]; [contradiction | reflexivity].
Qed.

End Failures.

(** C1 at the failing input: the cached RSSI read fails.  [dev_get_rssi]
    returns -1, not 0, and the engine, comparing -1 with the threshold
    -70, grants access. *)
Lemma failed_rssi_read_is_not_zero :
  result (dev_get_rssi scripted 0 12) rssi_fails = -1 /\
  result (check_bluetooth_device scripted good_config) rssi_fails = true.
Proof. split; vm_compute; reflexivity. Qed.

(** C4 at the failing input: [min_strength = 200] is accepted and the
    threshold stored is 56, a positive number. *)
Lemma threshold_200_is_stored_positive :
  result (read_config scripted zero_config) (world_of 0 conf_200 [] (0, -60) [])
  = (0, Config target 0 0 56).
Proof. vm_compute. reflexivity. Qed.

(** The three spellings of 5 all give the threshold -5. *)
Lemma threshold_5_examples :
  forallb (fun v => let '(r, cfg) := result (read_config scripted zero_config)
                                            (world_of 0 (conf_strength v) [] (0, -60) []) in
                    (r =? 0) && (min_strength cfg =? -5))
          [lit "5"; lit "-5"; quoted_5] = true.
Proof. vm_compute. reflexivity. Qed.

(** C5 at the failing inputs: a buffer that ends inside a key makes the
    parser read [fbuffer[read_res]]; a key of 256 bytes makes it write
    [key[256]], a value of 256 bytes [value[256]]. *)
Lemma parser_accesses_out_of_bounds :
  (touches (RdBuf 3) (first_accesses bare_key) = true /\ in_bounds 3 (RdBuf 3) = false) /\
  (touches (WrKey 256) (first_accesses key_256) = true /\
   in_bounds 259 (WrKey 256) = false) /\
  (touches (WrValue 256) (first_accesses value_256) = true /\
   in_bounds 259 (WrValue 256) = false).
Proof. repeat split; vm_compute; reflexivity. Qed.

(** C6 at the failing input: the third line of the configuration has no
    [=].  The parser reports the error, and [read_config] still returns 0
    with the configuration read so far; [is_device_trusted], on the same
    bytes, returns -1. *)
Lemma parse_error_does_not_fail_the_load :
  result (read_config scripted zero_config) (world_of 0 conf_broken [] (0, -60) [])
  = (0, good_config) /\
  logged "Expected '=' after key: %s:%zu"
         (calls (read_config scripted zero_config)
                (world_of 0 conf_broken [] (0, -60) [])) = true /\
  result (is_device_trusted scripted (ba2str adapter) (ba2str target))
         (world_of 1 good_conf conf_broken (0, -60) []) = -1.
Proof. repeat split; vm_compute; reflexivity. Qed.

(** C8 at the failing inputs, with the counter at 0 as both callers set
    it: the records of lines 1, 2, 3 all carry 0; a record on line 4,
    after three line feeds, carries 2.  Starting the counter at 1 does not
    repair it: the records of lines 1, 2, 3 then all carry 1. *)
Lemma line_numbers_do_not_follow_newlines :
  record_lines three_lines 0 = [0; 0; 0] /\
  record_lines after_blank_lines 0 = [2] /\
  record_lines three_lines 1 = [1; 1; 1].
Proof. repeat split; vm_compute; reflexivity. Qed.

(** C9 at the failing input: user id 1 is not root, yet
    [is_device_trusted] opens and reads the pairing-status file and answers
    from it; root itself (user id 0) is turned away before any file access. *)
Lemma uid_gate_lets_a_non_root_caller_in :
  result (is_device_trusted scripted (ba2str adapter) (ba2str target))
         (world_of 1 good_conf info_true (0, -60) []) = 1 /\
  existsb is_file_access
          (calls (is_device_trusted scripted (ba2str adapter) (ba2str target))
                 (world_of 1 good_conf info_true (0, -60) [])) = true /\
  run (is_device_trusted scripted (ba2str adapter) (ba2str target))
      (world_of 0 good_conf info_true (0, -60) [])
  = (0, [SysGetuid;
         Syslog (Log LOG_WARNING
                     "Cannot open Bluetooth info file without root, assuming untrusted" [])]).
Proof. repeat split; vm_compute; reflexivity. Qed.

(* ===================================================================== *)
(** * Further properties of the parser *)
(* ===================================================================== *)

Section ParserOutcome.

Variable fbuffer : list ascii.
Variable read_res : Z.

Lemma parse_record_outcome c :
  let '(r, c', msgs) := parse_record fbuffer read_res c in
  (r = 1 /\ msgs = []) \/ (r = -1 /\ msgs = [expected_equals (line c')]).
Proof.
  unfold parse_record.
  destruct (scan_key fbuffer read_res 0 c) as [n ck].
  destruct (peek fbuffer _) as [ch c1].
  destruct (negb _); [right; split; reflexivity|].
  destruct (scan_value _ _ _ _) as [m cv].
  destruct (trim_value _ _) as [m' ct].
  destruct (strip_quotes _ _) as [m'' cq].
  left. split; reflexivity.
Qed.

Lemma parse_from_outcome f : forall c,
  let '(r, c', msgs) := parse_from fbuffer read_res f c in
  (r = 1 /\ msgs = []) \/ (r = 0 /\ msgs = []) \/
  (r = -1 /\ msgs = [expected_equals (line c')]).
Proof.
  induction f as [|f IH]; intros c; simpl; [right; left; auto|].
  destruct (pos c <? read_res); [|right; left; auto].
  destruct (Ascii.eqb _ SP); [apply IH|].
  destruct (Ascii.eqb _ LF); [apply IH|].
  destruct (Ascii.eqb _ HASH); [apply IH|].
  pose proof (parse_record_outcome
                (touch (RdBuf (pos c)) (touch (RdBuf (pos c)) (touch (RdBuf (pos c)) c))))
    as H.
  destruct (parse_record _ _ _) as [[r c'] msgs]. tauto.
Qed.

(** When the outer loop falls through, the buffer is exhausted. *)
Lemma parse_from_zero f : forall c c' msgs,
  (remaining read_res c <= f)%nat ->
  parse_from fbuffer read_res f c = (0, c', msgs) -> read_res <= pos c'.
Proof.
  induction f as [|f IH]; intros c c' msgs Hf; simpl.
  - intros [= <- _]. unfold remaining in Hf. lia.
  - destruct (pos c <? read_res) eqn:E; [|intros [= <- _]; lia].
    destruct (Ascii.eqb _ SP).
    { apply IH.
      match goal with |- context [skip_spaces _ _ ?x] =>
        pose proof (skip_spaces_from_frame fbuffer read_res (remaining read_res x) x)
          as (Hs & _) end.
      unfold skip_spaces, remaining, advance, touch in *; simpl in *; lia. }
    destruct (Ascii.eqb _ LF).
    { apply IH.
      match goal with |- context [skip_newlines _ _ ?x] =>
        pose proof (skip_newlines_from_pos fbuffer read_res (remaining read_res x) x)
          as Hs end.
      unfold skip_newlines, remaining, advance, touch in *; simpl in *; lia. }
    destruct (Ascii.eqb _ HASH).
    { apply IH.
      match goal with |- context [skip_comment _ _ ?x] =>
        pose proof (skip_comment_from_pos fbuffer read_res (remaining read_res x) x)
          as Hs end.
      unfold skip_comment in *.
      destruct (pos (skip_comment_from _ _ _ _) <? read_res);
        unfold remaining, advance, next_line, touch in *; simpl in *; lia. }
    intros H.
    pose proof (parse_record_outcome
                  (touch (RdBuf (pos c)) (touch (RdBuf (pos c)) (touch (RdBuf (pos c)) c))))
      as Ho.
    rewrite H in Ho. destruct Ho as [[Ho _]|[Ho _]]; discriminate.
Qed.

(** X1.  A call of [parse_next_kv] ends in one of three ways: it returns 1
    with the cursor strictly advanced and nothing logged; it returns 0 with
    the cursor at or past [read_res] and nothing logged; or it returns -1
    and logs exactly one error, [Expected '=' after key], with the current
    line counter (and the name of [CONFIG_FILE], whichever file is parsed). *)
Theorem parse_next_kv_outcome (c : cursor) :
  let '(r, c', msgs) := parse_next_kv fbuffer read_res c in
  (r = 1 /\ msgs = [] /\ pos c < pos c') \/
  (r = 0 /\ msgs = [] /\ read_res <= pos c') \/
  (r = -1 /\ msgs = [expected_equals (line c')]).
Proof.
  pose proof (parse_from_outcome (remaining read_res c) c) as Ho.
  pose proof (parse_from_zero (remaining read_res c) c) as Hz.
  pose proof (parse_next_kv_advances fbuffer read_res c) as Ha.
  unfold parse_next_kv in *.
  destruct (parse_from fbuffer read_res (remaining read_res c) c) as [[r c'] msgs].
  destruct Ho as [[-> ->]|[[-> ->]|[-> ->]]].
  - left. repeat split. apply (Ha 1 c' []); [reflexivity | lia].
  - right; left. repeat split. apply (Hz c' []); [lia | reflexivity].
  - right; right. split; reflexivity.
Qed.

End ParserOutcome.

Section ParserBounds.

Variable fbuffer : list ascii.
Variable read_res : Z.
Variable lo : Z.

Let P := near_bounds lo read_res.

Lemma extends_refl (Q : access -> bool) c : extends Q c c.
Proof. exists []. split; [reflexivity | constructor]. Qed.

(** [c1] adds the accesses [new] to [c], and [c'] extends [c1]. *)
Lemma extends_new (Q : access -> bool) new c c1 c' :
  accesses c1 = new ++ accesses c -> Forall (fun a => Q a = true) new ->
  extends Q c1 c' -> extends Q c c'.
Proof.
  intros H1 Hnew (more & H2 & Hmore). exists (more ++ new). split.
  - rewrite H2, H1. apply app_assoc.
  - apply Forall_app. split; assumption.
Qed.

Lemma extends_trans (Q : access -> bool) c c1 c' :
  extends Q c c1 -> extends Q c1 c' -> extends Q c c'.
Proof. intros (new & H1 & Hnew). apply (extends_new Q new); assumption. Qed.

Lemma near_buf off : lo <= off -> off <= read_res -> P (RdBuf off) = true.
Proof. intros. unfold P, near_bounds. apply andb_true_intro. split; apply Z.leb_le; lia. Qed.

Lemma near_idx (i : Z) :
  0 <= i <= 256 -> P (WrKey i) = true /\ P (RdValue i) = true /\ P (WrValue i) = true.
Proof.
  intros. unfold P, near_bounds, MAX_ITEM_LEN.
  repeat split; apply andb_true_intro; split; apply Z.leb_le; lia.
Qed.

(** The accesses [l] are all there is between [c] and [c']. *)
Ltac direct l := exists l; split; [reflexivity | repeat constructor].

(** The accesses [l], then those of the hypothesis [He]. *)
Ltac via He l :=
  match type of He with
  | extends _ ?c1 _ =>
      apply (extends_new P l _ c1); [reflexivity | repeat constructor | exact He]
  end.

Lemma skip_spaces_from_bounds f : forall c,
  lo <= pos c ->
  extends P c (skip_spaces_from fbuffer read_res f c) /\
  (pos c <= read_res -> pos (skip_spaces_from fbuffer read_res f c) <= read_res).
Proof.
  induction f as [|f IH]; intros c Hlo; simpl; [split; [apply extends_refl | auto]|].
  destruct (pos c <? read_res) eqn:E; [|split; [apply extends_refl | auto]].
  assert (Hrd : P (RdBuf (pos c)) = true) by (apply near_buf; lia).
  destruct (Ascii.eqb _ SP).
  - destruct (IH (advance (touch (RdBuf (pos c)) c))) as [He Hp]; [simpl; lia|].
    split; [|intros _; apply Hp; simpl; lia].
    via He [RdBuf (pos c)]; exact Hrd.
  - split; [|auto]. direct [RdBuf (pos c)]; exact Hrd.
Qed.

Lemma skip_newlines_from_bounds f : forall c,
  lo <= pos c ->
  extends P c (skip_newlines_from fbuffer read_res f c) /\
  (pos c <= read_res -> pos (skip_newlines_from fbuffer read_res f c) <= read_res).
Proof.
  induction f as [|f IH]; intros c Hlo; simpl; [split; [apply extends_refl | auto]|].
  destruct (pos c <? read_res) eqn:E; [|split; [apply extends_refl | auto]].
  assert (Hrd : P (RdBuf (pos c)) = true) by (apply near_buf; lia).
  destruct (Ascii.eqb _ LF).
  - destruct (IH (next_line (advance (touch (RdBuf (pos c)) c)))) as [He Hp]; [simpl; lia|].
    split; [|intros _; apply Hp; simpl; lia].
    via He [RdBuf (pos c)]; exact Hrd.
  - split; [|auto]. direct [RdBuf (pos c)]; exact Hrd.
Qed.

Lemma skip_comment_from_bounds f : forall c,
  lo <= pos c ->
  extends P c (skip_comment_from fbuffer read_res f c) /\
  (pos c <= read_res -> pos (skip_comment_from fbuffer read_res f c) <= read_res).
Proof.
  induction f as [|f IH]; intros c Hlo; simpl; [split; [apply extends_refl | auto]|].
  destruct (pos c <? read_res) eqn:E; [|split; [apply extends_refl | auto]].
  assert (Hrd : P (RdBuf (pos c)) = true) by (apply near_buf; lia).
  destruct (Ascii.eqb _ LF).
  - split; [|auto]. direct [RdBuf (pos c)]; exact Hrd.
  - destruct (IH (advance (touch (RdBuf (pos c)) c))) as [He Hp]; [simpl; lia|].
    split; [|intros _; apply Hp; simpl; lia].
    via He [RdBuf (pos c)]; exact Hrd.
Qed.

Lemma scan_key_from_bounds f : forall n c,
  lo <= pos c -> 0 <= n <= 256 ->
  let '(n', c') := scan_key_from fbuffer read_res f n c in
  extends P c c' /\ (pos c <= read_res -> pos c' <= read_res) /\ n <= n' <= 256.
Proof.
  induction f as [|f IH]; intros n c Hlo Hn; simpl;
    [split; [apply extends_refl | split; [auto | lia]]|].
  destruct (pos c <? read_res) eqn:E; simpl;
    [|split; [apply extends_refl | split; [auto | lia]]].
  destruct (n <? MAX_ITEM_LEN) eqn:En;
    [|split; [apply extends_refl | split; [auto | lia]]].
  unfold MAX_ITEM_LEN in En.
  assert (Hrd : P (RdBuf (pos c)) = true) by (apply near_buf; lia).
  destruct (near_idx n) as (Hwk & _); [lia|].
  destruct (Ascii.eqb _ EQUALS).
  { split; [|split; [auto | lia]].
    direct [RdBuf (pos c)]; exact Hrd. }
  destruct (Ascii.eqb _ LF).
  { split; [|split; [auto | lia]].
    direct [RdBuf (pos c); RdBuf (pos c)]; exact Hrd. }
  destruct (Ascii.eqb _ SP).
  { split; [|split; [auto | lia]].
    direct [RdBuf (pos c); RdBuf (pos c); RdBuf (pos c)]; exact Hrd. }
  match goal with |- context [scan_key_from _ _ f (n + 1) ?x] =>
    specialize (IH (n + 1) x); destruct (scan_key_from fbuffer read_res f (n + 1) x)
      as [n' c'] end.
  destruct IH as (He & Hp & Hn'); [simpl; lia | lia |].
  split; [|split; [intros _; apply Hp; simpl; lia | lia]].
  via He [WrKey n; RdBuf (pos c); RdBuf (pos c); RdBuf (pos c); RdBuf (pos c)];
    try exact Hrd; exact Hwk.
Qed.

Lemma scan_value_from_bounds f : forall n c,
  lo <= pos c -> 0 <= n <= 256 ->
  let '(n', c') := scan_value_from fbuffer read_res f n c in
  extends P c c' /\ n <= n' <= 256.
Proof.
  induction f as [|f IH]; intros n c Hlo Hn; simpl; [split; [apply extends_refl | lia]|].
  destruct (pos c <? read_res) eqn:E; simpl; [|split; [apply extends_refl | lia]].
  destruct (n <? MAX_ITEM_LEN) eqn:En; [|split; [apply extends_refl | lia]].
  unfold MAX_ITEM_LEN in En.
  assert (Hrd : P (RdBuf (pos c)) = true) by (apply near_buf; lia).
  destruct (near_idx n) as (_ & _ & Hwv); [lia|].
  destruct (Ascii.eqb _ LF).
  { split; [|lia]. direct [RdBuf (pos c)]; exact Hrd. }
  match goal with |- context [scan_value_from _ _ f (n + 1) ?x] =>
    specialize (IH (n + 1) x); destruct (scan_value_from fbuffer read_res f (n + 1) x)
      as [n' c'] end.
  destruct IH as (He & Hn'); [simpl; lia | lia |].
  split; [|lia].
  via He [WrValue n; RdBuf (pos c); RdBuf (pos c)]; try exact Hrd; exact Hwv.
Qed.

Lemma trim_value_from_bounds f : forall n c,
  0 <= n <= 256 ->
  let '(n', c') := trim_value_from f n c in
  extends P c c' /\ 0 <= n' <= n.
Proof.
  induction f as [|f IH]; intros n c Hn; simpl; [split; [apply extends_refl | lia]|].
  destruct (0 <? n) eqn:E; [|split; [apply extends_refl | lia]].
  destruct (near_idx (n - 1)) as (_ & Hrv & Hwv); [lia|].
  destruct (Ascii.eqb _ SP).
  - match goal with |- context [trim_value_from f (n - 1) ?x] =>
      specialize (IH (n - 1) x); destruct (trim_value_from f (n - 1) x) as [n' c'] end.
    destruct IH as (He & Hn'); [lia|]. split; [|lia].
    via He [WrValue (n - 1); RdValue (n - 1)]; try exact Hrv; exact Hwv.
  - split; [|lia]. direct [RdValue (n - 1)]; exact Hrv.
Qed.

Lemma memmove_accesses_near k :
  0 <= k <= 254 ->
  Forall (fun a => P a = true) (rev (map RdValue (seqZ 1 k) ++ map WrValue (seqZ 0 k))).
Proof.
  intros Hk. apply List.Forall_rev, Forall_app. split; apply List.Forall_forall;
    intros a Ha; apply List.in_map_iff in Ha; destruct Ha as (i & <- & Hi);
    apply list_elem_of_In, elem_of_seqZ in Hi; apply near_idx; lia.
Qed.

Lemma strip_quotes_bounds n c :
  0 <= n <= 256 ->
  let '(n', c') := strip_quotes n c in
  extends P c c' /\ 0 <= n' <= n.
Proof.
  intros Hn. unfold strip_quotes.
  destruct (2 <=? n) eqn:E; [|split; [apply extends_refl | lia]].
  destruct (near_idx 0) as (_ & Hr0 & _); [lia|].
  destruct (near_idx (n - 1)) as (_ & Hr1 & _); [lia|].
  destruct (near_idx (n - 2)) as (_ & _ & Hw2); [lia|].
  unfold read_value. destruct (Ascii.eqb _ DQUOTE).
  - destruct (Ascii.eqb _ DQUOTE).
    + split; [|lia].
      exists (WrValue (n - 2)
                :: rev (map RdValue (seqZ 1 (n - 2)) ++ map WrValue (seqZ 0 (n - 2)))
                ++ [RdValue (n - 1); RdValue 0]).
      split.
      * unfold write_value, memmove_value, touch_all, touch. simpl.
        rewrite <- app_assoc. reflexivity.
      * constructor; [exact Hw2|]. apply Forall_app. split.
        -- apply memmove_accesses_near. lia.
        -- repeat constructor; assumption.
    + split; [|lia].
      direct [RdValue (n - 1); RdValue 0]; assumption.
  - split; [|lia]. direct [RdValue 0]; exact Hr0.
Qed.

End ParserBounds.


Section ParserFrames.

Variable fbuffer : list ascii.
Variable read_res : Z.

Lemma skip_spaces_from_same f : forall c,
  same_key c (skip_spaces_from fbuffer read_res f c) /\
  same_value c (skip_spaces_from fbuffer read_res f c).
Proof.
  induction f as [|f IH]; intros c; simpl; [repeat split|].
  destruct (pos c <? read_res); [|repeat split].
  destruct (Ascii.eqb _ SP); [|repeat split].
  apply (IH (advance (touch (RdBuf (pos c)) c))).
Qed.

Lemma skip_newlines_from_same f : forall c,
  same_key c (skip_newlines_from fbuffer read_res f c) /\
  same_value c (skip_newlines_from fbuffer read_res f c).
Proof.
  induction f as [|f IH]; intros c; simpl; [repeat split|].
  destruct (pos c <? read_res); [|repeat split].
  destruct (Ascii.eqb _ LF); [|repeat split].
  apply (IH (next_line (advance (touch (RdBuf (pos c)) c)))).
Qed.

Lemma skip_comment_from_same f : forall c,
  same_key c (skip_comment_from fbuffer read_res f c) /\
  same_value c (skip_comment_from fbuffer read_res f c).
Proof.
  induction f as [|f IH]; intros c; simpl; [repeat split|].
  destruct (pos c <? read_res); [|repeat split].
  destruct (Ascii.eqb _ LF); [repeat split|].
  apply (IH (advance (touch (RdBuf (pos c)) c))).
Qed.

Lemma scan_key_from_same f : forall n c,
  same_value c (snd (scan_key_from fbuffer read_res f n c)) /\
  key_len (snd (scan_key_from fbuffer read_res f n c)) = key_len c /\
  line (snd (scan_key_from fbuffer read_res f n c)) = line c.
Proof.
  induction f as [|f IH]; intros n c; simpl; [repeat split|].
  destruct ((pos c <? read_res) && (n <? MAX_ITEM_LEN)); [|repeat split].
  repeat (match goal with |- context [if ?b then _ else _] => destruct b end;
          [repeat split|]).
  match goal with |- context [scan_key_from _ _ f (n + 1) ?x] => apply (IH (n + 1) x) end.
Qed.

Lemma scan_value_from_same f : forall n c,
  same_key c (snd (scan_value_from fbuffer read_res f n c)) /\
  line (snd (scan_value_from fbuffer read_res f n c)) = line c.
Proof.
  induction f as [|f IH]; intros n c; simpl; [repeat split|].
  destruct ((pos c <? read_res) && (n <? MAX_ITEM_LEN)); [|repeat split].
  destruct (Ascii.eqb _ LF); [repeat split|].
  match goal with |- context [scan_value_from _ _ f (n + 1) ?x] => apply (IH (n + 1) x) end.
Qed.

Lemma trim_value_from_same f : forall n c,
  same_key c (snd (trim_value_from f n c)) /\
  line (snd (trim_value_from f n c)) = line c.
Proof.
  induction f as [|f IH]; intros n c; simpl; [repeat split|].
  destruct (0 <? n); [|repeat split].
  destruct (Ascii.eqb _ SP); [|repeat split].
  match goal with |- context [trim_value_from f (n - 1) ?x] => apply (IH (n - 1) x) end.
Qed.

Lemma strip_quotes_same n c :
  same_key c (snd (strip_quotes n c)) /\ line (snd (strip_quotes n c)) = line c.
Proof.
  unfold strip_quotes, memmove_value, touch_all, read_value, touch. simpl.
  repeat (match goal with |- context [if ?b then _ else _] => destruct b end;
          try (repeat split)).
Qed.

End ParserFrames.

Section ParserSafety.

Variable fbuffer : list ascii.
Variable read_res : Z.

(** One more access [a], between [c] and a cursor [c1] that differs from
    [c] by that access only. *)
Lemma extends_step (Q : access -> bool) a c c1 :
  accesses c1 = a :: accesses c -> Q a = true -> extends Q c c1.
Proof. intros H Ha. exists [a]. split; [exact H | repeat constructor; exact Ha]. Qed.

Lemma extends_same (Q : access -> bool) c c1 :
  accesses c1 = accesses c -> extends Q c c1.
Proof. intros H. exists []. split; [exact H | constructor]. Qed.

(** Lines 84-126 on a cursor inside the buffer. *)
Lemma parse_record_safe lo c :
  lo <= pos c -> pos c <= read_res ->
  let '(r, c', _) := parse_record fbuffer read_res c in
  extends (near_bounds lo read_res) c c' /\ line c' = line c /\
  0 <= key_len c' <= 256 /\
  ((r = 1 /\ 0 <= value_len c' <= 256) \/ (r = -1 /\ same_value c c')).
Proof.
  intros Hlo Hin. set (Q := near_bounds lo read_res).
  unfold parse_record, scan_key, skip_spaces, scan_value, trim_value.
  pose proof (scan_key_from_bounds fbuffer read_res lo (remaining read_res c) 0 c Hlo
                ltac:(lia)) as HA.
  pose proof (scan_key_from_same fbuffer read_res (remaining read_res c) 0 c) as HA'.
  pose proof (scan_key_from_pos fbuffer read_res (remaining read_res c) 0 c) as HAp.
  destruct (scan_key_from fbuffer read_res (remaining read_res c) 0 c) as [n ck].
  simpl in HA', HAp. destruct HA as (EA & PA & NA). destruct HA' as ((VA & VlA) & KA & LA).
  set (c1 := set_key_len n (write_key n NUL ck)).
  assert (E1 : extends Q c c1).
  { apply (extends_trans Q c ck); [exact EA|].
    apply (extends_step Q (WrKey n)); [reflexivity|].
    apply (near_idx read_res lo n). lia. }
  pose proof (skip_spaces_from_bounds fbuffer read_res lo (remaining read_res c1) c1
                ltac:(simpl; lia)) as (EB & PB).
  pose proof (skip_spaces_from_frame fbuffer read_res (remaining read_res c1) c1)
    as (PB' & LB & _).
  pose proof (skip_spaces_from_same fbuffer read_res (remaining read_res c1) c1)
    as ((KB & KlB) & (VB & VlB)).
  set (c2 := skip_spaces_from fbuffer read_res (remaining read_res c1) c1) in *.
  assert (Hp2 : lo <= pos c2 <= read_res) by (simpl in *; lia).
  unfold peek. set (c3 := touch (RdBuf (pos c2)) c2).
  assert (E3 : extends Q c c3).
  { apply (extends_trans Q c c1); [exact E1|]. apply (extends_trans Q c1 c2); [exact EB|].
    apply (extends_step Q (RdBuf (pos c2))); [reflexivity|].
    apply near_buf; lia. }
  assert (K3 : key_len c3 = n) by (simpl; rewrite KlB; reflexivity).
  assert (L3 : line c3 = line c) by (simpl; rewrite LB; simpl; exact LA).
  destruct (negb _).
  { split; [exact E3|]. split; [exact L3|]. split; [lia|]. right. split; [reflexivity|].
    split; simpl; [rewrite VB | rewrite VlB]; simpl; assumption. }
  set (c3' := advance c3).
  pose proof (skip_spaces_from_bounds fbuffer read_res lo (remaining read_res c3') c3'
                ltac:(simpl; lia)) as (EC & _).
  pose proof (skip_spaces_from_frame fbuffer read_res (remaining read_res c3') c3')
    as (PC & LC & _).
  pose proof (skip_spaces_from_same fbuffer read_res (remaining read_res c3') c3')
    as ((_ & KlC) & _).
  set (c4 := skip_spaces_from fbuffer read_res (remaining read_res c3') c3') in *.
  pose proof (scan_value_from_bounds fbuffer read_res lo (remaining read_res c4) 0 c4
                ltac:(simpl in *; lia) ltac:(lia)) as HD.
  pose proof (scan_value_from_same fbuffer read_res (remaining read_res c4) 0 c4) as HD'.
  destruct (scan_value_from fbuffer read_res (remaining read_res c4) 0 c4) as [m cv].
  simpl in HD'. destruct HD as (ED & ND). destruct HD' as ((_ & KlD) & LD).
  set (c5 := write_value m NUL cv).
  pose proof (trim_value_from_bounds read_res lo (Z.to_nat m) m c5 ltac:(lia)) as HE.
  pose proof (trim_value_from_same (Z.to_nat m) m c5) as HE'.
  destruct (trim_value_from (Z.to_nat m) m c5) as [m' ct].
  simpl in HE'. destruct HE as (EE & NE). destruct HE' as ((_ & KlE) & LE).
  pose proof (strip_quotes_bounds read_res lo m' ct ltac:(lia)) as HF.
  pose proof (strip_quotes_same m' ct) as HF'.
  destruct (strip_quotes m' ct) as [m'' cq].
  simpl in HF'. destruct HF as (EF & NF). destruct HF' as ((_ & KlF) & LF').
  split; [|split; [|split; [|left; split; [reflexivity | simpl; lia]]]].
  - apply (extends_trans Q c c3); [exact E3|].
    apply (extends_trans Q c3 c4); [|].
    { apply (extends_trans Q c3 c3'); [apply extends_same; reflexivity | exact EC]. }
    apply (extends_trans Q c4 cv); [exact ED|].
    apply (extends_trans Q cv c5).
    { apply (extends_step Q (WrValue m)); [reflexivity|].
      apply (near_idx read_res lo m). lia. }
    apply (extends_trans Q c5 ct); [exact EE|].
    apply (extends_trans Q ct cq); [exact EF|].
    apply extends_same. reflexivity.
  - simpl. rewrite LF', LE. simpl. rewrite LD, LC. simpl. exact L3.
  - simpl. rewrite KlF, KlE. simpl. rewrite KlD, KlC. simpl. rewrite KlB. simpl. lia.
Qed.

Lemma parse_from_safe lo f : forall c,
  lo <= pos c ->
  let '(r, c', _) := parse_from fbuffer read_res f c in
  extends (near_bounds lo read_res) c c' /\
  ((r = 1 /\ 0 <= key_len c' <= 256 /\ 0 <= value_len c' <= 256) \/
   (r = -1 /\ 0 <= key_len c' <= 256 /\ same_value c c') \/
   (r = 0 /\ same_key c c' /\ same_value c c')).
Proof.
  set (Q := near_bounds lo read_res).
  induction f as [|f IH]; intros c Hlo; simpl.
  { split; [apply extends_refl | right; right; repeat split]. }
  destruct (pos c <? read_res) eqn:E;
    [|split; [apply extends_refl | right; right; repeat split]].
  assert (Hrd : Q (RdBuf (pos c)) = true) by (apply near_buf; lia).
  set (c1 := touch (RdBuf (pos c)) c).
  assert (E1 : extends Q c c1) by (apply (extends_step Q (RdBuf (pos c))); auto).
  destruct (Ascii.eqb _ SP).
  { unfold skip_spaces.
    set (y := advance c1).
    pose proof (skip_spaces_from_bounds fbuffer read_res lo (remaining read_res y) y
                  ltac:(simpl; lia)) as (Ex & _).
    pose proof (skip_spaces_from_frame fbuffer read_res (remaining read_res y) y)
      as (Px & _).
    pose proof (skip_spaces_from_same fbuffer read_res (remaining read_res y) y)
      as ((Kx & Klx) & (Vx & Vlx)).
    set (x := skip_spaces_from fbuffer read_res (remaining read_res y) y) in *.
    specialize (IH x ltac:(simpl in *; lia)).
    destruct (parse_from fbuffer read_res f x) as [[r c'] msgs].
    destruct IH as (Er & Hr). split.
    - apply (extends_trans Q c c1); [exact E1|].
      apply (extends_trans Q c1 y); [apply extends_same; reflexivity|].
      apply (extends_trans Q y x); assumption.
    - unfold same_key, same_value in *. simpl in *.
      destruct Hr as [H|[(H1 & H2 & H3 & H4)|(H1 & (H2 & H3) & H4 & H5)]];
        [left; exact H | right; left | right; right]; repeat split;
        first [lia | congruence]. }
  set (c2 := touch (RdBuf (pos c)) c1).
  assert (E2 : extends Q c c2).
  { apply (extends_trans Q c c1); [exact E1|].
    apply (extends_step Q (RdBuf (pos c))); auto. }
  destruct (Ascii.eqb _ LF).
  { unfold skip_newlines.
    set (y := advance c2).
    pose proof (skip_newlines_from_bounds fbuffer read_res lo (remaining read_res y) y
                  ltac:(simpl; lia)) as (Ex & _).
    pose proof (skip_newlines_from_pos fbuffer read_res (remaining read_res y) y) as Px.
    pose proof (skip_newlines_from_same fbuffer read_res (remaining read_res y) y)
      as ((Kx & Klx) & (Vx & Vlx)).
    set (x := skip_newlines_from fbuffer read_res (remaining read_res y) y) in *.
    specialize (IH x ltac:(simpl in *; lia)).
    destruct (parse_from fbuffer read_res f x) as [[r c'] msgs].
    destruct IH as (Er & Hr). split.
    - apply (extends_trans Q c c2); [exact E2|].
      apply (extends_trans Q c2 y); [apply extends_same; reflexivity|].
      apply (extends_trans Q y x); assumption.
    - unfold same_key, same_value in *. simpl in *.
      destruct Hr as [H|[(H1 & H2 & H3 & H4)|(H1 & (H2 & H3) & H4 & H5)]];
        [left; exact H | right; left | right; right]; repeat split;
        first [lia | congruence]. }
  set (c3 := touch (RdBuf (pos c)) c2).
  assert (E3 : extends Q c c3).
  { apply (extends_trans Q c c2); [exact E2|].
    apply (extends_step Q (RdBuf (pos c))); auto. }
  destruct (Ascii.eqb _ HASH).
  { unfold skip_comment.
    set (y := advance c3).
    pose proof (skip_comment_from_bounds fbuffer read_res lo (remaining read_res y) y
                  ltac:(simpl; lia)) as (Ex & _).
    pose proof (skip_comment_from_pos fbuffer read_res (remaining read_res y) y) as Px.
    pose proof (skip_comment_from_same fbuffer read_res (remaining read_res y) y)
      as ((Kx & Klx) & (Vx & Vlx)).
    set (x := skip_comment_from fbuffer read_res (remaining read_res y) y) in *.
    set (z := next_line (if pos x <? read_res then advance x else x)).
    assert (Ez : extends Q x z)
      by (apply extends_same; subst z; destruct (pos x <? read_res); reflexivity).
    assert (Hz : lo <= pos z /\ key z = key x /\ key_len z = key_len x /\
                 value z = value x /\ value_len z = value_len x).
    { subst z. destruct (pos x <? read_res); simpl in *; repeat split; lia. }
    destruct Hz as (Pz & Kz & Klz & Vz & Vlz).
    specialize (IH z Pz).
    destruct (parse_from fbuffer read_res f z) as [[r c'] msgs].
    destruct IH as (Er & Hr). split.
    - apply (extends_trans Q c c3); [exact E3|].
      apply (extends_trans Q c3 y); [apply extends_same; reflexivity|].
      apply (extends_trans Q y x); [assumption|].
      apply (extends_trans Q x z); assumption.
    - unfold same_key, same_value in *. simpl in *.
      destruct Hr as [H|[(H1 & H2 & H3 & H4)|(H1 & (H2 & H3) & H4 & H5)]];
        [left; exact H | right; left | right; right]; repeat split;
        first [lia | congruence]. }
  pose proof (parse_record_safe lo c3 ltac:(simpl; lia) ltac:(simpl; lia)) as Hrec.
  destruct (parse_record fbuffer read_res c3) as [[r c'] msgs].
  destruct Hrec as (Er & _ & Hk & Hr). split.
  - apply (extends_trans Q c c3); assumption.
  - destruct Hr as [(-> & Hv)|(-> & Hv)]; [left; auto|].
    right; left. repeat split; try lia; apply Hv.
Qed.

(** X2.  Every access of a call of [parse_next_kv] is at most one element
    past its object: it reads [fbuffer] only at offsets from the cursor it
    was given up to [read_res] (inclusive), and touches [key] and [value]
    only at indices 0 to 256 (inclusive). *)
Theorem parse_next_kv_accesses_near (c : cursor) :
  extends (near_bounds (pos c) read_res) c (snd (fst (parse_next_kv fbuffer read_res c))).
Proof.
  pose proof (parse_from_safe (pos c) (remaining read_res c) c ltac:(lia)) as H.
  unfold parse_next_kv.
  destruct (parse_from fbuffer read_res (remaining read_res c) c) as [[r c'] msgs].
  apply H.
Qed.

(** X3.  What a call leaves in the caller's length variables and scratch
    arrays: after a record (1) both lengths are between 0 and 256; after a
    parse error (-1) [key_len] is between 0 and 256 and [value], [value_len]
    are untouched; at the end of the buffer (0) [key], [key_len], [value] and
    [value_len] are all untouched. *)
Theorem parse_next_kv_lengths (c : cursor) :
  let '(r, c', _) := parse_next_kv fbuffer read_res c in
  (r = 1 /\ 0 <= key_len c' <= 256 /\ 0 <= value_len c' <= 256) \/
  (r = -1 /\ 0 <= key_len c' <= 256 /\ same_value c c') \/
  (r = 0 /\ same_key c c' /\ same_value c c').
Proof.
  pose proof (parse_from_safe (pos c) (remaining read_res c) c ltac:(lia)) as H.
  unfold parse_next_kv.
  destruct (parse_from fbuffer read_res (remaining read_res c) c) as [[r c'] msgs].
  apply H.
Qed.

End ParserSafety.

(* ===================================================================== *)
(** * The parser on a well-formed line *)
(* ===================================================================== *)

Lemma byte_at_app_l (a b : list ascii) (i : Z) :
  0 <= i < Z.of_nat (length a) -> byte_at (a ++ b) i = byte_at a i.
Proof.
  intros Hi. unfold byte_at. destruct (i <? 0) eqn:E; [lia|].
  rewrite lookup_app_l by lia. reflexivity.
Qed.

Lemma byte_at_app_r (a b : list ascii) (i : Z) :
  Z.of_nat (length a) <= i -> byte_at (a ++ b) i = byte_at b (i - Z.of_nat (length a)).
Proof.
  intros Hi. unfold byte_at.
  destruct (i <? 0) eqn:E; [lia|]. destruct (i - _ <? 0) eqn:E'; [lia|].
  rewrite lookup_app_r by lia. do 2 f_equal. lia.
Qed.

Lemma byte_at_repeat (x : ascii) (n : nat) (i : Z) :
  0 <= i < Z.of_nat n -> byte_at (repeat x n) i = x.
Proof.
  intros Hi. unfold byte_at. destruct (i <? 0) eqn:E; [lia|].
  assert (H : forall m k, (k < m)%nat -> repeat x m !! k = Some x).
  { induction m as [|m IH]; intros k Hk; [lia|].
    destruct k as [|k]; simpl; [reflexivity | apply IH; lia]. }
  rewrite H by lia. reflexivity.
Qed.

Lemma byte_at_spelled fbuffer p l i :
  spelled_at fbuffer p l -> 0 <= i < Z.of_nat (length l) ->
  byte_at fbuffer (p + i) = byte_at l i.
Proof.
  intros [Hp Hl] Hi.
  transitivity (byte_at (firstn (length l) (skipn (Z.to_nat p) fbuffer)) i);
    [|rewrite Hl; reflexivity].
  unfold byte_at.
  destruct (p + i <? 0) eqn:E; [lia|]. destruct (i <? 0) eqn:E'; [lia|].
  rewrite lookup_take_lt by lia. rewrite lookup_drop. do 2 f_equal. lia.
Qed.

(** Two arrays with the same first [n] bytes. *)
Lemma firstn_byte_at (n : nat) (a : list ascii) (l : list ascii) :
  length l = n -> (n <= length a)%nat ->
  (forall j, 0 <= j < Z.of_nat n -> byte_at a j = byte_at l j) ->
  firstn n a = l.
Proof.
  intros Hl Ha H. apply list_eq. intros i.
  destruct (Nat.lt_ge_cases i n) as [Hi|Hi].
  - rewrite lookup_take_lt by lia.
    specialize (H (Z.of_nat i) ltac:(lia)). unfold byte_at in H.
    destruct (Z.of_nat i <? 0) eqn:E; [lia|]. rewrite Nat2Z.id in H.
    destruct (lookup_lt_is_Some_2 a i ltac:(lia)) as [x Hx].
    destruct (lookup_lt_is_Some_2 l i ltac:(lia)) as [y Hy].
    rewrite Hx, Hy in *. simpl in H. congruence.
  - rewrite lookup_take_ge by lia. symmetry. apply lookup_ge_None. lia.
Qed.

Section ParserRuns.

Variable fbuffer : list ascii.
Variable read_res : Z.

Ltac step_cursor :=
  unfold remaining, peek, advance, next_line, touch, write_key, write_value,
    read_value, set_key_len, set_value_len in *; simpl in *.

(** The key loop stops, without copying, in front of [=], a line feed or
    a space. *)
Lemma scan_key_stop n c :
  key_byte (byte_at fbuffer (pos c)) = false ->
  exists c', scan_key fbuffer read_res n c = (n, c') /\
             pos c' = pos c /\ line c' = line c /\ key c' = key c /\ value c' = value c.
Proof.
  intros Hstop. rewrite scan_key_eq.
  destruct ((pos c <? read_res) && (n <? MAX_ITEM_LEN)); [|exists c; auto].
  cbv zeta. unfold key_byte in Hstop.
  destruct (Ascii.eqb _ EQUALS); [eexists; split; [reflexivity | auto]|].
  destruct (Ascii.eqb _ LF); [eexists; split; [reflexivity | auto]|].
  destruct (Ascii.eqb _ SP); [eexists; split; [reflexivity | auto]|].
  discriminate Hstop.
Qed.

(** [a] spaces, then something else or the end of the buffer. *)
Lemma skip_spaces_run a : forall c,
  pos c + Z.of_nat a <= read_res ->
  (forall i, 0 <= i < Z.of_nat a -> byte_at fbuffer (pos c + i) = SP) ->
  (pos c + Z.of_nat a < read_res -> byte_at fbuffer (pos c + Z.of_nat a) <> SP) ->
  pos (skip_spaces fbuffer read_res c) = pos c + Z.of_nat a.
Proof.
  induction a as [|a IH]; intros c Hr Hsp Hend; rewrite skip_spaces_eq.
  - rewrite Z.add_0_r in *. destruct (pos c <? read_res) eqn:E; [|lia].
    unfold peek. destruct (Ascii.eqb_spec (byte_at fbuffer (pos c)) SP) as [Hs|_].
    + exfalso. apply Hend; [lia | exact Hs].
    + reflexivity.
  - replace (pos c <? read_res) with true by lia. unfold peek.
    rewrite <- (Z.add_0_r (pos c)) at 1. rewrite Hsp by lia.
    change (Ascii.eqb SP SP) with true. cbv iota.
    rewrite IH; step_cursor; try lia.
    + intros i Hi. replace (pos c + 1 + i) with (pos c + (i + 1)) by lia.
      apply Hsp. lia.
    + intros H. replace (pos c + 1 + Z.of_nat a) with (pos c + Z.of_nat (S a)) by lia.
      apply Hend. lia.
Qed.

Lemma scan_value_eq n c :
  scan_value fbuffer read_res n c =
  if (pos c <? read_res) && (n <? MAX_ITEM_LEN) then
    let ch := byte_at fbuffer (pos c) in
    if Ascii.eqb ch LF then (n, touch (RdBuf (pos c)) c)
    else scan_value fbuffer read_res (n + 1)
           (advance (write_value n ch (touch (RdBuf (pos c)) (touch (RdBuf (pos c)) c))))
  else (n, c).
Proof.
  unfold scan_value at 1.
  destruct (remaining read_res c) as [|k] eqn:Ek; simpl.
  - destruct (pos c <? read_res) eqn:E; [step_cursor; lia | reflexivity].
  - destruct ((pos c <? read_res) && (n <? MAX_ITEM_LEN)); [|reflexivity].
    destruct (Ascii.eqb _ LF); [reflexivity|].
    apply scan_value_from_enough. step_cursor; lia.
Qed.

(** [k] iterations of the value loop over [k] bytes other than a line
    feed: they land in [value[n .. n+k-1]], nothing below [n] changes. *)
Lemma scan_value_run k : forall n c,
  0 <= n -> n + Z.of_nat k <= MAX_ITEM_LEN ->
  0 <= pos c -> pos c + Z.of_nat k <= read_res ->
  length (value c) = 256%nat ->
  (forall i, 0 <= i < Z.of_nat k -> byte_at fbuffer (pos c + i) <> LF) ->
  exists cv,
    scan_value fbuffer read_res n c = scan_value fbuffer read_res (n + Z.of_nat k) cv /\
    pos cv = pos c + Z.of_nat k /\ line cv = line c /\
    key cv = key c /\ key_len cv = key_len c /\
    length (value cv) = 256%nat /\
    (forall j, 0 <= j < n -> byte_at (value cv) j = byte_at (value c) j) /\
    (forall j, n <= j < n + Z.of_nat k ->
               byte_at (value cv) j = byte_at fbuffer (pos c + (j - n))).
Proof.
  unfold MAX_ITEM_LEN.
  induction k as [|k IH]; intros n c Hn Hk Hp Hr Hlen Hbytes.
  - exists c. rewrite Z.add_0_r. repeat split; auto; try lia.
  - rewrite scan_value_eq. unfold MAX_ITEM_LEN.
    replace (pos c <? read_res) with true by lia.
    replace (n <? 256) with true by lia. cbv zeta. simpl andb.
    destruct (Ascii.eqb_spec (byte_at fbuffer (pos c)) LF) as [Hl|_].
    { exfalso. apply (Hbytes 0); [lia|]. rewrite Z.add_0_r. exact Hl. }
    set (c' := advance (write_value n _ _)).
    destruct (IH (n + 1) c')
      as (cv & Hrun & Hpos & Hline & Hkey & Hkl & Hl & Hlow & Hhigh).
    + lia.
    + lia.
    + subst c'. step_cursor. lia.
    + subst c'. step_cursor. lia.
    + subst c'. step_cursor. rewrite store_at_length. assumption.
    + intros i Hi. subst c'. step_cursor.
      replace (pos c + 1 + i) with (pos c + (i + 1)) by lia. apply Hbytes. lia.
    + exists cv. rewrite Hrun, Hpos, Hline, Hkey, Hkl.
      replace (n + 1 + Z.of_nat k) with (n + Z.of_nat (S k)) by lia.
      subst c'. step_cursor. repeat split; auto; try lia.
      * intros j Hj. rewrite Hlow by lia. apply byte_at_store_other; lia.
      * intros j Hj. destruct (Z.eq_dec j n) as [->|Hne].
        -- rewrite Hlow by lia. rewrite byte_at_store_same by lia.
           f_equal. lia.
        -- rewrite Hhigh by lia. f_equal. lia.
Qed.

(** The value loop stops, without copying, in front of a line feed. *)
Lemma scan_value_stop n c :
  byte_at fbuffer (pos c) = LF ->
  exists c', scan_value fbuffer read_res n c = (n, c') /\
             pos c' = pos c /\ line c' = line c /\ key c' = key c /\
             key_len c' = key_len c /\ value c' = value c.
Proof.
  intros Hstop. rewrite scan_value_eq.
  destruct ((pos c <? read_res) && (n <? MAX_ITEM_LEN)); [|exists c; repeat split].
  cbv zeta. rewrite Hstop. change (Ascii.eqb LF LF) with true.
  eexists. split; [reflexivity | repeat split].
Qed.

(** Trimming [b] trailing spaces: the length drops by [b], the bytes below
    stay, and [value[n-b]] holds the terminator. *)
Lemma trim_value_run b : forall f n c,
  (b <= f)%nat -> 0 <= n - Z.of_nat b -> n <= Z.of_nat (length (value c)) ->
  (forall j, n - Z.of_nat b <= j < n -> byte_at (value c) j = SP) ->
  (0 < n - Z.of_nat b -> byte_at (value c) (n - Z.of_nat b - 1) <> SP) ->
  exists c',
    trim_value_from f n c = (n - Z.of_nat b, c') /\
    pos c' = pos c /\ line c' = line c /\ key c' = key c /\ key_len c' = key_len c /\
    length (value c') = length (value c) /\
    (forall j, 0 <= j < n - Z.of_nat b -> byte_at (value c') j = byte_at (value c) j) /\
    ((0 < b)%nat -> byte_at (value c') (n - Z.of_nat b) = NUL) /\
    ((b = 0)%nat -> value c' = value c).
Proof.
  induction b as [|b IH]; intros f n c Hf Hn Hlen Hsp Hend.
  - rewrite Z.sub_0_r in *. destruct f as [|f]; simpl.
    { exists c. repeat split; auto. lia. }
    destruct (0 <? n) eqn:E; [|exists c; repeat split; auto; lia].
    destruct (Ascii.eqb_spec (byte_at (value c) (n - 1)) SP) as [Hs|_].
    { exfalso. apply Hend; [lia | exact Hs]. }
    eexists. split; [reflexivity|]. simpl. repeat split; auto. lia.
  - destruct f as [|f]; [lia|]. simpl.
    replace (0 <? n) with true by lia.
    rewrite (Hsp (n - 1)) by lia. change (Ascii.eqb SP SP) with true. cbv iota.
    set (c1 := write_value (n - 1) NUL _).
    assert (Hv1 : value c1 = store_at (value c) (n - 1) NUL) by reflexivity.
    destruct (IH f (n - 1) c1) as (c' & Hrun & Hp & Hl & Hk & Hkl & Hlen' & Hlow & Hnul & Hsame).
    + lia.
    + lia.
    + rewrite Hv1, store_at_length. lia.
    + intros j Hj. rewrite Hv1, byte_at_store_other by lia. apply Hsp. lia.
    + intros H. rewrite Hv1, byte_at_store_other by lia.
      replace (n - 1 - Z.of_nat b - 1) with (n - Z.of_nat (S b) - 1) by lia.
      apply Hend. lia.
    + exists c'. replace (n - Z.of_nat (S b)) with (n - 1 - Z.of_nat b) by lia.
      rewrite Hrun, Hp, Hl, Hk, Hkl, Hlen', Hv1, store_at_length.
      repeat split; auto; try lia.
      * intros j Hj. rewrite Hlow by lia. rewrite Hv1. apply byte_at_store_other; lia.
      * intros _. destruct b as [|b].
        -- rewrite Hsame by reflexivity. rewrite Hv1, Z.sub_0_r.
           apply byte_at_store_same. lia.
        -- apply Hnul. lia.
Qed.

(** Lines 118-122 leave a value alone that is not enclosed in quotes. *)
Lemma strip_quotes_plain n c :
  (2 <=? n) && Ascii.eqb (byte_at (value c) 0) DQUOTE &&
  Ascii.eqb (byte_at (value c) (n - 1)) DQUOTE = false ->
  exists c', strip_quotes n c = (n, c') /\
             pos c' = pos c /\ line c' = line c /\ key c' = key c /\
             key_len c' = key_len c /\ value c' = value c.
Proof.
  intros H. unfold strip_quotes, read_value.
  destruct (2 <=? n); [|exists c; repeat split].
  destruct (Ascii.eqb (byte_at (value c) 0) DQUOTE);
    [|eexists; split; [reflexivity | repeat split]].
  simpl in *. rewrite H. eexists; split; [reflexivity | repeat split].
Qed.

End ParserRuns.

Lemma forallb_byte_at (Q : ascii -> bool) (l : list ascii) (i : Z) :
  forallb Q l = true -> 0 <= i < Z.of_nat (length l) -> Q (byte_at l i) = true.
Proof.
  intros H Hi. rewrite forallb_forall in H. apply H. unfold byte_at.
  destruct (i <? 0) eqn:E; [lia|].
  destruct (lookup_lt_is_Some_2 l (Z.to_nat i) ltac:(lia)) as [x Hx].
  rewrite Hx. simpl. apply list_elem_of_In. apply list_elem_of_lookup. eauto.
Qed.

Lemma byte_at_hd (l : list ascii) : byte_at l 0 = hd NUL l.
Proof. destruct l; reflexivity. Qed.

Lemma byte_at_last (l : list ascii) :
  l <> [] -> byte_at l (Z.of_nat (length l) - 1) = List.last l NUL.
Proof.
  induction l as [|x l IH]; intros Hne; [contradiction|].
  destruct l as [|y l]; [reflexivity|].
  change (List.last (x :: y :: l) NUL) with (List.last (y :: l) NUL).
  rewrite <- IH by discriminate.
  change (x :: y :: l) with ([x] ++ y :: l) at 1.
  rewrite byte_at_app_r by (simpl; lia). f_equal. simpl length. lia.
Qed.

(** Where the parts of a written record lie. *)
Lemma record_line_at k a1 a2 v a3 :
  let L := record_line k a1 a2 v a3 in
  let lk := Z.of_nat (length k) in
  let lv := Z.of_nat (length v) in
  let o2 := lk + Z.of_nat a1 in
  let o3 := o2 + 1 + Z.of_nat a2 in
  let o5 := o3 + lv + Z.of_nat a3 in
  Z.of_nat (length L) = o5 + 1 /\
  (forall i, 0 <= i < lk -> byte_at L i = byte_at k i) /\
  (forall i, lk <= i < o2 -> byte_at L i = SP) /\
  byte_at L o2 = EQUALS /\
  (forall i, o2 + 1 <= i < o3 -> byte_at L i = SP) /\
  (forall i, 0 <= i < lv -> byte_at L (o3 + i) = byte_at v i) /\
  (forall i, o3 + lv <= i < o5 -> byte_at L i = SP) /\
  byte_at L o5 = LF.
Proof.
  intros L lk lv o2 o3 o5. subst L. unfold record_line.
  assert (Hrep : forall n, Z.of_nat (length (repeat SP n)) = Z.of_nat n)
    by (intros; rewrite repeat_length; reflexivity).
  assert (H1 : Z.of_nat (length [EQUALS]) = 1) by reflexivity.
  assert (H2 : Z.of_nat (length [LF]) = 1) by reflexivity.
  repeat split.
  - rewrite !length_app, !repeat_length. simpl length. lia.
  - intros i Hi. rewrite byte_at_app_l by lia. reflexivity.
  - intros i Hi. rewrite byte_at_app_r by lia.
    rewrite byte_at_app_l by (rewrite Hrep; lia). apply byte_at_repeat. lia.
  - rewrite byte_at_app_r by lia. rewrite byte_at_app_r by (rewrite Hrep; lia).
    rewrite byte_at_app_l by (rewrite Hrep, H1; lia).
    rewrite Hrep. replace (o2 - Z.of_nat (length k) - Z.of_nat a1) with 0 by lia.
    reflexivity.
  - intros i Hi. rewrite byte_at_app_r by lia. rewrite byte_at_app_r by (rewrite Hrep; lia).
    rewrite byte_at_app_r by (rewrite Hrep, H1; lia).
    rewrite byte_at_app_l by (rewrite !Hrep, H1; lia). apply byte_at_repeat.
    rewrite Hrep, H1. lia.
  - intros i Hi. rewrite byte_at_app_r by lia. rewrite byte_at_app_r by (rewrite Hrep; lia).
    rewrite byte_at_app_r by (rewrite Hrep, H1; lia).
    rewrite byte_at_app_r by (rewrite !Hrep, H1; lia).
    rewrite byte_at_app_l by (rewrite !Hrep, H1; lia). f_equal.
    rewrite !Hrep, H1. lia.
  - intros i Hi. rewrite byte_at_app_r by lia. rewrite byte_at_app_r by (rewrite Hrep; lia).
    rewrite byte_at_app_r by (rewrite Hrep, H1; lia).
    rewrite byte_at_app_r by (rewrite !Hrep, H1; lia).
    rewrite byte_at_app_r by (rewrite !Hrep, H1; lia).
    rewrite byte_at_app_l by (rewrite !Hrep, H1; lia). apply byte_at_repeat.
    rewrite !Hrep, H1. lia.
  - rewrite byte_at_app_r by lia. rewrite byte_at_app_r by (rewrite Hrep; lia).
    rewrite byte_at_app_r by (rewrite Hrep, H1; lia).
    rewrite byte_at_app_r by (rewrite !Hrep, H1; lia).
    rewrite byte_at_app_r by (rewrite !Hrep, H1; lia).
    rewrite byte_at_app_r by (rewrite !Hrep, H1; lia).
    rewrite !Hrep, H1.
    replace (o5 - _ - _ - _ - _ - _ - _) with 0 by lia. reflexivity.
Qed.

(** Lines 118-122 on a value enclosed in quotes: the bytes between the
    quotes move one place down and the terminator follows them. *)
Lemma strip_quotes_quoted n c :
  2 <= n <= Z.of_nat (length (value c)) ->
  byte_at (value c) 0 = DQUOTE -> byte_at (value c) (n - 1) = DQUOTE ->
  exists c', strip_quotes n c = (n - 2, c') /\
             pos c' = pos c /\ line c' = line c /\ key c' = key c /\
             key_len c' = key_len c /\ length (value c') = length (value c) /\
             (forall j, 0 <= j < n - 2 -> byte_at (value c') j = byte_at (value c) (j + 1)) /\
             byte_at (value c') (n - 2) = NUL.
Proof.
  intros Hn H0 H1. unfold strip_quotes, read_value.
  replace (2 <=? n) with true by lia. simpl fst. simpl snd.
  cbv beta iota zeta. simpl value. rewrite H0, H1.
  change (Ascii.eqb DQUOTE DQUOTE) with true. cbv iota.
  eexists. split; [reflexivity|].
  set (k := Z.to_nat (n - 2)).
  set (v := value c) in *.
  assert (Hlen : length (firstn k (skipn 1 v) ++ skipn k v) = length v).
  { rewrite length_app, length_take, !length_drop. lia. }
  unfold write_value, memmove_value, touch_all, touch. simpl.
  fold v. fold k.
  repeat split.
  - rewrite store_at_length. exact Hlen.
  - intros j Hj. rewrite byte_at_store_other by lia.
    rewrite byte_at_app_l by (rewrite length_take, length_drop; lia).
    unfold byte_at. destruct (j <? 0) eqn:E; [lia|]. destruct (j + 1 <? 0) eqn:E'; [lia|].
    rewrite lookup_take_lt by lia. rewrite lookup_drop. do 2 f_equal. lia.
  - apply byte_at_store_same. rewrite Hlen. lia.
Qed.

Section RoundTrip.

Variable fbuffer : list ascii.
Variable read_res : Z.

(** A written record up to the trimming of the value: the cursor [ct] that
    reaches lines 118-122 holds the key, and the value as written. *)
Lemma parse_written_upto_trim (k : list ascii) (a1 a2 : nat) (v : list ascii) (a3 : nat)
    (c : cursor) :
  spelled_at fbuffer (pos c) (record_line k a1 a2 v a3) ->
  pos c + Z.of_nat (length (record_line k a1 a2 v a3)) <= read_res ->
  length (key c) = 256%nat -> length (value c) = 256%nat ->
  plain_key k = true -> raw_value v a3 = true ->
  exists ct,
    parse_next_kv fbuffer read_res c =
      (let (n, cq) := strip_quotes (Z.of_nat (length v)) ct in
       (1, advance (set_value_len n cq), [])) /\
    pos ct + 1 = pos c + Z.of_nat (length (record_line k a1 a2 v a3)) /\
    line ct = line c /\
    key_len ct = Z.of_nat (length k) /\ firstn (length k) (key ct) = k /\
    byte_at (key ct) (Z.of_nat (length k)) = NUL /\
    length (value ct) = 256%nat /\
    (forall j, 0 <= j < Z.of_nat (length v) -> byte_at (value ct) j = byte_at v j) /\
    byte_at (value ct) (Z.of_nat (length v)) = NUL.
Proof.
  intros Hsp Hfit Hklen Hvlen Hpk Hpv.
  pose proof (record_line_at k a1 a2 v a3) as HL. cbv zeta in HL.
  set (L := record_line k a1 a2 v a3) in *.
  set (lk := Z.of_nat (length k)) in *. set (lv := Z.of_nat (length v)) in *.
  destruct HL as (HLlen & Lk & Ls1 & Leq & Ls2 & Lv & Ls3 & Llf).
  assert (Hp0 : 0 <= pos c) by apply Hsp.
  assert (Hat : forall i, 0 <= i < Z.of_nat (length L) ->
                          byte_at fbuffer (pos c + i) = byte_at L i)
    by (intros; apply byte_at_spelled; assumption).
  (* the hypotheses on the key and the value *)
  unfold plain_key in Hpk.
  apply andb_prop in Hpk. destruct Hpk as [Hpk Hhash].
  apply andb_prop in Hpk. destruct Hpk as [Hpk Hkeyb].
  apply andb_prop in Hpk. destruct Hpk as [Hpk Hk255].
  unfold raw_value in Hpv.
  apply andb_prop in Hpv. destruct Hpv as [Hpv Hlast].
  apply andb_prop in Hpv. destruct Hpv as [Hpv Hhd].
  apply andb_prop in Hpv. destruct Hpv as [Hpv Hnl].
  apply andb_prop in Hpv. destruct Hpv as [Hpv Hor].
  assert (Hlk : 1 <= lk <= 255).
  { subst lk. apply negb_true_iff, Nat.eqb_neq in Hpk. apply Nat.leb_le in Hk255. lia. }
  assert (Hlv : 0 <= lv /\ lv + Z.of_nat a3 <= 255 /\ (lv = 0 -> a3 = 0%nat)).
  { subst lv. apply Nat.leb_le in Hpv. repeat split; try lia. intros Hz.
    apply orb_prop in Hor. destruct Hor as [Hor|Hor].
    - apply negb_true_iff, Nat.eqb_neq in Hor. lia.
    - apply Nat.eqb_eq in Hor. exact Hor. }
  destruct Hlv as (Hlv0 & Hlv1 & Hlv2).
  assert (Hkb : forall i, 0 <= i < lk -> key_byte (byte_at fbuffer (pos c + i)) = true).
  { intros i Hi. rewrite Hat by lia. rewrite Lk by lia.
    apply forallb_byte_at; [exact Hkeyb | lia]. }
  pose proof (Hkb 0 ltac:(lia)) as Hk0. rewrite Z.add_0_r in Hk0.
  destruct (key_byte_spec _ Hk0) as (_ & E2 & E3).
  assert (Eh : Ascii.eqb (byte_at fbuffer (pos c)) HASH = false).
  { rewrite <- (Z.add_0_r (pos c)). rewrite Hat, Lk by lia. rewrite byte_at_hd.
    apply negb_true_iff. exact Hhash. }
  unfold parse_next_kv.
  destruct (remaining read_res c) as [|f] eqn:Ef; [unfold remaining in Ef; lia|].
  simpl. replace (pos c <? read_res) with true by lia.
  rewrite E3, E2, Eh. unfold parse_record.
  set (c3 := touch _ (touch _ (touch _ c))).
  (* the key *)
  destruct (scan_key_run fbuffer read_res (length k) 0 c3)
    as (ck & Hrun & Pk & Lnk & Hl & _ & Hkey);
    try (unfold MAX_ITEM_LEN; simpl; lia); try assumption.
  simpl in Pk, Lnk. fold lk in Hrun, Pk, Hkey.
  assert (Bk : key_byte (byte_at fbuffer (pos ck)) = false).
  { rewrite Pk, Hat by lia. destruct a1 as [|a1].
    - replace lk with (lk + Z.of_nat 0) by lia. rewrite Leq. reflexivity.
    - rewrite Ls1 by lia. reflexivity. }
  destruct (scan_key_stop fbuffer read_res (0 + lk) ck Bk)
    as (ck' & Hstop & Pk' & Lnk' & Kk' & _).
  assert (Hscan : scan_key fbuffer read_res 0 c3 = (0 + lk, ck'))
    by (rewrite Hrun; exact Hstop).
  pose proof (scan_key_from_same fbuffer read_res (remaining read_res c3) 0 c3)
    as ((Vk & Vlk) & _).
  unfold scan_key in Hscan. rewrite Hscan in Vk, Vlk. simpl in Vk, Vlk.
  fold (scan_key fbuffer read_res 0 c3) in Hscan. rewrite Hscan.
  replace (0 + lk) with lk in * by lia.
  set (c1 := set_key_len lk (write_key lk NUL ck')).
  assert (P1 : pos c1 = pos c + lk) by (subst c1; simpl; lia).
  assert (Ln1 : line c1 = line c) by (subst c1; simpl; congruence).
  assert (K1 : key c1 = store_at (key ck) lk NUL) by (subst c1; simpl; congruence).
  assert (Kl1 : key_len c1 = lk) by reflexivity.
  assert (V1 : value c1 = value c) by (subst c1; simpl; congruence).
  clearbody c1.
  (* spaces, the equals sign, spaces *)
  pose proof (skip_spaces_run fbuffer read_res a1 c1) as P2.
  pose proof (skip_spaces_from_frame fbuffer read_res (remaining read_res c1) c1)
    as (_ & Ln2 & K2 & Kl2 & V2).
  fold (skip_spaces fbuffer read_res c1) in Ln2, K2, Kl2, V2.
  set (c2 := skip_spaces fbuffer read_res c1) in *.
  assert (B2 : byte_at fbuffer (pos c + (lk + Z.of_nat a1)) = EQUALS)
    by (rewrite Hat by lia; exact Leq).
  rewrite P1 in P2. specialize (P2 ltac:(lia)).
  assert (P2' : pos c2 = pos c + (lk + Z.of_nat a1)).
  { replace (pos c + (lk + Z.of_nat a1)) with (pos c + lk + Z.of_nat a1) by lia.
    apply P2.
    - intros i Hi. replace (pos c + lk + i) with (pos c + (lk + i)) by lia.
      rewrite Hat by lia. apply Ls1. lia.
    - intros _. replace (pos c + lk + Z.of_nat a1) with (pos c + (lk + Z.of_nat a1)) by lia.
      rewrite B2. discriminate. }
  clear P2. clearbody c2.
  unfold peek at 1. rewrite P2', B2.
  change (negb (Ascii.eqb EQUALS EQUALS)) with false. cbv iota.
  set (c3' := advance (touch _ c2)).
  assert (P3 : pos c3' = pos c + (lk + Z.of_nat a1) + 1) by (subst c3'; simpl; lia).
  pose proof (skip_spaces_run fbuffer read_res a2 c3') as P4.
  pose proof (skip_spaces_from_frame fbuffer read_res (remaining read_res c3') c3')
    as (_ & Ln4 & K4 & Kl4 & V4).
  fold (skip_spaces fbuffer read_res c3') in Ln4, K4, Kl4, V4.
  set (c4 := skip_spaces fbuffer read_res c3') in *.
  set (o3 := lk + Z.of_nat a1 + 1 + Z.of_nat a2) in *.
  assert (Hvb : forall i, 0 <= i < lv + Z.of_nat a3 ->
                          byte_at fbuffer (pos c + (o3 + i)) <> LF).
  { intros i Hi. rewrite Hat by lia. destruct (Z.lt_ge_cases i lv) as [Hv|Hv].
    - rewrite Lv by lia.
      pose proof (forallb_byte_at _ v i Hnl ltac:(lia)) as Hne.
      apply negb_true_iff, Ascii.eqb_neq in Hne. exact Hne.
    - rewrite Ls3 by lia. discriminate. }
  assert (P4' : pos c4 = pos c + o3).
  { rewrite P3 in P4. replace (pos c + o3) with (pos c + (lk + Z.of_nat a1) + 1 + Z.of_nat a2)
      by lia.
    apply P4; [lia| |].
    - intros i Hi.
      replace (pos c + (lk + Z.of_nat a1) + 1 + i) with (pos c + (lk + Z.of_nat a1 + 1 + i))
        by lia.
      rewrite Hat by lia. apply Ls2. lia.
    - intros _.
      replace (pos c + (lk + Z.of_nat a1) + 1 + Z.of_nat a2) with (pos c + (o3 + 0)) by lia.
      rewrite Hat by lia. destruct (Z.eq_dec lv 0) as [Hz|Hz].
      + rewrite (Hlv2 Hz) in *. replace (o3 + 0) with (o3 + lv + Z.of_nat 0) by lia.
        rewrite Llf. discriminate.
      + rewrite Lv by lia. rewrite byte_at_hd.
        apply negb_true_iff, Ascii.eqb_neq in Hhd. exact Hhd. }
  clear P4.
  assert (Ln4' : line c4 = line c) by (rewrite Ln4; subst c3'; simpl; congruence).
  assert (K4' : key c4 = store_at (key ck) lk NUL)
    by (rewrite K4; subst c3'; simpl; congruence).
  assert (Kl4' : key_len c4 = lk) by (rewrite Kl4; subst c3'; simpl; congruence).
  assert (V4' : value c4 = value c) by (rewrite V4; subst c3'; simpl; congruence).
  clearbody c4. clear Ln4 K4 Kl4 V4.
  (* the value and the spaces after it *)
  set (nv := (length v + a3)%nat).
  assert (Hnv : Z.of_nat nv = lv + Z.of_nat a3) by (subst nv lv; lia).
  destruct (scan_value_run fbuffer read_res nv 0 c4)
    as (cv & Hrunv & Pv & Lnv & Kv & Klv & Hlenv & _ & Hval);
    try (unfold MAX_ITEM_LEN; lia).
  { rewrite V4'. assumption. }
  { intros i Hi. rewrite P4'. replace (pos c + o3 + i) with (pos c + (o3 + i)) by lia.
    apply Hvb. lia. }
  assert (Bv : byte_at fbuffer (pos cv) = LF).
  { rewrite Pv, P4'.
    replace (pos c + o3 + Z.of_nat nv) with (pos c + (o3 + lv + Z.of_nat a3)) by lia.
    rewrite Hat by lia. exact Llf. }
  destruct (scan_value_stop fbuffer read_res (0 + Z.of_nat nv) cv Bv)
    as (cv' & Hstopv & Pv' & Lnv' & Kv' & Klv' & Vv').
  rewrite Hrunv, Hstopv.
  replace (0 + Z.of_nat nv) with (lv + Z.of_nat a3) in * by lia.
  set (n := lv + Z.of_nat a3) in *.
  set (c5 := write_value n NUL cv').
  assert (V5 : value c5 = store_at (value cv) n NUL) by (subst c5; simpl; congruence).
  assert (Hv5 : forall j, 0 <= j < n -> byte_at (value c5) j = byte_at L (o3 + j)).
  { intros j Hj. rewrite V5, byte_at_store_other by lia. rewrite Hval by lia.
    rewrite P4'. replace (pos c + o3 + (j - 0)) with (pos c + (o3 + j)) by lia.
    apply Hat. lia. }
  unfold trim_value.
  destruct (trim_value_run a3 (Z.to_nat n) n c5)
    as (ct & Htrim & Pt & Lnt & Kt & Klt & Hlent & Hlowt & Hnult & Hsamet); try lia.
  { rewrite V5, store_at_length, Hlenv. lia. }
  { intros j Hj. rewrite Hv5 by lia. apply Ls3. lia. }
  { intros Hpos. rewrite Hv5 by lia. replace (n - Z.of_nat a3 - 1) with (lv - 1) by lia.
    rewrite Lv by lia. subst lv. rewrite byte_at_last by (destruct v; [simpl in *; lia | discriminate]).
    apply negb_true_iff, Ascii.eqb_neq in Hlast. exact Hlast. }
  rewrite Htrim. replace (n - Z.of_nat a3) with lv in * by lia.
  assert (Hvt : forall j, 0 <= j < lv -> byte_at (value ct) j = byte_at v j).
  { intros j Hj. rewrite Hlowt, Hv5 by lia. apply Lv. lia. }
  exists ct. split; [reflexivity|].
  rewrite Pt, Lnt, Kt, Klt, Hlent.
  subst c5. simpl. rewrite Pv', Lnv', Kv', Klv', Pv, Lnv, Kv, Klv, P4', Ln4', K4', Kl4'.
  split; [lia|]. split; [reflexivity|]. split; [reflexivity|].
  split.
  { apply firstn_byte_at; [reflexivity | rewrite store_at_length, Hl; lia |].
    intros j Hj. fold lk in Hj. rewrite byte_at_store_other by lia.
    rewrite Hkey by lia. simpl. replace (pos c + (j - 0)) with (pos c + j) by lia.
    rewrite Hat by lia. apply Lk. lia. }
  split; [apply byte_at_store_same; rewrite Hl; lia|].
  split; [rewrite store_at_length, Vv'; exact Hlenv|].
  split; [exact Hvt|].
  destruct a3 as [|a3].
  - rewrite (Hsamet eq_refl). simpl. rewrite Vv'.
    replace lv with n by lia. apply byte_at_store_same. rewrite Hlenv. lia.
  - apply Hnult. lia.
Qed.

(** X4.  Round trip of a written record.  If the bytes at the cursor spell
    a key (1 to 255 bytes, none of them [=], a space or a line feed, no [#]
    in front), any number of spaces, [=], any number of spaces, a value (no
    line feed, no space in front or at the end, not enclosed in quotes, at
    most 255 bytes with the spaces that follow), spaces and a line feed,
    then [parse_next_kv] returns 1, logs nothing, leaves the line counter
    alone, puts the cursor after the line feed, and hands back exactly that
    key and that value, each with its length and its terminator. *)
Theorem parse_written_record (k : list ascii) (a1 a2 : nat) (v : list ascii) (a3 : nat)
    (c : cursor) :
  spelled_at fbuffer (pos c) (record_line k a1 a2 v a3) ->
  pos c + Z.of_nat (length (record_line k a1 a2 v a3)) <= read_res ->
  length (key c) = 256%nat -> length (value c) = 256%nat ->
  plain_key k = true -> plain_value v a3 = true ->
  exists c',
    parse_next_kv fbuffer read_res c = (1, c', []) /\
    pos c' = pos c + Z.of_nat (length (record_line k a1 a2 v a3)) /\
    line c' = line c /\
    key_len c' = Z.of_nat (length k) /\ firstn (length k) (key c') = k /\
    byte_at (key c') (Z.of_nat (length k)) = NUL /\
    value_len c' = Z.of_nat (length v) /\ firstn (length v) (value c') = v /\
    byte_at (value c') (Z.of_nat (length v)) = NUL.
Proof.
  intros Hsp Hfit Hklen Hvlen Hpk Hpv.
  unfold plain_value in Hpv. apply andb_prop in Hpv. destruct Hpv as [Hraw Hq].
  destruct (parse_written_upto_trim k a1 a2 v a3 c Hsp Hfit Hklen Hvlen Hpk Hraw)
    as (ct & Hrun & Pt & Lnt & Klt & Kt & Kz & Hlen & Hv & Vz).
  destruct (strip_quotes_plain (Z.of_nat (length v)) ct)
    as (cq & Hstrip & Pq & Lnq & Kq & Klq & Vq).
  { destruct (Z.leb_spec 2 (Z.of_nat (length v))) as [Hge|Hlt]; [|reflexivity].
    rewrite !Hv by lia. rewrite byte_at_hd.
    rewrite byte_at_last by (destruct v; [simpl in *; lia | discriminate]).
    apply negb_true_iff in Hq.
    replace (2 <=? length v)%nat with true in Hq by (symmetry; apply Nat.leb_le; lia).
    exact Hq. }
  rewrite Hstrip in Hrun. exists (advance (set_value_len (Z.of_nat (length v)) cq)).
  split; [exact Hrun|]. simpl. rewrite Pq, Lnq, Kq, Klq, Vq.
  assert (Hb : (length v + a3 <= 255)%nat).
  { unfold raw_value in Hraw.
    repeat (apply andb_prop in Hraw; destruct Hraw as [Hraw _]).
    apply Nat.leb_le in Hraw. exact Hraw. }
  split; [lia|]. repeat split; try assumption.
  apply firstn_byte_at; [reflexivity | lia | exact Hv].
Qed.

(** X5.  Round trip of a quoted value.  If the value is written between
    double quotes -- with any bytes but a line feed in between, spaces
    included -- [parse_next_kv] returns 1 and hands back the bytes between
    the quotes, the spaces at their end included, with their length and a
    terminator; the key is handed back as in X4. *)
Theorem parse_quoted_record (k : list ascii) (a1 a2 : nat) (m : list ascii) (a3 : nat)
    (c : cursor) :
  spelled_at fbuffer (pos c) (record_line k a1 a2 (quoted m) a3) ->
  pos c + Z.of_nat (length (record_line k a1 a2 (quoted m) a3)) <= read_res ->
  length (key c) = 256%nat -> length (value c) = 256%nat ->
  plain_key k = true -> raw_value (quoted m) a3 = true ->
  exists c',
    parse_next_kv fbuffer read_res c = (1, c', []) /\
    pos c' = pos c + Z.of_nat (length (record_line k a1 a2 (quoted m) a3)) /\
    line c' = line c /\
    key_len c' = Z.of_nat (length k) /\ firstn (length k) (key c') = k /\
    value_len c' = Z.of_nat (length m) /\ firstn (length m) (value c') = m /\
    byte_at (value c') (Z.of_nat (length m)) = NUL.
Proof.
  intros Hsp Hfit Hklen Hvlen Hpk Hraw.
  destruct (parse_written_upto_trim k a1 a2 (quoted m) a3 c Hsp Hfit Hklen Hvlen Hpk Hraw)
    as (ct & Hrun & Pt & Lnt & Klt & Kt & Kz & Hlen & Hv & Vz).
  assert (Hlq : Z.of_nat (length (quoted m)) = Z.of_nat (length m) + 2).
  { unfold quoted. simpl length. rewrite length_app. simpl length. lia. }
  assert (Hmid : forall j, 0 <= j < Z.of_nat (length m) ->
                           byte_at (quoted m) (j + 1) = byte_at m j).
  { intros j Hj. unfold quoted. change (DQUOTE :: m ++ [DQUOTE]) with ([DQUOTE] ++ m ++ [DQUOTE]).
    rewrite byte_at_app_r by (simpl; lia). rewrite byte_at_app_l by (simpl; lia).
    f_equal. simpl. lia. }
  assert (Hend : byte_at (quoted m) (Z.of_nat (length (quoted m)) - 1) = DQUOTE).
  { rewrite byte_at_last by discriminate. unfold quoted.
    change (DQUOTE :: m ++ [DQUOTE]) with ((DQUOTE :: m) ++ [DQUOTE]).
    apply last_last. }
  assert (Hraw' : (length m + 2 + a3 <= 255)%nat).
  { unfold raw_value in Hraw. repeat (apply andb_prop in Hraw; destruct Hraw as [Hraw _]).
    apply Nat.leb_le in Hraw. lia. }
  destruct (strip_quotes_quoted (Z.of_nat (length (quoted m))) ct)
    as (cq & Hstrip & Pq & Lnq & Kq & Klq & Hlq' & Hlow & Hnul).
  { lia. }
  { rewrite Hv by lia. reflexivity. }
  { rewrite Hv by lia. exact Hend. }
  rewrite Hstrip in Hrun.
  exists (advance (set_value_len (Z.of_nat (length (quoted m)) - 2) cq)).
  split; [exact Hrun|].
  unfold advance, set_value_len. cbn [pos line key key_len value value_len].
  rewrite Pq, Lnq, Kq, Klq.
  split; [lia|]. split; [assumption|]. split; [assumption|]. split; [assumption|].
  split; [lia|]. split.
  - apply firstn_byte_at; [reflexivity | lia |].
    intros j Hj. rewrite Hlow by lia. rewrite Hv by lia. apply Hmid. lia.
  - replace (Z.of_nat (length m)) with (Z.of_nat (length (quoted m)) - 2) by lia.
    exact Hnul.
Qed.

End RoundTrip.

(** X4 on the sample buffer: the record [device = AA:BB:CC:DD:EE:FF]. *)
Lemma parse_written_record_witness :
  exists c',
    parse_next_kv sample_buffer 52 (cursor_at 4 1) = (1, c', []) /\
    pos c' = pos (cursor_at 4 1)
             + Z.of_nat (length (record_line (lit "device") 1 1 (lit "AA:BB:CC:DD:EE:FF") 2)) /\
    line c' = line (cursor_at 4 1) /\
    key_len c' = Z.of_nat (length (lit "device")) /\
    firstn (length (lit "device")) (key c') = lit "device" /\
    byte_at (key c') (Z.of_nat (length (lit "device"))) = NUL /\
    value_len c' = Z.of_nat (length (lit "AA:BB:CC:DD:EE:FF")) /\
    firstn (length (lit "AA:BB:CC:DD:EE:FF")) (value c') = lit "AA:BB:CC:DD:EE:FF" /\
    byte_at (value c') (Z.of_nat (length (lit "AA:BB:CC:DD:EE:FF"))) = NUL.
Proof.
  apply (parse_written_record sample_buffer 52 (lit "device") 1 1
           (lit "AA:BB:CC:DD:EE:FF") 2 (cursor_at 4 1)).
  - split; [simpl; lia | reflexivity].
  - vm_compute. discriminate.
  - reflexivity.
  - reflexivity.
  - reflexivity.
  - reflexivity.
Defined.

(** X5 on the sample buffer: the record [name="my  phone "]. *)
Lemma parse_quoted_record_witness :
  exists c',
    parse_next_kv sample_buffer 52 (cursor_at 33 1) = (1, c', []) /\
    pos c' = pos (cursor_at 33 1)
             + Z.of_nat (length (record_line (lit "name") 0 0 (quoted (lit "my  phone ")) 1)) /\
    line c' = line (cursor_at 33 1) /\
    key_len c' = Z.of_nat (length (lit "name")) /\
    firstn (length (lit "name")) (key c') = lit "name" /\
    value_len c' = Z.of_nat (length (lit "my  phone ")) /\
    firstn (length (lit "my  phone ")) (value c') = lit "my  phone " /\
    byte_at (value c') (Z.of_nat (length (lit "my  phone "))) = NUL.
Proof.
  apply (parse_quoted_record sample_buffer 52 (lit "name") 0 0 (lit "my  phone ") 1
           (cursor_at 33 1)).
  - split; [simpl; lia | reflexivity].
  - vm_compute. discriminate.
  - reflexivity.
  - reflexivity.
  - reflexivity.
  - reflexivity.
Defined.

(* ===================================================================== *)
(** * The configuration loader *)
(* ===================================================================== *)

Section Loader.

Context {W : Type} (host : Host W).

#[local] Arguments Libc.strncmp : simpl never.
#[local] Arguments lit : simpl never.
#[local] Arguments str2ba : simpl never.
#[local] Arguments Libc.strncpy : simpl never.
#[local] Arguments Libc.atoi : simpl never.
#[local] Arguments Libc.abs : simpl never.
#[local] Arguments to_int8 : simpl never.
#[local] Arguments to_int32 : simpl never.
#[local] Arguments cstr : simpl never.

(** X6.  [read_config] only opens [CONFIG_FILE], allocates and reads
    [SYSCALL_MAX_BYTES_READ] bytes, and logs: whatever the file holds, it
    never asks for the user id or the password and never reaches the
    Bluetooth adapter. *)
Theorem read_config_calls (config : bt_config_t) (w : W) :
  Forall (fun e => config_call e = true) (calls (read_config host config) w).
Proof.
  assert (H : silent (fun e => negb (config_call e)) (read_config host config)).
  { unfold read_config, sys_open, malloc, sys_read.
    pose proof (fun fb rr c st =>
      config_loop_from_silent (W := W) (fun e => negb (config_call e))
        (S (remaining rr c)) fb rr c st (fun e => eq_refl)) as Hloop.
    unfold config_loop. silence_with ltac:(apply Hloop). }
  specialize (H w). eapply Forall_impl; [exact H|].
  intros e He. simpl in He. apply negb_false_iff. exact He.
Qed.

Lemma config_record_result c st (w : W) :
  result (config_record c st) w = config_step c st.
Proof.
  unfold config_step, result, config_record, bind, pam_syslog, ret.
  repeat match goal with
         | |- context [if ?b then _ else _] => destruct b
         | |- context [let (_, _) := ?x in _] => destruct x
         end; reflexivity.
Qed.

Lemma config_record_world c st (w : W) :
  world_after (config_record c st) w = w.
Proof.
  unfold world_after, config_record, bind, pam_syslog, ret.
  repeat match goal with
         | |- context [if ?b then _ else _] => destruct b
         | |- context [let (_, _) := ?x in _] => destruct x
         end; reflexivity.
Qed.

(** The loop of [read_config] is a left fold of its body over the records. *)
Lemma config_loop_from_fold fuel fbuffer read_res : forall c st (w : W),
  result (config_loop_from fuel fbuffer read_res c st) w =
  fold_left (fun s r => config_step r s) (records_from fuel fbuffer read_res c) st.
Proof.
  induction fuel as [|fuel IH]; intros c st w; [reflexivity|].
  cbn [config_loop_from records_from].
  unfold result, bind, parse_next_kv_m, emit, ret in *.
  destruct (parse_next_kv fbuffer read_res c) as [[r c'] msgs]. simpl.
  destruct (0 <? r); [|reflexivity].
  pose proof (config_record_result c' st w) as Hr. unfold result in Hr.
  destruct (config_record c' st w) as [[st' w'] t']. simpl in Hr. subst st'.
  specialize (IH c' (config_step c' st) w').
  destruct (config_loop_from fuel fbuffer read_res c' (config_step c' st) w')
    as [[st2 w2] t2].
  simpl in *. exact IH.
Qed.

Ltac step_cases :=
  intros; unfold config_step, result, config_record, bind, pam_syslog, ret,
    sets_device, sets_strength, sets_request_update, sets_check_trusted,
    names_device, address_of, flag_of, strength_of;
  repeat match goal with
         | |- context [Libc.strncmp ?a ?b ?n =? 0] =>
             destruct (Libc.strncmp a b n =? 0)
         | |- context [str2ba ?x] => destruct (str2ba x) as [? ?]
         | |- context [to_int8 ?x =? 0] => destruct (to_int8 x =? 0)
         end;
  cbn [negb andb fst snd];
  repeat match goal with
         | |- context [?x =? 0] => is_var x; destruct (x =? 0)
         end;
  cbn [negb andb fst snd ls_config ls_found_device ls_found_strength
       device_addr request_update check_trusted min_strength];
  change (1 =? 0) with false;
  repeat match goal with
         | |- context [?x =? 0] => destruct (x =? 0)
         end;
  reflexivity.

Lemma step_found_device r s :
  (ls_found_device (config_step r s) =? 0) =
  (ls_found_device s =? 0) && negb (sets_device r).
Proof.
  step_cases.
Qed.

Lemma step_found_strength r s :
  (ls_found_strength (config_step r s) =? 0) =
  (ls_found_strength s =? 0) && negb (sets_strength r).
Proof.
  step_cases.
Qed.

Lemma step_device_addr r s :
  device_addr (ls_config (config_step r s)) =
  if names_device r then address_of (value r) else device_addr (ls_config s).
Proof.
  step_cases.
Qed.

Lemma step_request_update r s :
  request_update (ls_config (config_step r s)) =
  if sets_request_update r then flag_of (value r) else request_update (ls_config s).
Proof.
  step_cases.
Qed.

Lemma step_check_trusted r s :
  check_trusted (ls_config (config_step r s)) =
  if sets_check_trusted r then flag_of (value r) else check_trusted (ls_config s).
Proof.
  step_cases.
Qed.

Lemma step_min_strength r s :
  min_strength (ls_config (config_step r s)) =
  if sets_strength r then strength_of (value r) else min_strength (ls_config s).
Proof.
  step_cases.
Qed.

Lemma fold_found_device recs : forall s,
  (ls_found_device (fold_left (fun s r => config_step r s) recs s) =? 0) =
  (ls_found_device s =? 0) && negb (existsb sets_device recs).
Proof.
  induction recs as [|r recs IH]; intros s; cbn [fold_left existsb].
  - rewrite andb_true_r. reflexivity.
  - rewrite IH, step_found_device, negb_orb, andb_assoc. reflexivity.
Qed.

Lemma fold_found_strength recs : forall s,
  (ls_found_strength (fold_left (fun s r => config_step r s) recs s) =? 0) =
  (ls_found_strength s =? 0) && negb (existsb sets_strength recs).
Proof.
  induction recs as [|r recs IH]; intros s; cbn [fold_left existsb].
  - rewrite andb_true_r. reflexivity.
  - rewrite IH, step_found_strength, negb_orb, andb_assoc. reflexivity.
Qed.

(** A field that every record either sets or leaves alone ends up as the
    last record that sets it left it. *)
Lemma fold_last_wins {A} (get : load_state -> A) (P : cursor -> bool) (v : cursor -> A) :
  (forall r s, get (config_step r s) = if P r then v r else get s) ->
  forall recs s,
    get (fold_left (fun s r => config_step r s) recs s) =
    match find P (rev recs) with
    | Some r => v r
    | None => get s
    end.
Proof.
  intros Hstep recs. induction recs as [|r recs IH] using rev_ind; intros s.
  - reflexivity.
  - rewrite fold_left_app, rev_app_distr. cbn [fold_left rev app find].
    rewrite Hstep. destruct (P r); [reflexivity | apply IH].
Qed.

Lemma existsb_find_rev (P : cursor -> bool) recs :
  existsb P recs = true -> exists r, find P (rev recs) = Some r /\ P r = true.
Proof.
  intros H. apply existsb_exists in H as (x & Hin & Hx).
  destruct (find P (rev recs)) as [r|] eqn:E.
  - exists r. split; [reflexivity|]. apply find_some in E. tauto.
  - rewrite (find_none _ _ E x) in Hx; [discriminate|]. apply in_rev in Hin. exact Hin.
Qed.

#[local] Arguments config_loop : simpl never.
#[local] Arguments records : simpl never.

Lemma config_read_unique w fb rr fb' rr' :
  config_read host w fb rr -> config_read host w fb' rr' -> fb = fb' /\ rr = rr'.
Proof.
  intros (fd & w1 & w2 & w3 & Ho & _ & Hm & Hr & _)
         (fd' & w1' & w2' & w3' & Ho' & _ & Hm' & Hr' & _).
  rewrite Ho in Ho'. injection Ho' as <- <-.
  rewrite Hm in Hm'. injection Hm' as <-.
  rewrite Hr in Hr'. injection Hr' as <- <- _. split; reflexivity.
Qed.

(** What [read_config] returns: -1 and the caller's structure untouched
    when the file cannot be read; otherwise the verdict on the two
    [found] flags and the structure the loop built. *)
Lemma read_config_cases config (w : W) :
  (result (read_config host config) w = (-1, config) /\
   forall fb rr, ~ config_read host w fb rr) \/
  (exists fb rr,
     config_read host w fb rr /\
     result (read_config host config) w =
     let st := fold_left (fun s r => config_step r s) (config_records fb rr)
                 (LoadState (Config (device_addr config) 0 0 (min_strength config)) 0 0) in
     (if ls_found_device st =? 0 then -1
      else if ls_found_strength st =? 0 then -1 else 0, ls_config st)).
Proof.
  unfold read_config, result, bind, sys_open, malloc, sys_read, call, pam_syslog, ret.
  destruct (host_open host (lit CONFIG_FILE) w) as [fd w1] eqn:E1. simpl.
  destruct (Z.eqb_spec fd (-1)) as [->|Hfd]; simpl.
  { left. split; [reflexivity|].
    intros fb rr (? & ? & ? & ? & Ho & Hne & _). rewrite E1 in Ho.
    injection Ho as <- _. contradiction. }
  destruct (host_malloc host SYSCALL_MAX_BYTES_READ w1) as [ok w2] eqn:E2. simpl.
  destruct ok; simpl.
  2: { left. split; [reflexivity|].
       intros fb rr (? & ? & ? & ? & Ho & _ & Hm & _). rewrite E1 in Ho.
       injection Ho as <- <-. rewrite E2 in Hm. discriminate. }
  destruct (host_read host fd SYSCALL_MAX_BYTES_READ w2) as [[rr fb] w3] eqn:E3. simpl.
  destruct (Z.eqb_spec rr (-1)) as [->|H1]; simpl.
  { left. split; [reflexivity|].
    intros fb' rr' (? & ? & ? & ? & Ho & _ & Hm & Hr & Hne & _). rewrite E1 in Ho.
    injection Ho as <- <-. rewrite E2 in Hm. injection Hm as <-.
    rewrite E3 in Hr. injection Hr as <- _ _. contradiction. }
  destruct (Z.eqb_spec rr 0) as [->|H0]; simpl.
  { left. split; [reflexivity|].
    intros fb' rr' (? & ? & ? & ? & Ho & _ & Hm & Hr & _ & Hne). rewrite E1 in Ho.
    injection Ho as <- <-. rewrite E2 in Hm. injection Hm as <-.
    rewrite E3 in Hr. injection Hr as <- _ _. contradiction. }
  right. exists fb, rr. split.
  { exists fd, w1, w2, w3. repeat split; assumption. }
  pose proof (config_loop_from_fold (S (remaining rr (fresh_cursor 0))) fb rr
                (fresh_cursor 0)
                (LoadState (Config (device_addr config) 0 0 (min_strength config)) 0 0) w3)
    as Hfold.
  fold (config_loop (W := W) fb rr (fresh_cursor 0)
          (LoadState (Config (device_addr config) 0 0 (min_strength config)) 0 0)) in Hfold.
  fold (records fb rr (fresh_cursor 0)) in Hfold.
  fold (config_records fb rr) in Hfold. unfold result in Hfold.
  destruct (config_loop fb rr (fresh_cursor 0) _ w3) as [[st w4] t4].
  simpl in Hfold. subst st. simpl.
  destruct (ls_found_device _ =? 0); [reflexivity|].
  destruct (ls_found_strength _ =? 0); reflexivity.
Qed.

(** X7.  For runs in which every access of the parser is in bounds (no
    key or value of the configuration file fills its 256-byte array and
    the file does not end inside a key): [read_config] returns 0 exactly
    when the file is opened and read with a non-zero byte count and, among
    the records parsed before the parser stops, one sets a valid device
    address and one sets a non-zero threshold; in every other case it
    returns -1. *)
Theorem read_config_succeeds_iff (config : bt_config_t) (w : W) :
  (forall fbuffer read_res,
      config_read host w fbuffer read_res ->
      stays_in_bounds read_res (config_loop_end fbuffer read_res) = true) ->
  let r := fst (result (read_config host config) w) in
  (r = 0 <->
   exists fbuffer read_res,
     config_read host w fbuffer read_res /\
     existsb sets_device (config_records fbuffer read_res) = true /\
     existsb sets_strength (config_records fbuffer read_res) = true) /\
  (r = 0 \/ r = -1).
Proof.
  intros _. cbv zeta.
  destruct (read_config_cases config w) as [[-> Hno] | (fb & rr & Hread & ->)].
  - cbn [fst]. split; [|right; reflexivity].
    split; [discriminate|]. intros (fb & rr & Hread & _). destruct (Hno fb rr Hread).
  - cbv zeta. cbn [fst].
    pose proof (fold_found_device (config_records fb rr)
                  (LoadState (Config (device_addr config) 0 0 (min_strength config)) 0 0))
      as Hd.
    pose proof (fold_found_strength (config_records fb rr)
                  (LoadState (Config (device_addr config) 0 0 (min_strength config)) 0 0))
      as Hs.
    cbn [ls_found_device ls_found_strength] in Hd, Hs.
    change (0 =? 0) with true in Hd, Hs. rewrite andb_true_l in Hd, Hs.
    rewrite Hd, Hs. split.
    + split.
      * intros H. exists fb, rr. split; [exact Hread|].
        destruct (existsb sets_device _); [|discriminate].
        destruct (existsb sets_strength _); [|discriminate]. split; reflexivity.
      * intros (fb' & rr' & Hread' & Hdev & Hstr).
        destruct (config_read_unique _ _ _ _ _ Hread Hread') as [-> ->].
        rewrite Hdev, Hstr. reflexivity.
    + destruct (existsb sets_device _); [|right; reflexivity].
      destruct (existsb sets_strength _); [left | right]; reflexivity.
Qed.

(** X8.  Later lines override earlier ones.  Once the file is read, and
    provided every access of the parser is in bounds, the structure
    [read_config] leaves to its caller holds, field by field, what the
    last record that sets the field says: the address of the last
    [device] record (all zeroes if that record is not a valid address),
    the flags of the last [request_update] and [check_trusted] records (0
    without one), the threshold of the last [min_strength] record whose
    threshold is not 0. *)
Theorem read_config_last_wins (config : bt_config_t) (w : W)
    (fbuffer : list ascii) (read_res : Z) :
  config_read host w fbuffer read_res ->
  stays_in_bounds read_res (config_loop_end fbuffer read_res) = true ->
  snd (result (read_config host config) w) =
  loaded_config config (config_records fbuffer read_res).
Proof.
  intros Hread _.
  destruct (read_config_cases config w) as [[_ Hno] | (fb & rr & Hread' & ->)].
  - destruct (Hno _ _ Hread).
  - destruct (config_read_unique _ _ _ _ _ Hread Hread') as [-> ->].
    cbv zeta. cbn [snd]. unfold loaded_config.
    set (st0 := LoadState (Config (device_addr config) 0 0 (min_strength config)) 0 0).
    pose proof (fold_last_wins (fun s => device_addr (ls_config s)) names_device
                  (fun r => address_of (value r)) step_device_addr (config_records fb rr) st0)
      as H1.
    pose proof (fold_last_wins (fun s => request_update (ls_config s)) sets_request_update
                  (fun r => flag_of (value r)) step_request_update
                  (config_records fb rr) st0) as H2.
    pose proof (fold_last_wins (fun s => check_trusted (ls_config s)) sets_check_trusted
                  (fun r => flag_of (value r)) step_check_trusted
                  (config_records fb rr) st0) as H3.
    pose proof (fold_last_wins (fun s => min_strength (ls_config s)) sets_strength
                  (fun r => strength_of (value r)) step_min_strength
                  (config_records fb rr) st0) as H4.
    cbv beta in H1, H2, H3, H4.
    destruct (ls_config (fold_left _ _ st0)) as [a u t m].
    cbn [device_addr request_update check_trusted min_strength] in H1, H2, H3, H4.
    subst a u t m. reflexivity.
Qed.

(** X9.  A configuration that loads has a usable threshold: whenever
    [read_config] returns 0, [min_strength] is a non-zero [int8_t]. *)
Theorem read_config_threshold (config : bt_config_t) (w : W) :
  fst (result (read_config host config) w) = 0 ->
  -128 <= min_strength (snd (result (read_config host config) w)) <= 127 /\
  min_strength (snd (result (read_config host config) w)) <> 0.
Proof.
  destruct (read_config_cases config w) as [[-> _] | (fb & rr & _ & ->)];
    [discriminate|].
  cbv zeta. cbn [fst snd].
  set (st0 := LoadState (Config (device_addr config) 0 0 (min_strength config)) 0 0).
  pose proof (fold_found_strength (config_records fb rr) st0) as Hs.
  pose proof (fold_last_wins (fun s => min_strength (ls_config s)) sets_strength
                (fun r => strength_of (value r)) step_min_strength (config_records fb rr) st0)
    as Hm.
  cbv beta in Hm. rewrite Hm. clear Hm.
  destruct (ls_found_device _ =? 0); [discriminate|].
  destruct (ls_found_strength _ =? 0); [discriminate|]. intros _.
  symmetry in Hs. apply andb_false_iff in Hs as [Hs|Hs]; [discriminate|].
  apply negb_false_iff, existsb_find_rev in Hs as (r & -> & Hr).
  unfold sets_strength in Hr. apply andb_prop in Hr as [_ Hr].
  apply negb_true_iff, Z.eqb_neq in Hr. split; [|exact Hr].
  unfold strength_of, to_int8.
  pose proof (Z.mod_pos_bound (to_int32 (- Libc.abs (Libc.atoi (value r))) + 128) 256
                ltac:(lia)). lia.
Qed.

End Loader.

(** X8 on a concrete host: the second [min_strength] line overrides the
    first. *)
Lemma read_config_last_wins_witness :
  snd (result (read_config scripted zero_config)
         (world_of 0 (lines ["min_strength = -70"; "device = AA:BB:CC:DD:EE:FF";
                             "min_strength = -55"]%string) [] (0, -60) [])) =
  loaded_config zero_config
    (config_records (lines ["min_strength = -70"; "device = AA:BB:CC:DD:EE:FF";
                            "min_strength = -55"]%string) 65).
Proof.
  apply (read_config_last_wins scripted zero_config).
  - exists 3, (world_of 0 (lines ["min_strength = -70"; "device = AA:BB:CC:DD:EE:FF";
                                  "min_strength = -55"]%string) [] (0, -60) []).
    eexists. eexists.
    split; [reflexivity|]. split; [lia|]. split; [reflexivity|].
    split; [reflexivity|]. split; lia.
  - vm_compute. reflexivity.
Defined.

(** X7 on a concrete host: the good configuration file. *)
Lemma read_config_succeeds_iff_witness :
  let r := fst (result (read_config scripted zero_config) strong_world) in
  (r = 0 <->
   exists fbuffer read_res,
     config_read scripted strong_world fbuffer read_res /\
     existsb sets_device (config_records fbuffer read_res) = true /\
     existsb sets_strength (config_records fbuffer read_res) = true) /\
  (r = 0 \/ r = -1).
Proof.
  apply (read_config_succeeds_iff scripted zero_config strong_world).
  intros fbuffer read_res (fd & w1 & w2 & w3 & Ho & _ & Hm & Hr & _).
  vm_compute in Ho. injection Ho as <- <-.
  vm_compute in Hm. injection Hm as <-.
  vm_compute in Hr. injection Hr as <- <- _.
  vm_compute. reflexivity.
Defined.

(** X9 on a concrete host. *)
Lemma read_config_threshold_witness :
  -128 <= min_strength (snd (result (read_config scripted zero_config)
                               (world_of 0 good_conf [] (0, -60) []))) <= 127 /\
  min_strength (snd (result (read_config scripted zero_config)
                       (world_of 0 good_conf [] (0, -60) []))) <> 0.
Proof.
  apply (read_config_threshold scripted zero_config (world_of 0 good_conf [] (0, -60) [])).
  vm_compute. reflexivity.
Defined.

(* ===================================================================== *)
(** * Trust resolution and the signal: what is called, what comes back *)
(* ===================================================================== *)

Section Calls.

Context {W : Type} (host : Host W).

#[local] Arguments Libc.strncmp : simpl never.
#[local] Arguments lit : simpl never.
#[local] Arguments trust_loop : simpl never.
#[local] Arguments records : simpl never.
#[local] Arguments info_path : simpl never.

Lemma same_text_refl p : same_text p p = true.
Proof. unfold same_text. apply String.eqb_refl. Qed.

(** From "only calls of the kind [ok]" to "no call of the kind [P]". *)
Lemma calls_only_silent {A} (ok P : event -> bool) (m : M W A) :
  (forall e, ok e = true -> P e = false) ->
  (forall w, Forall (fun e => ok e = true) (calls m w)) -> silent P m.
Proof.
  intros Himp H w. eapply Forall_impl; [exact (H w)|]. exact Himp.
Qed.

Lemma silent_calls_only {A} (ok : event -> bool) (m : M W A) (w : W) :
  silent (fun e => negb (ok e)) m -> Forall (fun e => ok e = true) (calls m w).
Proof.
  intros H. eapply Forall_impl; [exact (H w)|].
  intros e He. simpl in He. apply negb_false_iff. exact He.
Qed.

Lemma trust_loop_from_silent P fuel fbuffer read_res path c :
  (forall e, P (Syslog e) = false) ->
  silent P (trust_loop_from (W := W) fuel fbuffer read_res path c).
Proof.
  intros HP. revert c. induction fuel as [|fuel IH]; intros c; cbn [trust_loop_from].
  - apply silent_ret.
  - apply silent_bind; [apply parse_next_kv_m_silent, HP|].
    intros [r c']. destruct (0 <? r).
    + destruct (Libc.strncmp _ _ _ =? 0); [|apply IH].
      destruct (Libc.strncmp _ _ _ =? 0); apply silent_ret.
    + destruct (r <? 0); [|apply silent_ret].
      apply silent_bind; [apply silent_syslog, HP | intros; apply silent_ret].
Qed.

Lemma is_device_trusted_quiet device_mac gadget_mac :
  silent (fun e => negb (trust_call (info_path device_mac gadget_mac) e))
         (is_device_trusted host device_mac gadget_mac).
Proof.
  unfold is_device_trusted. cbv zeta. rewrite info_path_built.
  unfold getuid, sys_open, malloc, sys_read, trust_loop.
  pose proof (fun fuel fb rr c =>
    trust_loop_from_silent
      (fun e => negb (trust_call (info_path device_mac gadget_mac) e))
      fuel fb rr (info_path device_mac gadget_mac) c (fun e => eq_refl)) as Hloop.
  assert (Hopen : negb (trust_call (info_path device_mac gadget_mac)
                          (SysOpen (info_path device_mac gadget_mac))) = false).
  { cbn [trust_call]. rewrite same_text_refl. reflexivity. }
  silence_with ltac:(first [apply Hloop | apply silent_call; exact Hopen]).
Qed.

Lemma is_device_trusted_silent P device_mac gadget_mac :
  (forall e, trust_call (info_path device_mac gadget_mac) e = true -> P e = false) ->
  silent P (is_device_trusted host device_mac gadget_mac).
Proof.
  intros HP w.
  eapply Forall_impl; [exact (is_device_trusted_quiet device_mac gadget_mac w)|].
  intros e He. simpl in He. apply HP, negb_false_iff, He.
Qed.

(** X10.  [is_device_trusted] asks for the user id, opens the one file
    [/var/lib/bluetooth/<adapter>/<device>/info], allocates and reads
    [SYSCALL_MAX_BYTES_READ] bytes, and logs; it makes no other call:
    no other path is opened, the radio and PAM are never reached. *)
Theorem is_device_trusted_calls (device_mac gadget_mac : list ascii) (w : W) :
  Forall (fun e => trust_call (info_path device_mac gadget_mac) e = true)
         (calls (is_device_trusted host device_mac gadget_mac) w).
Proof.
  apply silent_calls_only. intros w'.
  eapply Forall_impl; [exact (is_device_trusted_quiet device_mac gadget_mac w')|].
  intros e He. exact He.
Qed.

(** The three results of [is_device_trusted]. *)
Lemma is_device_trusted_range device_mac gadget_mac (w : W) :
  let r := result (is_device_trusted host device_mac gadget_mac) w in
  r = 1 \/ r = 0 \/ r = -1.
Proof.
  unfold is_device_trusted. cbv zeta. rewrite info_path_built.
  unfold result, bind, getuid, sys_open, malloc, sys_read, call, pam_syslog, ret.
  destruct (host_getuid host w) as [uid w1]. simpl.
  destruct (negb (uid =? 1)); simpl; [auto|].
  destruct (host_open host _ w1) as [fd w2]. simpl.
  destruct (fd =? -1); simpl; [auto|].
  destruct (host_malloc host _ w2) as [ok w3]. simpl.
  destruct ok; simpl; [|auto].
  destruct (host_read host fd _ w3) as [[rr fb] w4]. simpl.
  destruct (rr <=? 0); simpl; [auto|].
  pose proof (trust_loop_from_result (S (remaining rr (fresh_cursor 0))) fb rr
                (info_path device_mac gadget_mac) (fresh_cursor 0) w4) as [_ Hr].
  fold (trust_loop (W := W) fb rr (info_path device_mac gadget_mac) (fresh_cursor 0)) in Hr.
  unfold result in Hr. destruct (trust_loop _ _ _ _ w4) as [[r w5] t5]. exact Hr.
Qed.

End Calls.

(* ===================================================================== *)
(** * The proximity decision engine *)
(* ===================================================================== *)

Ltac quiet_with known :=
  repeat first
    [ known
    | apply silent_ret
    | apply silent_syslog; solve [auto]
    | apply silent_call; solve [auto]
    | apply silent_bind; [| intros ?]
    | match goal with
      | |- silent _ (if ?b then _ else _) => destruct b
      | |- silent _ (match ?x with _ => _ end) => destruct x
      | |- silent _ (let (_, _) := ?x in _) => destruct x
      end ].

Section Engine.

Context {W : Type} (host : Host W).

#[local] Arguments Libc.strncmp : simpl never.
#[local] Arguments lit : simpl never.
#[local] Arguments info_path : simpl never.
#[local] Arguments ba2str : simpl never.
#[local] Arguments to_int8 : simpl never.

Lemma scan_connections_quiet P config dev_id hci_sock l :
  (forall e, P (Syslog e) = false) ->
  (forall hnd, silent P (acquire_rssi host config dev_id hci_sock hnd)) ->
  silent P (scan_connections host config dev_id hci_sock l).
Proof.
  intros Hlog Hacq. induction l as [|ci l IH]; simpl; [apply silent_ret|].
  destruct (bacmp _ _ =? 0); [|exact IH].
  apply silent_bind; [apply Hacq|]. intros rssi. unfold judge_rssi.
  quiet_with fail.
Qed.

Lemma check_connected_device_quiet P config dev_id hci_sock :
  (forall e, P (Syslog e) = false) ->
  (forall n, P (SysMalloc n) = false) ->
  (forall a b c, P (HciGetConnList a b c) = false) ->
  (forall hnd, silent P (acquire_rssi host config dev_id hci_sock hnd)) ->
  silent P (check_connected_device host config dev_id hci_sock).
Proof.
  intros Hlog Hmalloc Hlist Hacq.
  pose proof (scan_connections_quiet P config dev_id hci_sock) as Hscan.
  unfold check_connected_device, malloc, ioctl_HCIGETCONNLIST.
  quiet_with ltac:(apply Hscan; assumption).
Qed.

(** The probe: reachable, and near enough or of unknown signal. *)
Lemma check_paired_device_proximity_result hci_sock target_addr min (w : W) :
  let name := host_hci_read_remote_name host hci_sock target_addr 500 w in
  let reply := fst (host_hci_read_rssi host hci_sock 0 100 (snd name)) in
  result (check_paired_device_proximity host hci_sock target_addr min) w = true <->
  0 <= fst name /\ (fst reply <> 0 \/ min <= to_int8 (snd reply)).
Proof.
  unfold check_paired_device_proximity, result, bind,
    hci_read_remote_name_with_clock_offset, hci_read_rssi, call, pam_syslog, ret.
  destruct (host_hci_read_remote_name host hci_sock target_addr 500 w) as [res w1].
  cbn [fst snd]. destruct (Z.ltb_spec res 0) as [Hres|Hres]; cbn [fst snd].
  { split; [discriminate | intros [H _]; lia]. }
  destruct (host_hci_read_rssi host hci_sock 0 100 w1) as [[err rssi] w2].
  cbn [fst snd]. destruct (Z.eqb_spec err 0) as [->|Herr]; cbn [fst snd].
  - rewrite Z.leb_le. split; [intros H; split; [exact Hres | right; exact H]|].
    intros [_ [H|H]]; [contradiction | exact H].
  - split; [intros _; split; [exact Hres | left; exact Herr] | reflexivity].
Qed.

Lemma check_paired_device_proximity_silent P hci_sock target_addr min :
  (forall e, P (Syslog e) = false) ->
  (forall a b c, P (HciReadRemoteName a b c) = false) ->
  (forall a b c, P (HciReadRssi a b c) = false) ->
  silent P (check_paired_device_proximity host hci_sock target_addr min).
Proof.
  intros Hlog Hname Hrssi.
  unfold check_paired_device_proximity, hci_read_remote_name_with_clock_offset,
    hci_read_rssi.
  quiet_with fail.
Qed.

(** Signal acquisition without [request_update]: cached reads only. *)
Lemma acquire_rssi_cached P config dev_id hci_sock hnd :
  request_update config = 0 ->
  (forall e, P (Syslog e) = false) ->
  (forall a, P (HciOpenDev a) = false) ->
  (forall a b c, P (HciReadRssi a b c) = false) ->
  silent P (acquire_rssi host config dev_id hci_sock hnd).
Proof.
  intros Hreq Hlog Hopen Hrssi. unfold acquire_rssi. rewrite Hreq.
  change (negb (0 =? 0)) with false. cbv iota.
  unfold dev_get_rssi, hci_open_dev, hci_read_rssi. quiet_with fail.
Qed.

Lemma acquire_rssi_quiet P config dev_id hci_sock hnd :
  (forall e, P (Syslog e) = false) ->
  (forall a, P (HciOpenDev a) = false) ->
  (forall a b c, P (HciReadRssi a b c) = false) ->
  (forall a b c d e, P (HciSendReq a b c d e) = false) ->
  silent P (acquire_rssi host config dev_id hci_sock hnd).
Proof.
  intros Hlog Hopen Hrssi Hreq.
  unfold acquire_rssi, get_fresh_rssi, dev_get_rssi, hci_send_req, hci_open_dev,
    hci_read_rssi.
  quiet_with fail.
Qed.

(** X11.  The connected-device check takes a signal for "not valid" (0)
    only from the cached read.  [acquire_rssi] returns 0 exactly when its
    first attempt (the fresh request if [request_update] is set, the
    cached read otherwise) came out as 0 and the cached read that follows
    it, in the world the first attempt left, opened the adapter, succeeded
    and reported 0.  A failing fresh request alone never ends the
    acquisition, and a failing cached read never comes out as 0; the
    result is always an [int8_t]. *)
Theorem acquire_rssi_zero (config : bt_config_t) (dev_id hci_sock hnd : Z) (w : W) :
  let first :=
    if negb (request_update config =? 0)
    then get_fresh_rssi host hci_sock hnd
    else dev_get_rssi host dev_id hnd in
  let opened := host_hci_open_dev host dev_id (world_after first w) in
  let reply := fst (host_hci_read_rssi host (fst opened) hnd 1000 (snd opened)) in
  let r := result (acquire_rssi host config dev_id hci_sock hnd) w in
  -128 <= r <= 127 /\
  (r = 0 <->
   result first w = 0 /\
   0 <= fst opened /\ 0 <= fst reply /\ to_int8 (snd reply) = 0).
Proof.
  assert (Hrange : forall z, -128 <= to_int8 z <= 127).
  { intros z. unfold to_int8.
    pose proof (Z.mod_pos_bound (z + 128) 256 ltac:(lia)). lia. }
  assert (Hcached : forall w0,
    let opened := host_hci_open_dev host dev_id w0 in
    let reply := fst (host_hci_read_rssi host (fst opened) hnd 1000 (snd opened)) in
    let r := result (dev_get_rssi host dev_id hnd) w0 in
    -128 <= r <= 127 /\
    (r = 0 <-> 0 <= fst opened /\ 0 <= fst reply /\ to_int8 (snd reply) = 0)).
  { intros w0. cbv zeta.
    unfold dev_get_rssi, result, bind, hci_open_dev, hci_read_rssi, call, pam_syslog, ret.
    destruct (host_hci_open_dev host dev_id w0) as [sock w2]. cbn [fst snd].
    destruct (Z.ltb_spec sock 0) as [Hs|Hs]; cbn [fst snd].
    { split; [apply Hrange|].
      split; [intros H; vm_compute in H; discriminate | intros [H _]; lia]. }
    destruct (host_hci_read_rssi host sock hnd 1000 w2) as [[err rssi] w3].
    cbn [fst snd]. destruct (Z.ltb_spec err 0) as [He|He]; cbn [fst snd].
    { split; [apply Hrange|].
      split; [intros H; vm_compute in H; discriminate | intros (_ & H & _); lia]. }
    split; [apply Hrange|]. tauto. }
  assert (Hfresh : forall w0, -128 <= result (get_fresh_rssi host hci_sock hnd) w0 <= 127).
  { intros w0.
    unfold get_fresh_rssi, result, bind, hci_send_req, call, pam_syslog, ret.
    destruct (host_hci_send_req host hci_sock hnd 1000 w0) as [[res rp] w1].
    cbn [fst snd]. destruct (res <? 0); cbn [fst snd]; [lia|].
    destruct (negb (status rp =? 0)); cbn [fst snd]; [lia | apply Hrange]. }
  cbv zeta.
  set (first := if negb (request_update config =? 0)
                then get_fresh_rssi host hci_sock hnd
                else dev_get_rssi host dev_id hnd).
  assert (Hfirst : -128 <= result first w <= 127).
  { unfold first. destruct (negb (request_update config =? 0));
      [apply Hfresh | apply (Hcached w)]. }
  unfold acquire_rssi. fold first.
  unfold result, world_after, bind in *.
  destruct (first w) as [[r1 w1] t1]. cbn [fst snd] in *.
  destruct (Z.eqb_spec r1 0) as [->|Hr1]; cbn [negb].
  - specialize (Hcached w1). cbv zeta in Hcached.
    destruct (dev_get_rssi host dev_id hnd w1) as [[r2 w2] t2]. cbn [fst snd] in *.
    destruct Hcached as [Hr Hz]. split; [exact Hr|]. rewrite Hz. tauto.
  - unfold ret. cbn [fst snd]. split; [exact Hfirst|].
    split; [intros H; contradiction | intros [H _]; contradiction].
Qed.

Lemma check_paired_device_silent P config hci_sock addrs :
  (forall e, P (Syslog e) = false) ->
  (forall a b c, P (HciReadRemoteName a b c) = false) ->
  (forall a b c, P (HciReadRssi a b c) = false) ->
  (check_trusted config = 0 \/
   silent P (is_device_trusted host addrs (ba2str (device_addr config)))) ->
  silent P (check_paired_device host config hci_sock addrs).
Proof.
  intros Hlog Hname Hrssi Htrust.
  pose proof (check_paired_device_proximity_silent P hci_sock (device_addr config)
                (to_int8 (min_strength config)) Hlog Hname Hrssi) as Hprobe.
  unfold check_paired_device. cbv zeta.
  apply silent_bind; [apply silent_syslog, Hlog | intros _].
  destruct (Z.eqb_spec (check_trusted config) 0) as [_|Hct]; cbn [negb];
    [exact Hprobe|].
  destruct Htrust as [Hz|Htrust]; [contradiction|].
  quiet_with ltac:(first [exact Htrust | exact Hprobe]).
Qed.

Lemma check_bluetooth_device_silent P config :
  (forall e, P (Syslog e) = false) ->
  P HciGetRoute = false ->
  (forall a, P (HciDevba a) = false) ->
  (forall a, P (HciOpenDev a) = false) ->
  (forall dev_id sock, silent P (check_connected_device host config dev_id sock)) ->
  (forall sock addrs, silent P (check_paired_device host config sock addrs)) ->
  silent P (check_bluetooth_device host config).
Proof.
  intros Hlog Hroute Hba Hopen Hconn Hpaired.
  unfold check_bluetooth_device, hci_get_route, hci_devba, hci_open_dev.
  quiet_with ltac:(first [apply Hconn | apply Hpaired]).
Qed.

(** X12.  Without [request_update] the engine never asks the controller
    for a fresh measurement: no run of [check_bluetooth_device] contains
    an [hci_send_req] call. *)
Theorem no_request_without_request_update (config : bt_config_t) (w : W) :
  request_update config = 0 ->
  Forall (fun e => is_send_req e = false) (calls (check_bluetooth_device host config) w).
Proof.
  intros Hreq. revert w. fold (silent (A := bool) is_send_req
                                 (check_bluetooth_device host config)).
  apply check_bluetooth_device_silent; try reflexivity.
  - intros dev_id sock. apply check_connected_device_quiet; try reflexivity.
    intros hnd. apply acquire_rssi_cached; [exact Hreq | reflexivity..].
  - intros sock addrs. apply check_paired_device_silent; try reflexivity.
    right. apply is_device_trusted_silent. intros [] He; try reflexivity; discriminate He.
Qed.

(** X13.  Without [check_trusted] the engine never asks for the user id
    and never opens or reads a file: trust resolution is not run at all. *)
Theorem no_trust_access_without_check_trusted (config : bt_config_t) (w : W) :
  check_trusted config = 0 ->
  Forall (fun e => is_trust_access e = false)
         (calls (check_bluetooth_device host config) w).
Proof.
  intros Hct. revert w. fold (silent (A := bool) is_trust_access
                                (check_bluetooth_device host config)).
  apply check_bluetooth_device_silent; try reflexivity.
  - intros dev_id sock. apply check_connected_device_quiet; try reflexivity.
    intros hnd. apply acquire_rssi_quiet; reflexivity.
  - intros sock addrs. apply check_paired_device_silent; try reflexivity.
    left. exact Hct.
Qed.

(** X14.  A connected device with a sufficient signal is granted at once.
    Once the connection list [l] has been obtained: if the signal acquired
    for the first entry with the configured address is non-zero and at
    least [min_strength], [check_bluetooth_device] returns true, the
    paired-device path is not entered, no probe is sent, and trust is not
    consulted, whatever [check_trusted] says. *)
Theorem strong_signal_is_granted_directly
    (config : bt_config_t) (w : W) dev_id w1 res local w2 sock w3 w4 r l w5 ci :
  host_hci_get_route host w = (dev_id, w1) -> 0 <= dev_id ->
  host_hci_devba host dev_id w1 = (res, local, w2) -> 0 <= res ->
  host_hci_open_dev host dev_id w2 = (sock, w3) -> 0 <= sock ->
  host_malloc host (4 + MAX_DEVICES_LOOKDUP * 16) w3 = (true, w4) ->
  host_conn_list host sock dev_id MAX_DEVICES_LOOKDUP w4 = (r, l, w5) -> 0 <= r ->
  first_conn config l = Some ci ->
  result (acquire_rssi host config dev_id sock (handle ci)) w5 <> 0 ->
  min_strength config <= result (acquire_rssi host config dev_id sock (handle ci)) w5 ->
  result (check_bluetooth_device host config) w = true /\
  Forall (fun e => enters_fallback e = false /\ is_probe e = false /\
                   is_trust_access e = false)
         (calls (check_bluetooth_device host config) w).
Proof.
  intros Hroute Hdev Hba Hres Hopen Hsock Hmalloc Hlist Hr Hfirst Hnz Hstrong.
  pose proof (check_connected_device_result host config dev_id sock w3 w4 r l w5
                Hmalloc Hlist Hr) as Hconn.
  pose proof (check_connected_device_silent host is_probe config dev_id sock
                (or_introl eq_refl) w3) as Hprobe.
  pose proof (check_connected_device_silent host enters_fallback config dev_id sock
                (or_intror eq_refl) w3) as Hfall.
  assert (Htrust : silent is_trust_access (check_connected_device host config dev_id sock)).
  { apply check_connected_device_quiet; try reflexivity.
    intros hnd. apply acquire_rssi_quiet; reflexivity. }
  specialize (Htrust w3).
  unfold result, calls in *.
  rewrite (check_bluetooth_device_run host config w dev_id w1 res local w2 sock w3)
    by assumption.
  destruct (check_connected_device host config dev_id sock w3) as [[conn_is w6] t6].
  cbn [fst snd] in Hconn, Hprobe, Hfall, Htrust.
  rewrite Hfirst in Hconn. cbv zeta in Hconn.
  rewrite (proj2 (Z.eqb_neq _ 0) Hnz), (proj2 (Z.leb_le _ _) Hstrong) in Hconn.
  subst conn_is. cbn [Z.eqb Pos.eqb ret fst snd]. rewrite app_nil_r.
  split; [reflexivity|].
  repeat (constructor; [repeat split; reflexivity|]).
  clear - Hprobe Hfall Htrust.
  induction t6 as [|e t IH]; constructor.
  - inversion Hprobe; inversion Hfall; inversion Htrust; subst. auto.
  - inversion Hprobe; inversion Hfall; inversion Htrust; subst. apply IH; assumption.
Qed.

(** X15.  The paired-device path answers true exactly when trust is not
    required or resolves to Trusted, the remote-name request succeeds, and
    the RSSI read that follows either does not return 0 or reports a
    signal of at least [min_strength]. *)
Theorem paired_device_grants_iff
    (config : bt_config_t) (hci_sock : Z) (addrs : list ascii) (w : W) :
  let trust := is_device_trusted host addrs (ba2str (device_addr config)) in
  let w1 := if check_trusted config =? 0 then w else world_after trust w in
  let name := host_hci_read_remote_name host hci_sock (device_addr config) 500 w1 in
  let reply := fst (host_hci_read_rssi host hci_sock 0 100 (snd name)) in
  result (check_paired_device host config hci_sock addrs) w = true <->
  (check_trusted config = 0 \/ result trust w = 1) /\
  0 <= fst name /\
  (fst reply <> 0 \/ to_int8 (min_strength config) <= to_int8 (snd reply)).
Proof.
  cbv zeta.
  pose proof (check_paired_device_proximity_result hci_sock (device_addr config)
                (to_int8 (min_strength config))) as Hprobe.
  cbv zeta in Hprobe.
  pose proof (is_device_trusted_range host addrs (ba2str (device_addr config)) w) as Hrange.
  cbv zeta in Hrange.
  unfold check_paired_device, result, world_after, bind, pam_syslog in *.
  cbn [fst snd]. cbv zeta.
  destruct (Z.eqb_spec (check_trusted config) 0) as [Hct|Hct]; cbn [negb].
  - specialize (Hprobe w).
    destruct (check_paired_device_proximity host hci_sock (device_addr config)
                (to_int8 (min_strength config)) w) as [[ok w2] t2].
    cbn [fst snd] in *. rewrite Hprobe. tauto.
  - destruct (is_device_trusted host addrs (ba2str (device_addr config)) w)
      as [[tr w2] t2].
    cbn [fst snd] in *.
    destruct Hrange as [-> | [-> | ->]].
    + change (1 <? 0) with false. change (1 =? 0) with false. cbv iota.
      specialize (Hprobe w2).
      destruct (check_paired_device_proximity host hci_sock (device_addr config)
                  (to_int8 (min_strength config)) w2) as [[ok w3] t3] eqn:E.
      rewrite E. cbn [fst snd] in *. rewrite Hprobe. tauto.
    + change (0 <? 0) with false. change (0 =? 0) with true. cbv iota.
      unfold ret. cbn [fst snd].
      split; [discriminate | intros [[H|H] _]; [contradiction | discriminate]].
    + change (-1 <? 0) with true. cbv iota. unfold ret. cbn [fst snd].
      split; [discriminate | intros [[H|H] _]; [contradiction | discriminate]].
Qed.

(** X16.  With [check_trusted] set, the paired-device path denies every
    caller whose user id is not 1, root (0) included: it returns false
    after the user-id test, without opening the pairing file and without
    sending a probe. *)
Theorem check_trusted_denies_every_uid_but_1
    (config : bt_config_t) (hci_sock : Z) (addrs : list ascii) (w : W) :
  check_trusted config <> 0 ->
  fst (host_getuid host w) <> 1 ->
  run (check_paired_device host config hci_sock addrs) w =
  (false,
   [Syslog (Log LOG_DEBUG "Checking for nearby paired Bluetooth device..." []);
    SysGetuid;
    Syslog (Log LOG_WARNING
                "Cannot open Bluetooth info file without root, assuming untrusted" []);
    Syslog (Log LOG_WARNING "Device not trusted" [])]).
Proof.
  intros Hct Huid.
  pose proof (uid_gate_closed host addrs (ba2str (device_addr config)) w Huid) as Hgate.
  unfold check_paired_device, run, bind, pam_syslog in *. cbv zeta.
  rewrite (proj2 (Z.eqb_neq _ 0) Hct). cbn [negb].
  destruct (is_device_trusted host addrs (ba2str (device_addr config)) w)
    as [[tr w2] t2].
  injection Hgate as -> ->. reflexivity.
Qed.

(** X17.  [check_bluetooth_device] answers true in two ways only, and
    never without an adapter: the route, the adapter address and the HCI
    socket are obtained, and then either the connected-device check
    returns 1, or it returns 0 and the paired-device path answers true. *)
Theorem engine_grants_iff (config : bt_config_t) (w : W) :
  result (check_bluetooth_device host config) w = true <->
  exists dev_id w1 res local w2 sock w3,
    host_hci_get_route host w = (dev_id, w1) /\ 0 <= dev_id /\
    host_hci_devba host dev_id w1 = (res, local, w2) /\ 0 <= res /\
    host_hci_open_dev host dev_id w2 = (sock, w3) /\ 0 <= sock /\
    let conn := check_connected_device host config dev_id sock in
    (result conn w3 = 1 \/
     (result conn w3 = 0 /\
      result (check_paired_device host config sock (ba2str local))
             (world_after conn w3) = true)).
Proof.
  destruct (host_hci_get_route host w) as [dev_id w1] eqn:E1.
  destruct (Z.ltb_spec dev_id 0) as [Hd|Hd].
  { unfold check_bluetooth_device, result, bind, hci_get_route, call, pam_syslog, ret.
    rewrite E1. cbn [fst snd]. replace (dev_id <? 0) with true by lia. cbn [fst snd].
    split; [discriminate|].
    intros (? & ? & ? & ? & ? & ? & ? & [= <- <-] & H & _). lia. }
  destruct (host_hci_devba host dev_id w1) as [[res local] w2] eqn:E2.
  destruct (Z.ltb_spec res 0) as [Hres|Hres].
  { unfold check_bluetooth_device, result, bind, hci_get_route, hci_devba, call,
      pam_syslog, ret.
    rewrite E1. cbn [fst snd]. replace (dev_id <? 0) with false by lia.
    rewrite E2. cbn [fst snd]. replace (res <? 0) with true by lia. cbn [fst snd].
    split; [discriminate|].
    intros (? & ? & ? & ? & ? & ? & ? & [= <- <-] & _ & H2 & H & _).
    rewrite E2 in H2. injection H2 as <- _ _. lia. }
  destruct (host_hci_open_dev host dev_id w2) as [sock w3] eqn:E3.
  destruct (Z.ltb_spec sock 0) as [Hs|Hs].
  { unfold check_bluetooth_device, result, bind, hci_get_route, hci_devba, hci_open_dev,
      call, pam_syslog, ret.
    rewrite E1. cbn [fst snd]. replace (dev_id <? 0) with false by lia.
    rewrite E2. cbn [fst snd]. replace (res <? 0) with false by lia.
    rewrite (proj2 (Z.ltb_ge (Z.of_nat (length (ba2str local))) 0))
      by apply Nat2Z.is_nonneg.
    cbn [fst snd]. rewrite E3. cbn [fst snd]. replace (sock <? 0) with true by lia.
    cbn [fst snd]. split; [discriminate|].
    intros (? & ? & ? & ? & ? & ? & ? & [= <- <-] & _ & H2 & _ & H3 & H & _).
    rewrite E2 in H2. injection H2 as <- <- <-. rewrite E3 in H3.
    injection H3 as <- _. lia. }
  unfold result, world_after.
  rewrite (check_bluetooth_device_run host config w dev_id w1 res local w2 sock w3)
    by assumption.
  destruct (check_connected_device host config dev_id sock w3) as [[conn_is w4] t4] eqn:E4.
  assert (Hgoal :
    fst (fst (let '(ok, w5, t5) :=
                (if conn_is =? 0
                 then check_paired_device host config sock (ba2str local)
                 else ret (conn_is =? 1)) w4 in
              (ok, w5,
               HciGetRoute :: HciDevba dev_id ::
               Syslog (Log LOG_DEBUG "Current listener device %s"
                         [ArgStr (ba2str local)]) ::
               HciOpenDev dev_id :: t4 ++ t5))) = true <->
    (conn_is = 1 \/
     (conn_is = 0 /\
      fst (fst (check_paired_device host config sock (ba2str local) w4)) = true))).
  { destruct (Z.eqb_spec conn_is 0) as [->|Hc0].
    - destruct (check_paired_device host config sock (ba2str local) w4) as [[ok w5] t5].
      cbn [fst snd]. split; [intros ->; right; split; reflexivity|].
      intros [H|[_ H]]; [discriminate | exact H].
    - unfold ret. cbn [fst snd]. rewrite Z.eqb_eq. split; [intros H; left; exact H|].
      intros [H|[H _]]; [exact H | contradiction]. }
  rewrite Hgoal. split.
  - intros H. exists dev_id, w1, res, local, w2, sock, w3.
    rewrite E4. cbn [fst snd].
    split; [reflexivity|]. split; [exact Hd|]. split; [exact E2|]. split; [exact Hres|].
    split; [exact E3|]. split; [exact Hs|]. exact H.
  - intros (? & ? & ? & ? & ? & ? & ? & [= <- <-] & _ & H2 & _ & H3 & _ & H).
    rewrite E2 in H2. injection H2 as <- <- <-. rewrite E3 in H3.
    injection H3 as <- <-. rewrite E4 in H. cbn [fst snd] in H. exact H.
Qed.

End Engine.

(** X11 on a concrete host: both cached reads report 0. *)
Lemma acquire_rssi_zero_witness :
  result (acquire_rssi scripted good_config 0 5 12) zero_signal_world = 0.
Proof.
  apply (proj2 (proj2 (acquire_rssi_zero scripted good_config 0 5 12 zero_signal_world))).
  vm_compute. repeat split; intros H; discriminate H.
Defined.

(** X12 and X13 on a concrete host: [good_config] sets neither option. *)
Lemma no_request_without_request_update_witness :
  Forall (fun e => is_send_req e = false)
         (calls (check_bluetooth_device scripted good_config) weak_world).
Proof.
  apply (no_request_without_request_update scripted good_config weak_world).
  reflexivity.
Defined.

Lemma no_trust_access_without_check_trusted_witness :
  Forall (fun e => is_trust_access e = false)
         (calls (check_bluetooth_device scripted good_config) weak_world).
Proof.
  apply (no_trust_access_without_check_trusted scripted good_config weak_world).
  reflexivity.
Defined.

(** X14 on a concrete host: the target is the second connection, its
    cached RSSI is -60, the threshold is -70, and [check_trusted] is set. *)
Lemma strong_signal_is_granted_directly_witness :
  result (check_bluetooth_device scripted trusting_config) strong_world = true /\
  Forall (fun e => enters_fallback e = false /\ is_probe e = false /\
                   is_trust_access e = false)
         (calls (check_bluetooth_device scripted trusting_config) strong_world).
Proof.
  apply (strong_signal_is_granted_directly scripted trusting_config
           strong_world 0 strong_world 0 adapter strong_world 5 strong_world strong_world
           0 [ConnInfo 11 [9; 9; 9; 9; 9; 9]; ConnInfo 12 target] strong_world
           (ConnInfo 12 target));
    try reflexivity; try (simpl; lia).
  - vm_compute. discriminate.
  - vm_compute. discriminate.
Defined.

(** X16 on a concrete host: the module runs as root. *)
Lemma check_trusted_denies_every_uid_but_1_witness :
  run (check_paired_device scripted trusting_config 5 (ba2str adapter)) strong_world =
  (false,
   [Syslog (Log LOG_DEBUG "Checking for nearby paired Bluetooth device..." []);
    SysGetuid;
    Syslog (Log LOG_WARNING
                "Cannot open Bluetooth info file without root, assuming untrusted" []);
    Syslog (Log LOG_WARNING "Device not trusted" [])]).
Proof.
  apply (check_trusted_denies_every_uid_but_1 scripted trusting_config 5
           (ba2str adapter) strong_world).
  - simpl. lia.
  - simpl. lia.
Defined.

(* ===================================================================== *)
(** * The authentication verdict *)
(* ===================================================================== *)

Section Authentication.

Context {W : Type} (host : Host W).

#[local] Arguments Libc.strcmp : simpl never.
#[local] Arguments lit : simpl never.

(** The loop over the module arguments sets the flag exactly when the
    option is among them. *)
Lemma scan_args_spec argv : forall a,
  scan_args argv a = if allows_password argv then 1 else a.
Proof.
  unfold allows_password.
  induction argv as [|x argv IH]; intros a; cbn [scan_args existsb]; [reflexivity|].
  rewrite IH. destruct (Libc.strcmp x (lit "allow_with_password") =? 0); cbn [orb].
  - destruct (existsb _ argv); reflexivity.
  - reflexivity.
Qed.

(** X18.  [pam_sm_authenticate] returns [PAM_SUCCESS] exactly when the
    configuration loads, [pam_get_authtok] succeeds, the password is empty
    or [allow_with_password] is among the module arguments, and
    [check_bluetooth_device], run on the loaded configuration, answers
    true. *)
Theorem authentication_succeeds_iff
    (stack_config : bt_config_t) (argv : list (list ascii)) (w : W) :
  let load := read_config host stack_config in
  let tok := host_pam_get_authtok host (world_after load w) in
  result (pam_sm_authenticate host stack_config argv) w = PAM_SUCCESS <->
  fst (result load w) = 0 /\
  fst (fst tok) = PAM_SUCCESS /\
  (has_password (snd (fst tok)) = false \/ allows_password argv = true) /\
  result (check_bluetooth_device host (snd (result load w))) (snd tok) = true.
Proof.
  cbv zeta. unfold pam_sm_authenticate, result, world_after, bind.
  rewrite scan_args_spec.
  destruct (read_config host stack_config w) as [[[res config] w1] t1].
  cbn [fst snd]. destruct (Z.eqb_spec res 0) as [->|Hres]; cbn [negb].
  2: { unfold ret, PAM_AUTH_ERR, PAM_SUCCESS. cbn [fst snd].
       split; [discriminate | intros [H _]; contradiction]. }
  unfold pam_get_authtok, call, pam_syslog, ret.
  destruct (host_pam_get_authtok host w1) as [[retval password] w2]. cbn [fst snd].
  destruct (Z.eqb_spec retval PAM_SUCCESS) as [->|Hret]; cbn [negb fst snd].
  2: { split; [intros H; contradiction | intros (_ & H & _); contradiction]. }
  destruct (has_password password); cbn [andb].
  - destruct (allows_password argv); cbn [Z.eqb fst snd].
    + destruct (check_bluetooth_device host config w2) as [[ok w3] t3].
      cbn [fst snd]. destruct ok; cbn [fst snd]; unfold PAM_AUTH_ERR, PAM_SUCCESS.
      * split; [intros _; repeat split; auto | reflexivity].
      * split; [discriminate | intros (_ & _ & _ & H); discriminate].
    + unfold PAM_AUTH_ERR, PAM_SUCCESS.
      split; [discriminate | intros (_ & _ & [H|H] & _); discriminate].
  - destruct (check_bluetooth_device host config w2) as [[ok w3] t3].
    cbn [fst snd]. destruct ok; cbn [fst snd]; unfold PAM_AUTH_ERR, PAM_SUCCESS.
    + split; [intros _; repeat split; auto | reflexivity].
    + split; [discriminate | intros (_ & _ & _ & H); discriminate].
Qed.

(** X19.  When the configuration does not load, [pam_sm_authenticate]
    returns [PAM_AUTH_ERR] and does nothing besides what [read_config]
    did: the password is not asked for and the radio is not touched. *)
Theorem load_failure_denies_at_once
    (stack_config : bt_config_t) (argv : list (list ascii)) (w : W) :
  fst (result (read_config host stack_config) w) <> 0 ->
  run (pam_sm_authenticate host stack_config argv) w =
  (PAM_AUTH_ERR, calls (read_config host stack_config) w).
Proof.
  unfold pam_sm_authenticate, run, result, calls, bind.
  destruct (read_config host stack_config w) as [[[res config] w1] t1].
  cbn [fst snd]. intros Hres. rewrite (proj2 (Z.eqb_neq res 0) Hres). cbn [negb].
  unfold ret. rewrite app_nil_r. reflexivity.
Qed.

(** X20.  When [pam_get_authtok] fails, its status is what the module
    returns, and the run ends there: after the calls of [read_config],
    the request for the token and one log line. *)
Theorem authtok_failure_is_passed_on
    (stack_config : bt_config_t) (argv : list (list ascii)) (w : W) :
  let load := read_config host stack_config in
  let retval := fst (fst (host_pam_get_authtok host (world_after load w))) in
  fst (result load w) = 0 ->
  retval <> PAM_SUCCESS ->
  run (pam_sm_authenticate host stack_config argv) w =
  (retval,
   calls load w ++ [PamGetAuthtok; Syslog (Log LOG_ERR "Failed to get password" [])]).
Proof.
  cbv zeta. unfold pam_sm_authenticate, run, result, calls, world_after, bind.
  destruct (read_config host stack_config w) as [[[res config] w1] t1].
  cbn [fst snd]. intros -> Hret. cbn [Z.eqb negb].
  unfold pam_get_authtok, call, pam_syslog, ret.
  destruct (host_pam_get_authtok host w1) as [[retval password] w2].
  cbn [fst snd] in *. rewrite (proj2 (Z.eqb_neq retval PAM_SUCCESS) Hret). cbn [negb].
  reflexivity.
Qed.

(** X21.  The radio is reached only through the gates: if a run of
    [pam_sm_authenticate] contains any HCI call, then the configuration
    loaded, [pam_get_authtok] succeeded, and the password was empty or
    [allow_with_password] was given. *)
Theorem radio_only_after_the_gates
    (stack_config : bt_config_t) (argv : list (list ascii)) (w : W) :
  let load := read_config host stack_config in
  let tok := host_pam_get_authtok host (world_after load w) in
  existsb is_radio (calls (pam_sm_authenticate host stack_config argv) w) = true ->
  fst (result load w) = 0 /\
  fst (fst tok) = PAM_SUCCESS /\
  (has_password (snd (fst tok)) = false \/ allows_password argv = true).
Proof.
  cbv zeta. intros Hex.
  pose proof (read_config_no_radio host stack_config w) as Hquiet.
  assert (Hnone : forall t, Forall (fun e => is_radio e = false) t ->
                            existsb is_radio t = false).
  { induction 1 as [|e t He _ IH]; cbn [existsb]; [reflexivity|].
    rewrite He, IH. reflexivity. }
  unfold pam_sm_authenticate, result, calls, world_after, bind in *.
  rewrite scan_args_spec in Hex.
  destruct (read_config host stack_config w) as [[[res config] w1] t1].
  cbn [fst snd] in *. apply Hnone in Hquiet.
  destruct (Z.eqb_spec res 0) as [->|Hres]; cbn [negb] in Hex.
  2: { unfold ret in Hex. cbn [fst snd] in Hex. rewrite app_nil_r in Hex.
       rewrite Hquiet in Hex. discriminate Hex. }
  unfold pam_get_authtok, call, pam_syslog, ret in Hex.
  destruct (host_pam_get_authtok host w1) as [[retval password] w2].
  cbn [fst snd] in *.
  destruct (Z.eqb_spec retval PAM_SUCCESS) as [->|Hret]; cbn [negb fst snd] in Hex.
  2: { rewrite existsb_app, Hquiet in Hex. discriminate Hex. }
  split; [reflexivity|]. split; [reflexivity|].
  destruct (has_password password); [|left; reflexivity].
  destruct (allows_password argv); [right; reflexivity|].
  cbn [andb Z.eqb fst snd] in Hex. rewrite existsb_app, Hquiet in Hex. discriminate Hex.
Qed.

End Authentication.

(** X19 on a concrete host: the configuration file has no [device] line. *)
Lemma load_failure_denies_at_once_witness :
  run (pam_sm_authenticate scripted zero_config [])
      (world_of 0 (lines ["min_strength = -70"%string]) [] (0, -60) []) =
  (PAM_AUTH_ERR,
   calls (read_config scripted zero_config)
         (world_of 0 (lines ["min_strength = -70"%string]) [] (0, -60) [])).
Proof.
  apply (load_failure_denies_at_once scripted zero_config []
           (world_of 0 (lines ["min_strength = -70"%string]) [] (0, -60) [])).
  vm_compute. discriminate.
Defined.

(** X21 on a concrete host: an empty password, a connected device. *)
Lemma radio_only_after_the_gates_witness :
  fst (result (read_config scripted zero_config) strong_world) = 0 /\
  fst (fst (host_pam_get_authtok scripted
              (world_after (read_config scripted zero_config) strong_world)))
  = PAM_SUCCESS /\
  (has_password (snd (fst (host_pam_get_authtok scripted
              (world_after (read_config scripted zero_config) strong_world)))) = false \/
   allows_password [] = true).
Proof.
  apply (radio_only_after_the_gates scripted zero_config [] strong_world).
  vm_compute. reflexivity.
Defined.

(** X20 on a concrete host: [pam_get_authtok] returns 20. *)
Lemma authtok_failure_is_passed_on_witness :
  run (pam_sm_authenticate scripted zero_config []) no_token_world =
  (20,
   calls (read_config scripted zero_config) no_token_world ++
   [PamGetAuthtok; Syslog (Log LOG_ERR "Failed to get password" [])]).
Proof.
  apply (authtok_failure_is_passed_on scripted zero_config [] no_token_world).
  - vm_compute. reflexivity.
  - vm_compute. discriminate.
Defined.

(* ===================================================================== *)
(** * The connected-device check: whom it measures, how it fails *)
(* ===================================================================== *)

Section Connected.

Context {W : Type} (host : Host W).

#[local] Arguments ba2str : simpl never.
#[local] Arguments bacmp : simpl never.

Lemma acquire_rssi_handle config dev_id hci_sock hnd :
  silent (measures_other hnd) (acquire_rssi host config dev_id hci_sock hnd).
Proof.
  assert (H1 : forall a c, measures_other hnd (HciReadRssi a hnd c) = false).
  { intros. unfold measures_other. cbn [measures]. rewrite Z.eqb_refl. reflexivity. }
  assert (H2 : forall a b c d, measures_other hnd (HciSendReq a b c hnd d) = false).
  { intros. unfold measures_other. cbn [measures]. rewrite Z.eqb_refl. reflexivity. }
  unfold acquire_rssi, get_fresh_rssi, dev_get_rssi, hci_send_req, hci_open_dev,
    hci_read_rssi.
  quiet_with ltac:(first [apply silent_syslog; reflexivity | apply silent_call; reflexivity]).
Qed.

(** X22.  Only the configured device is measured.  When the connection
    list is allocated and the HCIGETCONNLIST ioctl succeeds, with [l] the
    list it filled in, every RSSI read and every RSSI request of
    [check_connected_device] is made on the handle of the first entry of
    [l] that has the configured address, and nothing is measured if there
    is no such entry.  When the allocation or the ioctl fails, nothing is
    measured. *)
Theorem only_the_target_is_measured
    (config : bt_config_t) (dev_id hci_sock : Z) (w : W) ok w1 r l w2 :
  host_malloc host (4 + MAX_DEVICES_LOOKDUP * 16) w = (ok, w1) ->
  host_conn_list host hci_sock dev_id MAX_DEVICES_LOOKDUP w1 = (r, l, w2) ->
  match (if ok && (0 <=? r) then first_conn config l else None) with
  | Some ci =>
      Forall (fun e => measures_other (handle ci) e = false)
             (calls (check_connected_device host config dev_id hci_sock) w)
  | None =>
      Forall (fun e => measures e = None)
             (calls (check_connected_device host config dev_id hci_sock) w)
  end.
Proof.
  intros Hm Hl.
  unfold check_connected_device, calls, bind, pam_syslog, malloc, ioctl_HCIGETCONNLIST,
    call, ret.
  rewrite Hm. cbn [fst snd]. destruct ok; cbn [negb andb fst snd app].
  2: { repeat constructor. }
  rewrite Hl. cbn [fst snd].
  destruct (Z.ltb_spec r 0) as [Hneg|Hr]; cbn [fst snd app].
  { rewrite (proj2 (Z.leb_gt 0 r) Hneg). repeat constructor. }
  rewrite (proj2 (Z.leb_le 0 r) Hr).
  destruct (Z.of_nat (length l) =? 0); cbn [fst snd app].
  { destruct (first_conn config l); repeat constructor. }
  rewrite scan_connections_first.
  destruct (first_conn config l) as [ci|]; [|repeat constructor].
  pose proof (acquire_rssi_handle config dev_id hci_sock (handle ci) w2) as Hacq.
  unfold calls, bind in *.
  destruct (acquire_rssi host config dev_id hci_sock (handle ci) w2) as [[rssi w3] t3].
  cbn [fst snd] in *. unfold judge_rssi, bind, pam_syslog, ret.
  assert (Hlog : forall t, Forall (fun e => exists x, e = Syslog x) t ->
                           Forall (fun e => measures_other (handle ci) e = false) (t3 ++ t)).
  { intros t Ht. apply Forall_app. split; [exact Hacq|].
    eapply Forall_impl; [exact Ht|]. intros e [x ->]. reflexivity. }
  destruct (rssi =? 0); [|destruct (min_strength config <=? rssi)];
    cbn [fst snd app]; repeat (constructor; [reflexivity|]);
    apply Hlog; repeat constructor; eexists; reflexivity.
Qed.

(** X23.  An allocation failure denies.  When the adapter and the socket
    are there but the connection list cannot be allocated,
    [check_bluetooth_device] returns false at once: the connection list is
    not requested and the paired-device path is not tried. *)
Theorem allocation_failure_denies
    (config : bt_config_t) (w : W) dev_id w1 res local w2 sock w3 w4 :
  host_hci_get_route host w = (dev_id, w1) -> 0 <= dev_id ->
  host_hci_devba host dev_id w1 = (res, local, w2) -> 0 <= res ->
  host_hci_open_dev host dev_id w2 = (sock, w3) -> 0 <= sock ->
  host_malloc host (4 + MAX_DEVICES_LOOKDUP * 16) w3 = (false, w4) ->
  run (check_bluetooth_device host config) w =
  (false,
   [HciGetRoute; HciDevba dev_id;
    Syslog (Log LOG_DEBUG "Current listener device %s" [ArgStr (ba2str local)]);
    HciOpenDev dev_id;
    Syslog (Log LOG_DEBUG "Checking for connected Bluetooth devices..." []);
    SysMalloc (4 + MAX_DEVICES_LOOKDUP * 16);
    Syslog (Log LOG_ERR "Memory allocation failed" [])]).
Proof.
  intros Hroute Hdev Hba Hres Hopen Hsock Hmalloc. unfold run.
  rewrite (check_bluetooth_device_run host config w dev_id w1 res local w2 sock w3)
    by assumption.
  unfold check_connected_device, bind, pam_syslog, malloc, call, ret.
  rewrite Hmalloc. reflexivity.
Qed.

(** X24.  When the device cannot be judged from the connection list, the
    paired-device path decides.  If the HCIGETCONNLIST ioctl fails, or the
    list has no entry with the configured address, or the signal acquired
    for that entry is 0, then what [check_bluetooth_device] returns is
    what [check_paired_device] returns, run after the connected-device
    check. *)
Theorem unjudged_device_falls_back
    (config : bt_config_t) (w : W) dev_id w1 res local w2 sock w3 w4 r l w5 :
  host_hci_get_route host w = (dev_id, w1) -> 0 <= dev_id ->
  host_hci_devba host dev_id w1 = (res, local, w2) -> 0 <= res ->
  host_hci_open_dev host dev_id w2 = (sock, w3) -> 0 <= sock ->
  host_malloc host (4 + MAX_DEVICES_LOOKDUP * 16) w3 = (true, w4) ->
  host_conn_list host sock dev_id MAX_DEVICES_LOOKDUP w4 = (r, l, w5) ->
  (r < 0 \/
   first_conn config l = None \/
   exists ci, first_conn config l = Some ci /\
              result (acquire_rssi host config dev_id sock (handle ci)) w5 = 0) ->
  result (check_bluetooth_device host config) w =
  result (check_paired_device host config sock (ba2str local))
         (world_after (check_connected_device host config dev_id sock) w3).
Proof.
  intros Hroute Hdev Hba Hres Hopen Hsock Hmalloc Hlist Hcase.
  assert (Hzero : result (check_connected_device host config dev_id sock) w3 = 0).
  { destruct (Z.ltb_spec r 0) as [Hneg|Hr].
    - unfold check_connected_device, result, bind, pam_syslog, malloc,
        ioctl_HCIGETCONNLIST, call, ret.
      rewrite Hmalloc. cbn [fst snd negb]. rewrite Hlist. cbn [fst snd].
      replace (r <? 0) with true by lia. reflexivity.
    - rewrite (check_connected_device_result host config dev_id sock w3 w4 r l w5
                 Hmalloc Hlist Hr).
      destruct Hcase as [Hneg | [-> | (ci & -> & Hs)]]; [lia | reflexivity |].
      cbv zeta. rewrite Hs. reflexivity. }
  unfold result, world_after in *.
  rewrite (check_bluetooth_device_run host config w dev_id w1 res local w2 sock w3)
    by assumption.
  destruct (check_connected_device host config dev_id sock w3) as [[conn_is w6] t6].
  cbn [fst snd] in *. subst conn_is. cbn [Z.eqb].
  destruct (check_paired_device host config sock (ba2str local) w6) as [[ok w7] t7].
  reflexivity.
Qed.

End Connected.

(** X22 on a concrete host: the target is the second connection, handle 12. *)
Lemma only_the_target_is_measured_witness :
  Forall (fun e => measures_other 12 e = false)
         (calls (check_connected_device scripted good_config 0 5) strong_world).
Proof.
  apply (only_the_target_is_measured scripted good_config 0 5 strong_world
           true strong_world 0 [ConnInfo 11 [9; 9; 9; 9; 9; 9]; ConnInfo 12 target]
           strong_world); reflexivity.
Defined.

(** X23 on a concrete host. *)
Lemma allocation_failure_denies_witness :
  run (check_bluetooth_device scripted good_config) no_memory_world =
  (false,
   [HciGetRoute; HciDevba 0;
    Syslog (Log LOG_DEBUG "Current listener device %s" [ArgStr (ba2str adapter)]);
    HciOpenDev 0;
    Syslog (Log LOG_DEBUG "Checking for connected Bluetooth devices..." []);
    SysMalloc (4 + MAX_DEVICES_LOOKDUP * 16);
    Syslog (Log LOG_ERR "Memory allocation failed" [])]).
Proof.
  apply (allocation_failure_denies scripted good_config no_memory_world
           0 no_memory_world 0 adapter no_memory_world 5 no_memory_world no_memory_world);
    try reflexivity; simpl; lia.
Defined.

(** X24 on a concrete host: the target is connected, its signal reads 0. *)
Lemma unjudged_device_falls_back_witness :
  result (check_bluetooth_device scripted good_config) zero_signal_world =
  result (check_paired_device scripted good_config 5 (ba2str adapter))
         (world_after (check_connected_device scripted good_config 0 5) zero_signal_world).
Proof.
  apply (unjudged_device_falls_back scripted good_config zero_signal_world
           0 zero_signal_world 0 adapter zero_signal_world 5 zero_signal_world
           zero_signal_world 0 [ConnInfo 11 [9; 9; 9; 9; 9; 9]; ConnInfo 12 target]
           zero_signal_world);
    try reflexivity; try (simpl; lia).
  right. right. exists (ConnInfo 12 target). split; [reflexivity|].
  vm_compute. reflexivity.
Defined.

(* ===================================================================== *)
(** * Blank lines and comments *)
(* ===================================================================== *)

Section ParserNoise.

Variable fbuffer : list ascii.
Variable read_res : Z.
Hypothesis Hlen : read_res <= Z.of_nat (length fbuffer).

Lemma unread_step p :
  0 <= p < read_res ->
  unread fbuffer read_res p = byte_at fbuffer p :: unread fbuffer read_res (p + 1).
Proof.
  intros Hp. unfold unread, byte_at.
  destruct (p <? 0) eqn:E; [lia|].
  destruct (lookup_lt_is_Some_2 fbuffer (Z.to_nat p) ltac:(lia)) as [x Hx].
  rewrite Hx. change (default NUL (Some x)) with x.
  replace (Z.to_nat (p + 1)) with (S (Z.to_nat p)) by lia.
  apply drop_S. rewrite lookup_take_lt by lia. exact Hx.
Qed.

Lemma unread_end p : read_res <= p -> 0 <= p -> unread fbuffer read_res p = [].
Proof.
  intros Hp H0. unfold unread. apply drop_ge. rewrite length_take. lia.
Qed.

Lemma skip_spaces_from_noise f : forall c,
  0 <= pos c ->
  is_noise false (unread fbuffer read_res (pos c)) = true ->
  is_noise false (unread fbuffer read_res (pos (skip_spaces_from fbuffer read_res f c)))
  = true.
Proof.
  induction f as [|f IH]; intros c H0 Hn; cbn [skip_spaces_from]; [exact Hn|].
  destruct (Z.ltb_spec (pos c) read_res) as [Hin|Hout]; [|exact Hn].
  unfold peek. destruct (Ascii.eqb (byte_at fbuffer (pos c)) SP) eqn:E; [|exact Hn].
  apply IH; cbn [advance touch pos]; [lia|].
  rewrite unread_step in Hn by lia. cbn [is_noise] in Hn. rewrite E in Hn. exact Hn.
Qed.

Lemma skip_newlines_from_noise f : forall c,
  0 <= pos c ->
  is_noise false (unread fbuffer read_res (pos c)) = true ->
  is_noise false (unread fbuffer read_res (pos (skip_newlines_from fbuffer read_res f c)))
  = true.
Proof.
  induction f as [|f IH]; intros c H0 Hn; cbn [skip_newlines_from]; [exact Hn|].
  destruct (Z.ltb_spec (pos c) read_res) as [Hin|Hout]; [|exact Hn].
  unfold peek. destruct (Ascii.eqb (byte_at fbuffer (pos c)) LF) eqn:E; [|exact Hn].
  apply IH; cbn [next_line advance touch pos]; [lia|].
  rewrite unread_step in Hn by lia. cbn [is_noise] in Hn. rewrite E in Hn.
  rewrite orb_true_r in Hn. exact Hn.
Qed.

(** The comment loop stops at the line feed that ends the comment, or at
    the end of the input. *)
Lemma skip_comment_from_noise f : forall c,
  0 <= pos c -> (remaining read_res c <= f)%nat ->
  is_noise true (unread fbuffer read_res (pos c)) = true ->
  let c' := skip_comment_from fbuffer read_res f c in
  is_noise true (unread fbuffer read_res (pos c')) = true /\
  (pos c' < read_res -> byte_at fbuffer (pos c') = LF).
Proof.
  induction f as [|f IH]; intros c H0 Hf Hn; cbn [skip_comment_from].
  - split; [exact Hn|]. unfold remaining in Hf. intros H. lia.
  - destruct (Z.ltb_spec (pos c) read_res) as [Hin|Hout].
    2: { split; [exact Hn | intros H; lia]. }
    unfold peek. destruct (Ascii.eqb (byte_at fbuffer (pos c)) LF) eqn:E.
    + cbn [touch pos]. split; [exact Hn|]. intros _. apply Ascii.eqb_eq. exact E.
    + apply IH; cbn [advance touch pos].
      * lia.
      * unfold remaining in *. cbn [advance touch pos]. lia.
      * rewrite unread_step in Hn by lia. cbn [is_noise] in Hn. rewrite E in Hn.
        exact Hn.
Qed.

Lemma parse_from_noise f : forall c,
  0 <= pos c ->
  is_noise false (unread fbuffer read_res (pos c)) = true ->
  fst (fst (parse_from fbuffer read_res f c)) = 0.
Proof.
  induction f as [|f IH]; intros c H0 Hn; cbn [parse_from]; [reflexivity|].
  destruct (Z.ltb_spec (pos c) read_res) as [Hin|Hout]; [|reflexivity].
  unfold peek. cbn [touch pos].
  pose proof Hn as Hn'. rewrite unread_step in Hn' by lia. cbn [is_noise] in Hn'.
  destruct (Ascii.eqb (byte_at fbuffer (pos c)) SP) eqn:Esp.
  { apply IH.
    - pose proof (skip_spaces_from_frame fbuffer read_res
                    (remaining read_res (advance (touch (RdBuf (pos c)) c)))
                    (advance (touch (RdBuf (pos c)) c))) as (Hs & _).
      unfold skip_spaces. cbn [advance touch pos] in *. lia.
    - unfold skip_spaces. apply skip_spaces_from_noise; cbn [advance touch pos];
        [lia | exact Hn']. }
  destruct (Ascii.eqb (byte_at fbuffer (pos c)) LF) eqn:Elf.
  { apply IH.
    - pose proof (skip_newlines_from_pos fbuffer read_res
                    (remaining read_res
                       (advance (touch (RdBuf (pos c)) (touch (RdBuf (pos c)) c))))
                    (advance (touch (RdBuf (pos c)) (touch (RdBuf (pos c)) c)))) as Hs.
      unfold skip_newlines. cbn [advance touch pos] in *. lia.
    - unfold skip_newlines. apply skip_newlines_from_noise; cbn [advance touch pos];
        [lia | exact Hn']. }
  cbn [orb] in Hn'.
  destruct (Ascii.eqb (byte_at fbuffer (pos c)) HASH) eqn:Ehash; [|discriminate Hn'].
  set (c3 := advance (touch (RdBuf (pos c))
                        (touch (RdBuf (pos c)) (touch (RdBuf (pos c)) c)))).
  assert (H3 : pos c3 = pos c + 1) by reflexivity.
  pose proof (skip_comment_from_pos fbuffer read_res (remaining read_res c3) c3) as Hpos.
  pose proof (skip_comment_from_noise (remaining read_res c3) c3 ltac:(lia)
                ltac:(lia) ltac:(rewrite H3; exact Hn')) as [Hc Hlf].
  unfold skip_comment. fold c3.
  set (c4 := skip_comment_from fbuffer read_res (remaining read_res c3) c3) in *.
  apply IH.
  - destruct (pos c4 <? read_res); cbn [next_line advance pos]; lia.
  - destruct (Z.ltb_spec (pos c4) read_res) as [H4|H4]; cbn [next_line advance pos].
    + rewrite unread_step in Hc by lia. cbn [is_noise] in Hc.
      rewrite (Hlf H4) in Hc. exact Hc.
    + rewrite unread_end by lia. reflexivity.
Qed.

(** X25.  Blank lines and comments hold no record and raise no error.  If
    the bytes between the cursor and the end of the input are only spaces,
    line feeds and comments, [parse_next_kv] returns 0 without a message,
    with the cursor at the end of the input and the caller's key and value
    untouched. *)
Theorem noise_holds_no_record (c : cursor) :
  0 <= pos c ->
  is_noise false (unread fbuffer read_res (pos c)) = true ->
  exists c',
    parse_next_kv fbuffer read_res c = (0, c', []) /\
    read_res <= pos c' /\ same_key c c' /\ same_value c c'.
Proof.
  intros H0 Hn.
  pose proof (parse_from_noise (remaining read_res c) c H0 Hn) as Hr.
  pose proof (parse_from_outcome fbuffer read_res (remaining read_res c) c) as Ho.
  pose proof (parse_from_zero fbuffer read_res (remaining read_res c) c) as Hz.
  pose proof (parse_from_safe fbuffer read_res (pos c) (remaining read_res c) c
                ltac:(lia)) as Hs.
  unfold parse_next_kv.
  destruct (parse_from fbuffer read_res (remaining read_res c) c) as [[r c'] msgs].
  cbn [fst] in Hr. subst r. exists c'.
  destruct Ho as [[Ho _] | [[_ ->] | [Ho _]]]; [discriminate | | discriminate].
  split; [reflexivity|]. split; [apply (Hz c' []); [lia | reflexivity]|].
  destruct Hs as [_ [[Hs _] | [[Hs _] | (_ & Hk & Hv)]]];
    [discriminate | discriminate | split; assumption].
Qed.

End ParserNoise.

(** X25 on a sample: comments, an empty line, a line of spaces. *)
Lemma noise_holds_no_record_witness :
  exists c',
    parse_next_kv noise_sample (Z.of_nat (length noise_sample)) (fresh_cursor 0)
    = (0, c', []) /\
    Z.of_nat (length noise_sample) <= pos c' /\
    same_key (fresh_cursor 0) c' /\ same_value (fresh_cursor 0) c'.
Proof.
  apply (noise_holds_no_record noise_sample (Z.of_nat (length noise_sample))).
  - lia.
  - simpl. lia.
  - vm_compute. reflexivity.
Defined.
